(** * tgbotVerify: the SheerID step-protocol client, the disposable mailbox
      client and the Outlook registration flow, embedded in Rocq.

    Sources embedded here:
    - [military/sheerid_verifier.py]  (class [SheerIDVerifier])
    - [military/config.py]
    - [utils/temp_email.py]           (class [TempEmailService])
    - [outlook/register.py]           ([run_registration_flow], [save_to_excel],
                                       [registration_lock])
    - [handlers/email_commands.py]    (one task per command)

    Python values are modelled by the inductive [pyval]; a Python [str] is
    the list of its Unicode code points.  Effects (HTTP exchanges, the
    clock, the random generator, the calls to the browser) are threaded
    through an explicit state in a state-and-exception monad; the tasks
    that share the lock are the states of a transition system. *)

From Stdlib Require Import List ZArith NArith Bool Lia String Ascii.
From Stdlib Require Import DecimalString.
Import ListNotations.

Set Implicit Arguments.
Set Warnings "-register-all".

(* ================================================================== *)
(** * Python strings *)
(* ================================================================== *)

Module Py.

(** A Python [str]: the sequence of its code points. *)
Definition pystr := list N.

Fixpoint utf8_bytes (s : string) : list N :=
  match s with
  | EmptyString => []
  | String a r => N_of_ascii a :: utf8_bytes r
  end.

(** Decoding of the UTF-8 bytes of a literal of this file into code
    points, so that the literals of the source can be written as they are. *)
Fixpoint utf8_decode (bs : list N) : pystr :=
  match bs with
  | [] => []
  | b0 :: r =>
      if (b0 <? 0x80)%N then b0 :: utf8_decode r
      else if (b0 <? 0xE0)%N then
        match r with
        | b1 :: r1 => ((b0 - 0xC0) * 64 + (b1 - 0x80))%N :: utf8_decode r1
        | [] => []
        end
      else if (b0 <? 0xF0)%N then
        match r with
        | b1 :: b2 :: r2 =>
            ((b0 - 0xE0) * 4096 + (b1 - 0x80) * 64 + (b2 - 0x80))%N
              :: utf8_decode r2
        | _ => []
        end
      else
        match r with
        | b1 :: b2 :: b3 :: r3 =>
            ((b0 - 0xF0) * 262144 + (b1 - 0x80) * 4096
             + (b2 - 0x80) * 64 + (b3 - 0x80))%N :: utf8_decode r3
        | _ => []
        end
  end.

(** [U "text"] is the Python string literal ["text"]. *)
Definition U (s : string) : pystr := utf8_decode (utf8_bytes s).

Definition cp_eqb (a b : N) : bool := N.eqb a b.

Fixpoint str_eqb (a b : pystr) : bool :=
  match a, b with
  | [], [] => true
  | x :: a', y :: b' => cp_eqb x y && str_eqb a' b'
  | _, _ => false
  end.

(** [s.startswith(p)] *)
Fixpoint startswith (p s : pystr) : bool :=
  match p, s with
  | [], _ => true
  | a :: p', b :: s' => cp_eqb a b && startswith p' s'
  | _ :: _, [] => false
  end.

(** [p in s] for two strings. *)
Fixpoint str_in (p s : pystr) : bool :=
  startswith p s ||
  match s with
  | [] => false
  | _ :: s' => str_in p s'
  end.

(** [str.lower()].  The code points with a special lower-casing that
    yields ASCII are handled as CPython does (U+0130 gives [i] followed by
    U+0307, the Kelvin sign U+212A gives [k]); every other non-ASCII code
    point is mapped by CPython to non-ASCII code points and is left as it
    is here, which does not change any test [marker in s.lower()] for an
    ASCII marker. *)
Definition lower_cp (c : N) : pystr :=
  if ((65 <=? c) && (c <=? 90))%N then [(c + 32)%N]
  else if (c =? 0x130)%N then [0x69; 0x307]%N
  else if (c =? 0x212A)%N then [0x6B]%N
  else [c].

Definition lower (s : pystr) : pystr := flat_map lower_cp s.

(** [sep.join(parts)] for a list of strings. *)
Fixpoint join (sep : pystr) (parts : list pystr) : pystr :=
  match parts with
  | [] => []
  | [p] => p
  | p :: rest => p ++ sep ++ join sep rest
  end.

(** [s.replace(old, new)] for a non-empty [old]: the occurrences are
    replaced from left to right, without overlap. *)
Fixpoint replace_from (old new : pystr) (skip : nat) (s : pystr) : pystr :=
  match s with
  | [] => []
  | c :: s' =>
      match skip with
      | S k => replace_from old new k s'
      | O =>
          if startswith old s
          then new ++ replace_from old new (List.length old - 1) s'
          else c :: replace_from old new 0 s'
      end
  end.

Definition replace (old new s : pystr) : pystr := replace_from old new 0 s.

Definition str_of_Z (z : Z) : pystr :=
  utf8_bytes (NilZero.string_of_int (Z.to_int z)).

End Py.
Import Py.

(* ================================================================== *)
(** * Python values and exceptions *)
(* ================================================================== *)

Module Val.

(** The values that [json.loads] produces and the dictionaries the code
    builds from them.  A [float] is carried by its [repr] (its shortest
    decimal form, which determines it); a [dict] keeps its items in
    insertion order, and its keys are strings. *)
Inductive pyval :=
| PNone
| PBool (b : bool)
| PInt (z : Z)
| PFloat (repr : pystr)
| PStr (s : pystr)
| PList (l : list pyval)
| PDict (d : list (pystr * pyval)).

(** The exceptions that reach the code, all of them subclasses of
    [Exception].  [Exception] is the class the source raises itself; the
    others are raised by the interpreter or by [httpx] (whose errors are
    gathered under [HTTPError]).  The texts of the interpreter's own
    messages follow CPython 3.11 and are informative only. *)
Inductive exn :=
| Exception (msg : pystr)
| TypeError (msg : pystr)
| AttributeError (msg : pystr)
| KeyError (key : pyval)
| IndexError (msg : pystr)
| ValueError (msg : pystr)
| HTTPError (msg : pystr).

(** [bool(v)] *)
Definition truthy (v : pyval) : bool :=
  match v with
  | PNone => false
  | PBool b => b
  | PInt z => negb (Z.eqb z 0)
  | PFloat r => negb (str_eqb r (U "0.0") || str_eqb r (U "-0.0"))
  | PStr s => match s with [] => false | _ => true end
  | PList l => match l with [] => false | _ => true end
  | PDict d => match d with [] => false | _ => true end
  end.

(** [type(v).__name__] *)
Definition type_name (v : pyval) : pystr :=
  match v with
  | PNone => U "NoneType"
  | PBool _ => U "bool"
  | PInt _ => U "int"
  | PFloat _ => U "float"
  | PStr _ => U "str"
  | PList _ => U "list"
  | PDict _ => U "dict"
  end.

(** [v == "literal"] *)
Definition eq_str (v : pyval) (s : pystr) : bool :=
  match v with
  | PStr t => str_eqb t s
  | _ => false
  end.

Definition hex_digit (n : N) : N :=
  if (n <? 10)%N then (48 + n)%N else (87 + n)%N.

(** One code point inside [repr] of a string quoted by [q].  Code points
    from U+00A1 on, U+00AD apart, are written as they are; CPython also
    escapes the further code points that [str.isprintable] rejects. *)
Definition repr_cp (q c : N) : pystr :=
  if (c =? 92)%N then [92; 92]%N
  else if (c =? q)%N then [92%N; q]
  else if (c =? 10)%N then U "\n"
  else if (c =? 13)%N then U "\r"
  else if (c =? 9)%N then U "\t"
  else if ((c <? 32) || ((127 <=? c) && (c <? 0xA1)) || (c =? 0xAD))%N
       then U "\x" ++ [hex_digit (c / 16); hex_digit (c mod 16)]
  else [c].

(** [repr(s)] of a string: single quotes, unless the string holds a
    single quote and no double quote. *)
Definition repr_str (s : pystr) : pystr :=
  let q := if existsb (N.eqb 39) s && negb (existsb (N.eqb 34) s)
           then 34%N else 39%N in
  q :: flat_map (repr_cp q) s ++ [q].

(** [repr(v)] *)
Fixpoint repr (v : pyval) : pystr :=
  match v with
  | PNone => U "None"
  | PBool true => U "True"
  | PBool false => U "False"
  | PInt z => str_of_Z z
  | PFloat r => r
  | PStr s => repr_str s
  | PList l => U "[" ++ join (U ", ") (map repr l) ++ U "]"
  | PDict d =>
      U "{" ++
      join (U ", ")
        (map (fun kv => repr_str (fst kv) ++ U ": " ++ repr (snd kv)) d)
      ++ U "}"
  end.

(** [str(v)], which is also how an f-string renders [{v}]. *)
Definition str (v : pyval) : pystr :=
  match v with
  | PStr s => s
  | _ => repr v
  end.

(** [str(e)] *)
Definition str_exn (e : exn) : pystr :=
  match e with
  | Exception m | TypeError m | AttributeError m | IndexError m
  | ValueError m | HTTPError m => m
  | KeyError k => repr k
  end.

(** Lookup in the items of a dictionary. *)
Fixpoint lookup (k : pystr) (d : list (pystr * pyval)) : option pyval :=
  match d with
  | [] => None
  | (k', v) :: d' => if str_eqb k' k then Some v else lookup k d'
  end.

Definition no_attribute (v : pyval) (attr : pystr) : exn :=
  AttributeError
    (U "'" ++ type_name v ++ U "' object has no attribute '" ++ attr ++ U "'").

(** [v.get(k, default)]: only a [dict] has the method. *)
Definition get_default (v : pyval) (k : pystr) (default : pyval)
  : exn + pyval :=
  match v with
  | PDict d => inr (match lookup k d with Some x => x | None => default end)
  | _ => inl (no_attribute v (U "get"))
  end.

(** [v.get(k)] *)
Definition get (v : pyval) (k : pystr) : exn + pyval :=
  get_default v k PNone.

(** [v.lower()]: only a [str] has the method. *)
Definition lower_of (v : pyval) : exn + pystr :=
  match v with
  | PStr s => inr (lower s)
  | _ => inl (no_attribute v (U "lower"))
  end.

(** The items that [for x in v] goes through. *)
Definition iterate (v : pyval) : exn + list pyval :=
  match v with
  | PList l => inr l
  | PStr s => inr (map (fun c => PStr [c]) s)
  | PDict d => inr (map (fun kv => PStr (fst kv)) d)
  | _ => inl (TypeError (U "'" ++ type_name v ++ U "' object is not iterable"))
  end.

(** [v[0]]: the keys of a dictionary made from JSON are strings, so that
    the key [0] is never found. *)
Definition first_item (v : pyval) : exn + pyval :=
  match v with
  | PList (x :: _) => inr x
  | PList [] => inl (IndexError (U "list index out of range"))
  | PStr (c :: _) => inr (PStr [c])
  | PStr [] => inl (IndexError (U "string index out of range"))
  | PDict _ => inl (KeyError (PInt 0))
  | _ => inl (TypeError (U "'" ++ type_name v ++ U "' object is not subscriptable"))
  end.

Fixpoint join_items (i : Z) (items : list pyval) : exn + list pystr :=
  match items with
  | [] => inr []
  | PStr s :: rest =>
      match join_items (i + 1) rest with
      | inr l => inr (s :: l)
      | inl e => inl e
      end
  | v :: _ =>
      inl (TypeError (U "sequence item " ++ str_of_Z i ++
                      U ": expected str instance, " ++ type_name v ++ U " found"))
  end.

(** [sep.join(v)] for an arbitrary value [v]. *)
Definition join_value (sep : pystr) (v : pyval) : exn + pystr :=
  match iterate v with
  | inl _ => inl (TypeError (U "can only join an iterable"))
  | inr items =>
      match join_items 0 items with
      | inr l => inr (join sep l)
      | inl e => inl e
      end
  end.

End Val.
Import Val.

(* ================================================================== *)
(** * The regular expressions of the source *)
(* ================================================================== *)

(** The patterns of the source are sequences of single-character items
    (a literal, a set, [.]) with an optional quantifier, and [$].  They are
    matched as CPython's backtracking matcher does: leftmost, every
    quantifier greedy. *)
Module Re.

Inductive quant := One | Opt | Star | Plus.

Inductive atom :=
| Chr (p : N -> bool) (q : quant)
| Eos.

Definition regex := list atom.

(** Greedy repetition of a one-character test [p], then the continuation
    [k]: the longest repetition is tried first. *)
Fixpoint star (p : N -> bool) (k : pystr -> option nat) (s : pystr)
  : option nat :=
  match s with
  | c :: s' =>
      if p c then
        match star p k s' with
        | Some n => Some (S n)
        | None => k s
        end
      else k s
  | [] => k s
  end.

(** [$] without [re.MULTILINE]: the end of the string, or just before a
    newline that ends the string. *)
Definition at_end (s : pystr) : bool :=
  match s with
  | [] => true
  | [c] => (c =? 10)%N
  | _ => false
  end.

(** [match_here r s] is the length of the match of [r] at the start of
    [s] that the matcher finds first. *)
Fixpoint match_here (r : regex) : pystr -> option nat :=
  match r with
  | [] => fun _ => Some O
  | a :: r' =>
      let k := match_here r' in
      match a with
      | Eos => fun s => if at_end s then k s else None
      | Chr p One => fun s =>
          match s with
          | c :: s' => if p c then option_map S (k s') else None
          | [] => None
          end
      | Chr p Opt => fun s =>
          match s with
          | c :: s' =>
              if p c then
                match k s' with
                | Some n => Some (S n)
                | None => k s
                end
              else k s
          | [] => k s
          end
      | Chr p Star => star p k
      | Chr p Plus => fun s =>
          match s with
          | c :: s' => if p c then option_map S (star p k s') else None
          | [] => None
          end
      end
  end.

(** [re.search]: the first position where the pattern matches, with the
    length of the match. *)
Fixpoint search (r : regex) (s : pystr) : option (nat * nat) :=
  match match_here r s with
  | Some n => Some (O, n)
  | None =>
      match s with
      | [] => None
      | _ :: s' =>
          match search r s' with
          | Some (i, n) => Some (S i, n)
          | None => None
          end
      end
  end.

(** The matched text, [m.group(0)]. *)
Definition group0 (s : pystr) (m : nat * nat) : pystr :=
  firstn (snd m) (skipn (fst m) s).

(** [re.findall] for a pattern without groups: the matches from left to
    right, without overlap.  ([skip] counts the characters of the last
    match still to pass.  The patterns of the source match no empty
    string; after an empty match the scan moves on by one character.) *)
Fixpoint findall_from (r : regex) (skip : nat) (s : pystr) : list pystr :=
  match s with
  | [] =>
      match skip, match_here r [] with
      | O, Some _ => [[]]
      | _, _ => []
      end
  | _ :: s' =>
      match skip with
      | S k => findall_from r k s'
      | O =>
          match match_here r s with
          | Some n => firstn n s :: findall_from r (n - 1) s'
          | None => findall_from r 0 s'
          end
      end
  end.

Definition findall (r : regex) (s : pystr) : list pystr := findall_from r 0 s.

(** [re.sub(r, repl, s)] for a replacement text without references. *)
Fixpoint sub_from (r : regex) (repl : pystr) (skip : nat) (s : pystr)
  : pystr :=
  match s with
  | [] =>
      match skip, match_here r [] with
      | O, Some _ => repl
      | _, _ => []
      end
  | c :: s' =>
      match skip with
      | S k => sub_from r repl k s'
      | O =>
          match match_here r s with
          | Some (S n) => repl ++ sub_from r repl n s'
          | Some O => repl ++ c :: sub_from r repl 0 s'
          | None => c :: sub_from r repl 0 s'
          end
      end
  end.

Definition sub (r : regex) (repl s : pystr) : pystr := sub_from r repl 0 s.

(** ** Character tests *)

(** The lower-casing of [re.IGNORECASE] on [str] patterns (the simple
    lower-case mapping).  Besides [A]-[Z] the only code points it sends
    into ASCII are U+0130 and the Kelvin sign U+212A; the other non-ASCII
    code points stay outside ASCII and are left as they are. *)
Definition sre_lower (c : N) : N :=
  if ((65 <=? c) && (c <=? 90))%N then (c + 32)%N
  else if (c =? 0x130)%N then 0x69%N
  else if (c =? 0x212A)%N then 0x6B%N
  else c.

(** The further code points that the compiler of [re] adds to a cased
    literal under [re.IGNORECASE]: dotless i for [i], long s for [s]. *)
Definition casefix (l c : N) : bool :=
  ((l =? 0x69) && (c =? 0x131))%N || ((l =? 0x73) && (c =? 0x17F))%N.

(** A literal of a pattern compiled with [re.IGNORECASE]. *)
Definition lit_ci (l : N) : N -> bool :=
  fun c =>
    let lo := sre_lower l in
    let x := sre_lower c in
    (x =? lo)%N || casefix lo x.

(** A literal of a pattern compiled without flags. *)
Definition lit (l : N) : N -> bool := fun c => (c =? l)%N.

Definition lits_ci (s : pystr) : regex := map (fun l => Chr (lit_ci l) One) s.

(** [\s] on [str]: the code points for which [str.isspace] holds. *)
Definition isspace (c : N) : bool :=
  ((9 <=? c) && (c <=? 13))%N || ((28 <=? c) && (c <=? 32))%N
  || (c =? 0x85)%N || (c =? 0xA0)%N || (c =? 0x1680)%N
  || ((0x2000 <=? c) && (c <=? 0x200A))%N
  || (c =? 0x2028)%N || (c =? 0x2029)%N || (c =? 0x202F)%N
  || (c =? 0x205F)%N || (c =? 0x3000)%N.

(** The negated set of the link patterns: any character but whitespace,
    the two quotes, [<] and [>]. *)
Definition url_char (c : N) : bool :=
  negb (isspace c || (c =? 34)%N || (c =? 39)%N || (c =? 60)%N || (c =? 62)%N).

(** The set [[a-f0-9]] under [re.IGNORECASE]. *)
Definition hex_ci (c : N) : bool :=
  let x := sre_lower c in
  ((97 <=? x) && (x <=? 102))%N || ((48 <=? x) && (x <=? 57))%N.

(** [.] without [re.DOTALL] *)
Definition dot (c : N) : bool := negb (c =? 10)%N.

(** The set of the clean-up pattern: the two quotes and [>]. *)
Definition quote_or_gt (c : N) : bool :=
  ((c =? 34) || (c =? 39) || (c =? 62))%N.

End Re.
Import Re.

(* ================================================================== *)
(** * [SheerIDVerifier.parse_verification_id] *)
(* ================================================================== *)

(** The text before the group of the pattern [verificationId=([a-f0-9]+)]. *)
Definition verification_id_key : pystr := U "verificationId=".

(** The pattern [verificationId=([a-f0-9]+)] with [re.IGNORECASE]. *)
Definition verification_id_re : regex :=
  lits_ci verification_id_key ++ [Chr hex_ci Plus].

(** [parse_verification_id(url)]: [match.group(1)] is the match without
    the key, the group being the last item of the pattern and the key of
    fixed width. *)
Definition parse_verification_id (url : pystr) : option pystr :=
  match search verification_id_re url with
  | Some m => Some (skipn (List.length verification_id_key) (group0 url m))
  | None => None
  end.

(* ================================================================== *)
(** * The world: network, clock and random generator *)
(* ================================================================== *)

Module World.

(** What the code reads of an [httpx.Response]: [json] is [None] when the
    body is no JSON document, in which case [response.json()] raises. *)
Record response := {
  status_code : Z;
  text : pystr;
  json : option pyval
}.

(** One HTTP exchange as the network decides it: an answer, or an error
    raised by [httpx]; [took] is its duration in milliseconds. *)
Inductive exchange :=
| Answer (r : response) (took : N)
| Failure (e : exn) (took : N).

Record request := {
  req_method : pystr;
  req_url : pystr;
  req_json : option pyval;
  req_auth : option pystr
}.

(** The attributes of a [TempEmailService] object. *)
Record TempEmailService := {
  email : pyval;
  password : pyval;
  token : pyval;
  account_id : pyval
}.

(** The attributes of a [SheerIDVerifier] object.  [temp_email_service]
    tells whether the attribute refers to the service object of the run
    ([true]) or is [None] ([false]). *)
Record SheerIDVerifier := {
  verification_id : pystr;
  use_temp_email : bool;
  temp_email_service : bool
}.

(** The world of a run: the exchanges that the network will give, in the
    order of the requests; the requests sent so far; the clock, in
    milliseconds; the draws of the random generator to come; and the two
    objects of the run, the verifier and the mailbox service it may hold. *)
Record world := {
  net : list exchange;
  sent : list request;
  now : Z;
  rnd : list N;
  verifier : SheerIDVerifier;
  mailbox : TempEmailService
}.

(** Result of a computation: a value, an exception, or no result at all
    (a loop that has used up its fuel).  [Diverge] is no exception:
    [except] does not catch it. *)
Inductive res (A : Type) :=
| Ok (a : A)
| Raise (e : exn)
| Diverge.
Arguments Raise {A} e.
Arguments Diverge {A}.

Definition M (A : Type) := world -> res A * world.

Definition ret {A} (a : A) : M A := fun w => (Ok a, w).

Definition raise {A} (e : exn) : M A := fun w => (Raise e, w).

Definition bind {A B} (m : M A) (f : A -> M B) : M B :=
  fun w =>
    match m w with
    | (Ok a, w') => f a w'
    | (Raise e, w') => (Raise e, w')
    | (Diverge, w') => (Diverge, w')
    end.

(** [try: m  except Exception as e: h e] *)
Definition try_except {A} (m : M A) (h : exn -> M A) : M A :=
  fun w =>
    match m w with
    | (Raise e, w') => h e w'
    | r => r
    end.

(** A computation without effect that may raise. *)
Definition lift {A} (r : exn + A) : M A :=
  match r with
  | inr a => ret a
  | inl e => raise e
  end.

Definition bindE {A B} (r : exn + A) (f : A -> exn + B) : exn + B :=
  match r with
  | inr a => f a
  | inl e => inl e
  end.

Declare Scope py_scope.
Delimit Scope py_scope with py.
Notation "x <- m ;; k" := (bind m (fun x => k))
  (at level 61, m at next level, right associativity) : py_scope.
Notation "m ;; k" := (bind m (fun _ => k))
  (at level 61, right associativity) : py_scope.
Notation "x <-- r ;; k" := (bindE r (fun x => k))
  (at level 61, r at next level, right associativity) : py_scope.
Open Scope py_scope.

Definition advance (ms : Z) (w : world) : world :=
  {| net := net w; sent := sent w; now := now w + ms; rnd := rnd w;
     verifier := verifier w; mailbox := mailbox w |}.

Definition exchanged (req : request) (rest : list exchange) (took : N)
    (w : world) : world :=
  {| net := rest; sent := sent w ++ [req]; now := now w + Z.of_N took;
     rnd := rnd w; verifier := verifier w; mailbox := mailbox w |}.

(** Reading and writing the attributes of the two objects. *)
Definition self_mailbox : M TempEmailService := fun w => (Ok (mailbox w), w).

Definition set_mailbox (f : TempEmailService -> TempEmailService) : M unit :=
  fun w =>
    (Ok tt,
     {| net := net w; sent := sent w; now := now w; rnd := rnd w;
        verifier := verifier w; mailbox := f (mailbox w) |}).

Definition self_verifier : M SheerIDVerifier := fun w => (Ok (verifier w), w).

Definition set_verifier (f : SheerIDVerifier -> SheerIDVerifier) : M unit :=
  fun w =>
    (Ok tt,
     {| net := net w; sent := sent w; now := now w; rnd := rnd w;
        verifier := f (verifier w); mailbox := mailbox w |}).

(** [time.time()], in milliseconds. *)
Definition time_time : M Z := fun w => (Ok (now w), w).

(** [time.sleep(secs)] *)
Definition sleep (secs : Z) : M unit :=
  fun w =>
    if (secs <? 0)%Z
    then (Raise (ValueError (U "sleep length must be non-negative")), w)
    else (Ok tt, advance (secs * 1000) w).

(** One request of an [httpx.Client]: the network gives the next exchange.
    When it has none left the connection fails. *)
Definition http (req : request) : M response :=
  fun w =>
    match net w with
    | [] =>
        (Raise (HTTPError (U "All connection attempts failed")),
         exchanged req [] 0 w)
    | Answer r t :: rest => (Ok r, exchanged req rest t w)
    | Failure e t :: rest => (Raise e, exchanged req rest t w)
    end.

(** [response.json()] *)
Definition json_of (r : response) : exn + pyval :=
  match json r with
  | Some v => inr v
  | None => inl (ValueError (U "Expecting value: line 1 column 1 (char 0)"))
  end.

(** A draw below [n] from the random generator. *)
Definition randbelow (n : N) : M N :=
  fun w =>
    match rnd w with
    | [] => (Ok 0%N, w)
    | x :: r =>
        (Ok (x mod n)%N,
         {| net := net w; sent := sent w; now := now w; rnd := r;
            verifier := verifier w; mailbox := mailbox w |})
    end.

(** [random.randint(a, b)] *)
Definition randint (a b : Z) : M Z :=
  i <- randbelow (Z.to_N (b - a + 1)) ;; ret (a + Z.of_N i)%Z.

(** [random.choice(l)] for a non-empty [l] with first item [d]. *)
Definition choice {A} (d : A) (l : list A) : M A :=
  i <- randbelow (N.of_nat (List.length l)) ;; ret (nth (N.to_nat i) l d).

(** ** Computations that return and do not set the clock back *)

(** [sat m P]: from every world [m] ends, with a value that satisfies [P]
    or with an exception, and the clock has not gone back. *)
Definition sat {A} (m : M A) (P : A -> Prop) : Prop :=
  forall w, match m w with
            | (Ok a, w') => P a /\ (now w <= now w')%Z
            | (Raise _, w') => (now w <= now w')%Z
            | (Diverge, _) => False
            end.

Definition steady {A} (m : M A) : Prop := sat m (fun _ => True).

End World.
Import World.

(* ================================================================== *)
(** * [utils/temp_email.py]: class [TempEmailService] *)
(* ================================================================== *)

Module TempEmail.

Definition BASE_URL : pystr := U "https://api.mail.tm".

Definition fresh_service : TempEmailService :=
  {| email := PNone; password := PNone; token := PNone; account_id := PNone |}.

(** [string.ascii_letters + string.digits] *)
Definition password_chars : pystr :=
  U "abcdefghijklmnopqrstuvwxyzABCDEFGHIJKLMNOPQRSTUVWXYZ0123456789".

(** [_generate_password(length)] *)
Fixpoint _generate_password (length : nat) : M pystr :=
  match length with
  | O => ret []
  | S k =>
      c <- choice 97%N password_chars ;;
      r <- _generate_password k ;;
      ret (c :: r)
  end.

(** [_generate_username(first_name, last_name)] *)
Definition _generate_username (first_name last_name : pystr) : M pystr :=
  random_num <- randint 100 9999 ;;
  ret (lower first_name ++ U "." ++ lower last_name ++ str_of_Z random_num).

Definition GET (url : pystr) (auth : option pystr) : request :=
  {| req_method := U "GET"; req_url := url; req_json := None;
     req_auth := auth |}.

Definition POST (url : pystr) (body : pyval) : request :=
  {| req_method := U "POST"; req_url := url; req_json := Some body;
     req_auth := None |}.

(** [get_available_domain()] *)
Definition get_available_domain : M pyval :=
  try_except
    (response <- http (GET (BASE_URL ++ U "/domains") None) ;;
     if (status_code response =? 200)%Z then
       data <- lift (json_of response) ;;
       domains <- lift (get_default data (U "hydra:member") (PList [])) ;;
       if truthy domains then
         d0 <- lift (first_item domains) ;;
         lift (get d0 (U "domain"))
       else ret PNone
     else ret PNone)
    (fun _ => ret PNone).

(** [_login()] *)
Definition _login : M bool :=
  try_except
    (self <- self_mailbox ;;
     response <- http (POST (BASE_URL ++ U "/token")
                         (PDict [(U "address", email self);
                                 (U "password", password self)])) ;;
     if (status_code response =? 200)%Z then
       data <- lift (json_of response) ;;
       tok <- lift (get data (U "token")) ;;
       set_mailbox (fun s => {| email := email s; password := password s;
                                token := tok; account_id := account_id s |}) ;;
       ret true
     else ret false)
    (fun _ => ret false).

(** [create_account(first_name, last_name)]: the address, or [None]. *)
Definition create_account (first_name last_name : pystr) : M pyval :=
  try_except
    (domain <- get_available_domain ;;
     if negb (truthy domain) then ret PNone
     else
       username <- _generate_username first_name last_name ;;
       set_mailbox (fun s => {| email := PStr (username ++ U "@" ++ str domain);
                                password := password s; token := token s;
                                account_id := account_id s |}) ;;
       pw <- _generate_password 12 ;;
       set_mailbox (fun s => {| email := email s; password := PStr pw;
                                token := token s;
                                account_id := account_id s |}) ;;
       self <- self_mailbox ;;
       response <- http (POST (BASE_URL ++ U "/accounts")
                           (PDict [(U "address", email self);
                                   (U "password", password self)])) ;;
       if (status_code response =? 201)%Z then
         data <- lift (json_of response) ;;
         id <- lift (get data (U "id")) ;;
         set_mailbox (fun s => {| email := email s; password := password s;
                                  token := token s; account_id := id |}) ;;
         logged <- _login ;;
         if logged
         then self <- self_mailbox ;; ret (email self)
         else ret PNone
       else ret PNone)
    (fun _ => ret PNone).

(** [_get_auth_headers()]: the value of the [Authorization] header. *)
Definition _get_auth_headers (self : TempEmailService) : pystr :=
  U "Bearer " ++ str (token self).

(** [get_messages()] *)
Definition get_messages : M pyval :=
  self <- self_mailbox ;;
  if negb (truthy (token self)) then ret (PList [])
  else
    try_except
      (response <- http (GET (BASE_URL ++ U "/messages")
                           (Some (_get_auth_headers self))) ;;
       if (status_code response =? 200)%Z then
         data <- lift (json_of response) ;;
         lift (get_default data (U "hydra:member") (PList []))
       else ret (PList []))
      (fun _ => ret (PList [])).

(** [get_message_content(message_id)] *)
Definition get_message_content (message_id : pyval) : M pyval :=
  self <- self_mailbox ;;
  if negb (truthy (token self)) then ret PNone
  else
    try_except
      (response <- http (GET (BASE_URL ++ U "/messages/" ++ str message_id)
                           (Some (_get_auth_headers self))) ;;
       if (status_code response =? 200)%Z then lift (json_of response)
       else ret PNone)
      (fun _ => ret PNone).

(** ** Link extraction *)

(** The part the four link patterns share, up to [sheerid\.com]. *)
Definition link_head : regex :=
  lits_ci (U "http") ++ [Chr (lit_ci 115) Opt] ++ lits_ci (U "://")
  ++ [Chr url_char Star] ++ lits_ci (U "sheerid.com").

(** The four patterns of [_extract_verification_url], in its order. *)
Definition verify_link_re : regex :=
  link_head ++ [Chr url_char Star] ++ lits_ci (U "verify")
  ++ [Chr url_char Star].

Definition token_link_re : regex :=
  link_head ++ [Chr url_char Star] ++ lits_ci (U "token=")
  ++ [Chr url_char Plus].

Definition confirm_link_re : regex :=
  link_head ++ [Chr url_char Star] ++ lits_ci (U "confirm")
  ++ [Chr url_char Star].

Definition generic_link_re : regex :=
  link_head ++ lits_ci (U "/") ++ [Chr url_char Plus].

Definition patterns : list regex :=
  [verify_link_re; token_link_re; confirm_link_re; generic_link_re].

(** The clean-up pattern: a quote or [>], then [.*$]; compiled without
    flags. *)
Definition trailing_re : regex := [Chr quote_or_gt One; Chr dot Star; Eos].

(** The two clean-up steps applied to the first match. *)
Definition clean_link (m : pystr) : pystr :=
  sub trailing_re [] (replace (U "&amp;") (U "&") m).

(** The loop over the patterns: the first pattern with a match decides. *)
Fixpoint first_link (ps : list regex) (content : pystr) : option pystr :=
  match ps with
  | [] => None
  | pattern :: rest =>
      match findall pattern content with
      | m :: _ => Some (clean_link m)
      | [] => first_link rest content
      end
  end.

(** [a or ""] *)
Definition or_empty (v : pyval) : pyval :=
  if truthy v then v else PStr [].

Definition is_number (v : pyval) : bool :=
  match v with
  | PBool _ | PInt _ | PFloat _ => true
  | _ => false
  end.

Definition number_sum_type (a b : pyval) : pystr :=
  match a, b with
  | PFloat _, _ | _, PFloat _ => U "float"
  | _, _ => U "int"
  end.

(** [content = html_content + text_content] together with the check of
    its type made by the first [re.findall]: the text when both are
    strings; otherwise the [TypeError] of [+], or of [re.findall] when the
    sum exists (two numbers, two lists). *)
Definition content_of (html_content text_content : pyval) : exn + pystr :=
  match html_content, text_content with
  | PStr h, PStr t => inr (h ++ t)
  | PStr _, b =>
      inl (TypeError (U "can only concatenate str (not " ++ [34%N]
                      ++ type_name b ++ [34%N] ++ U ") to str"))
  | PList _, PList _ =>
      inl (TypeError (U "expected string or bytes-like object, got 'list'"))
  | PList _, b =>
      inl (TypeError (U "can only concatenate list (not " ++ [34%N]
                      ++ type_name b ++ [34%N] ++ U ") to list"))
  | a, b =>
      if is_number a && is_number b
      then inl (TypeError (U "expected string or bytes-like object, got '"
                           ++ number_sum_type a b ++ U "'"))
      else inl (TypeError (U "unsupported operand type(s) for +: '"
                           ++ type_name a ++ U "' and '" ++ type_name b
                           ++ U "'"))
  end.

(** [_extract_verification_url(message)]: the link, or [None]. *)
Definition _extract_verification_url (message : pyval)
  : exn + option pystr :=
  html <-- get_default message (U "html") (PStr []) ;;
  text <-- get_default message (U "text") (PStr []) ;;
  content <-- content_of (or_empty html) (or_empty text) ;;
  inr (first_link patterns content).

(** ** Polling the mailbox *)

(** The test on the sender and the subject of a listed message. *)
Definition from_sheerid (msg : pyval) : exn + bool :=
  from <-- get_default msg (U "from") (PDict []) ;;
  address <-- get_default from (U "address") (PStr []) ;;
  sender <-- lower_of address ;;
  subj <-- get_default msg (U "subject") (PStr []) ;;
  subject <-- lower_of subj ;;
  inr (str_in (U "sheerid") sender || str_in (U "sheerid") subject
       || str_in (U "verify") subject).

(** The [for msg in messages] loop of [wait_for_sheerid_email]: the link
    that makes the function return, or [None] when the loop ends. *)
Fixpoint scan_messages (messages : list pyval) : M (option pystr) :=
  match messages with
  | [] => ret None
  | msg :: rest =>
      hit <- lift (from_sheerid msg) ;;
      if hit : bool then
        id <- lift (get msg (U "id")) ;;
        content <- get_message_content id ;;
        if truthy content then
          verification_url <- lift (_extract_verification_url content) ;;
          match verification_url with
          | Some (c :: u) => ret (Some (c :: u))
          | _ => scan_messages rest
          end
        else scan_messages rest
      else scan_messages rest
  end.

(** One round of the [while] loop of [wait_for_sheerid_email], up to the
    end of its [for] loop. *)
Definition poll_round : M (option pystr) :=
  messages <- get_messages ;;
  items <- lift (iterate messages) ;;
  scan_messages items.

(** The [while] loop of [wait_for_sheerid_email]; [start_time] is in
    milliseconds, [max_wait] and [poll_interval] in seconds. *)
Fixpoint poll (fuel : nat) (start_time max_wait poll_interval : Z)
  : M (option pystr) :=
  match fuel with
  | O => fun w => (Diverge, w)
  | S fuel' =>
      t <- time_time ;;
      if (t - start_time <? max_wait * 1000)%Z then
        found <- poll_round ;;
        match found with
        | Some url => ret (Some url)
        | None =>
            sleep poll_interval ;;
            poll fuel' start_time max_wait poll_interval
        end
      else ret None
  end.

(** Rounds of the loop that [max_wait] and [poll_interval] allow, and one
    more for the last test of the clock. *)
Definition poll_fuel (max_wait poll_interval : Z) : nat :=
  S (S (Z.to_nat (max_wait / Z.max 1 poll_interval))).

(** [wait_for_sheerid_email(max_wait, poll_interval)]: the link, or [None]
    on timeout. *)
Definition wait_for_sheerid_email (max_wait poll_interval : Z)
  : M (option pystr) :=
  start_time <- time_time ;;
  poll (poll_fuel max_wait poll_interval) start_time max_wait poll_interval.

(** ** Following the link *)

(** [click_verification_link(url)] *)
Definition click_verification_link (url : pystr) : M (bool * pystr) :=
  try_except
    (response <- http (GET url None) ;;
     if (status_code response =? 200)%Z then
       let content := lower (text response) in
       if str_in (U "success") content || str_in (U "verified") content
          || str_in (U "confirmed") content
       then ret (true, U "邮箱验证成功")
       else if str_in (U "error") content || str_in (U "expired") content
       then ret (false, U "验证链接已过期或无效")
       else ret (true, U "验证链接已访问")
     else
       ret (false, U "访问验证链接失败: " ++ str_of_Z (status_code response)))
    (fun e => ret (false, str_exn e)).

End TempEmail.
Import TempEmail.

(* ================================================================== *)
(** * [military/config.py] *)
(* ================================================================== *)

Module Config.

Definition SHEERID_BASE_URL : pystr := U "https://services.sheerid.com".

Definition DEFAULT_MILITARY_STATUS : pystr := U "VETERAN".

Definition organization (id : Z) (name : string) : pystr * pyval :=
  (str_of_Z id,
   PDict [(U "id", PInt id); (U "idExtended", PStr (str_of_Z id));
          (U "name", PStr (U name)); (U "country", PStr (U "US"));
          (U "type", PStr (U "MILITARY"))]).

Definition ORGANIZATIONS : list (pystr * pyval) :=
  [organization 4070 "Army"; organization 4073 "Air Force";
   organization 4072 "Navy"; organization 4071 "Marine Corps";
   organization 4074 "Coast Guard"; organization 4544268 "Space Force"].

Definition ORGANIZATION_IDS : list pystr := map fst ORGANIZATIONS.

End Config.
Import Config.

(* ================================================================== *)
(** * [military/sheerid_verifier.py] *)
(* ================================================================== *)

Module Verifier.

(** ** The generators of default values *)

Definition FIRST_NAMES : list pystr :=
  map U ["James"; "John"; "Robert"; "Michael"; "William"; "David";
         "Richard"; "Joseph"; "Thomas"; "Charles"; "Christopher"; "Daniel";
         "Matthew"; "Anthony"; "Mark"; "Donald"; "Steven"; "Paul"; "Andrew";
         "Joshua"; "Kenneth"; "Kevin"; "Brian"; "George"; "Timothy";
         "Ronald"; "Edward"; "Jason"; "Jeffrey"; "Ryan"]%string.

Definition LAST_NAMES : list pystr :=
  map U ["Smith"; "Johnson"; "Williams"; "Brown"; "Jones"; "Garcia";
         "Miller"; "Davis"; "Rodriguez"; "Martinez"; "Hernandez"; "Lopez";
         "Gonzalez"; "Wilson"; "Anderson"; "Thomas"; "Taylor"; "Moore";
         "Jackson"; "Martin"; "Lee"; "Perez"; "Thompson"; "White"; "Harris";
         "Sanchez"; "Clark"; "Ramirez"; "Lewis"; "Robinson"]%string.

(** [NameGenerator.generate()]: the first and the last name. *)
Definition NameGenerator_generate : M (pystr * pystr) :=
  first_name <- choice (U "James") FIRST_NAMES ;;
  last_name <- choice (U "Smith") LAST_NAMES ;;
  ret (first_name, last_name).

(** [f"{n:02d}"] *)
Definition pad2 (n : Z) : pystr :=
  if ((0 <=? n) && (n <? 10))%Z then U "0" ++ str_of_Z n else str_of_Z n.

(** [f"{n:04d}"], the form [%Y] gives a year. *)
Definition pad4 (n : Z) : pystr :=
  if ((0 <=? n) && (n <? 10))%Z then U "000" ++ str_of_Z n
  else if ((0 <=? n) && (n <? 100))%Z then U "00" ++ str_of_Z n
  else if ((0 <=? n) && (n <? 1000))%Z then U "0" ++ str_of_Z n
  else str_of_Z n.

(** [generate_birth_date()] *)
Definition generate_birth_date : M pystr :=
  year <- randint 1960 1995 ;;
  month <- randint 1 12 ;;
  day <- randint 1 28 ;;
  ret (str_of_Z year ++ U "-" ++ pad2 month ++ U "-" ++ pad2 day).

(** Year, month and day of the day that lies [days] days after
    1970-01-01, in the Gregorian calendar. *)
Definition civil_from_days (days : Z) : Z * Z * Z :=
  let z := (days + 719468)%Z in
  let era := (z / 146097)%Z in
  let doe := (z - era * 146097)%Z in
  let yoe := ((doe - doe / 1460 + doe / 36524 - doe / 146096) / 365)%Z in
  let doy := (doe - (365 * yoe + yoe / 4 - yoe / 100))%Z in
  let mp := ((5 * doy + 2) / 153)%Z in
  let d := (doy - (153 * mp + 2) / 5 + 1)%Z in
  let m := (if mp <? 10 then mp + 3 else mp - 9)%Z in
  let y := (yoe + era * 400 + (if m <=? 2 then 1 else 0))%Z in
  (y, m, d).

(** [generate_discharge_date()]: the clock is read as local time. *)
Definition generate_discharge_date : M pystr :=
  today <- time_time ;;
  days_ago <- randint 365 (365 * 5) ;;
  let '(y, m, d) :=
    civil_from_days ((today - days_ago * 86400000) / 86400000)%Z in
  ret (pad4 y ++ U "-" ++ pad2 m ++ U "-" ++ pad2 d).

(** [generate_email(first_name, last_name)] *)
Definition generate_email (first_name last_name : pystr) : M pystr :=
  let domains := map U ["gmail.com"; "yahoo.com"; "outlook.com";
                        "hotmail.com"; "icloud.com"]%string in
  random_num <- randint 1 999 ;;
  domain <- choice (U "gmail.com") domains ;;
  ret (lower first_name ++ U "." ++ lower last_name ++ str_of_Z random_num
       ++ U "@" ++ domain).

(** ** [SheerIDVerifier._sheerid_request] *)

(** [_sheerid_request(method, url, body)]: the data and the status code.
    [httpx] refuses, with a [TypeError], a URL that is no string. *)
Definition _sheerid_request (method : pystr) (url : pyval)
    (body : option pyval) : M (pyval * Z) :=
  match url with
  | PStr u =>
      response <- http {| req_method := method; req_url := u;
                          req_json := body; req_auth := None |} ;;
      let data :=
        match json_of response with
        | inr d => d
        | inl _ => PDict [(U "raw", PStr (text response))]
        end in
      ret (data, status_code response)
  | _ =>
      raise (TypeError (U "Invalid type for url.  Expected str or httpx.URL"))
  end.

(** ** [SheerIDVerifier.verify] *)

(** The arguments of [verify]; each is [None] or a string. *)
Record verify_args := {
  arg_first_name : option pystr;
  arg_last_name : option pystr;
  arg_email : option pystr;
  arg_birth_date : option pystr;
  arg_organization_id : option pystr;
  arg_discharge_date : option pystr;
  arg_military_status : option pystr
}.

(** [not x] for an argument. *)
Definition missing (x : option pystr) : bool :=
  match x with
  | Some (_ :: _) => false
  | _ => true
  end.

Definition given (x : option pystr) : pystr :=
  match x with
  | Some s => s
  | None => []
  end.

(** The local variables of [verify] once the defaults are filled in. *)
Record subject := {
  first_name : pystr;
  last_name : pystr;
  subject_email : pyval;
  birth_date : pystr;
  discharge_date : pystr;
  organization : pyval;
  military_status : pystr
}.

Definition set_service (b : bool) : M unit :=
  set_verifier (fun v => {| verification_id := verification_id v;
                            use_temp_email := use_temp_email v;
                            temp_email_service := b |}).

(** The first part of [verify]: the defaults, down to the lookup of the
    organization. *)
Definition prepare (a : verify_args) : M subject :=
  name <- (if missing (arg_first_name a) || missing (arg_last_name a)
           then NameGenerator_generate
           else ret (given (arg_first_name a), given (arg_last_name a))) ;;
  let '(first_name, last_name) := name in
  email <- (if missing (arg_email a) then
              self <- self_verifier ;;
              if use_temp_email self then
                set_mailbox (fun _ => fresh_service) ;;
                set_service true ;;
                email <- create_account first_name last_name ;;
                if negb (truthy email) then
                  email <- generate_email first_name last_name ;;
                  set_service false ;;
                  ret (PStr email)
                else ret email
              else
                email <- generate_email first_name last_name ;;
                ret (PStr email)
            else ret (PStr (given (arg_email a)))) ;;
  birth_date <- (if missing (arg_birth_date a) then generate_birth_date
                 else ret (given (arg_birth_date a))) ;;
  discharge_date <- (if missing (arg_discharge_date a)
                     then generate_discharge_date
                     else ret (given (arg_discharge_date a))) ;;
  organization_id <- (if missing (arg_organization_id a)
                      then choice (U "4070") ORGANIZATION_IDS
                      else ret (given (arg_organization_id a))) ;;
  military_status <- (if missing (arg_military_status a)
                      then ret DEFAULT_MILITARY_STATUS
                      else ret (given (arg_military_status a))) ;;
  match lookup organization_id ORGANIZATIONS with
  | None => raise (KeyError (PStr organization_id))
  | Some organization =>
      ret {| first_name := first_name; last_name := last_name;
             subject_email := email; birth_date := birth_date;
             discharge_date := discharge_date;
             organization := organization;
             military_status := military_status |}
  end.

Definition step_url (self : SheerIDVerifier) (step : string) : pystr :=
  SHEERID_BASE_URL ++ U "/rest/v2/verification/" ++ verification_id self
  ++ U "/step/" ++ U step.

Definition step1_url (self : SheerIDVerifier) : pyval :=
  PStr (step_url self "collectMilitaryStatus").

Definition step1_body (p : subject) : pyval :=
  PDict [(U "status", PStr (military_status p))].

(** [submission_url] when it is true, or the URL built from the id. *)
Definition step2_url (self : SheerIDVerifier) (submission_url : pyval)
  : pyval :=
  if truthy submission_url then submission_url
  else PStr (step_url self "collectInactiveMilitaryPersonalInfo").

(** A string between double quotes. *)
Definition quoted (s : string) : pystr := [34%N] ++ U s ++ [34%N].

(** The JSON text that the source sends as [flags]. *)
Definition metadata_flags : pystr :=
  U "{" ++ quoted "doc-upload-considerations" ++ U ":" ++ quoted "default"
  ++ U "," ++ quoted "doc-upload-may24" ++ U ":" ++ quoted "default"
  ++ U "," ++ quoted "doc-upload-redesign-use-legacy-message-keys"
  ++ U ":false"
  ++ U "," ++ quoted "docUpload-assertion-checklist" ++ U ":"
  ++ quoted "default"
  ++ U "," ++ quoted "include-cvec-field-france-student" ++ U ":"
  ++ quoted "not-labeled-optional"
  ++ U "," ++ quoted "org-search-overlay" ++ U ":" ++ quoted "default"
  ++ U "," ++ quoted "org-selected-display" ++ U ":" ++ quoted "default"
  ++ U "}".

(** [d[k]] for a key that every entry of [ORGANIZATIONS] has. *)
Definition field (d : pyval) (k : pystr) : pyval :=
  match d with
  | PDict items => match lookup k items with Some v => v | None => PNone end
  | _ => PNone
  end.

Definition step2_body (self : SheerIDVerifier) (p : subject) : pyval :=
  PDict
    [(U "firstName", PStr (first_name p));
     (U "lastName", PStr (last_name p));
     (U "birthDate", PStr (birth_date p));
     (U "email", subject_email p);
     (U "phoneNumber", PStr []);
     (U "organization",
       PDict [(U "id", field (organization p) (U "id"));
              (U "name", field (organization p) (U "name"))]);
     (U "dischargeDate", PStr (discharge_date p));
     (U "locale", PStr (U "en-US"));
     (U "country", PStr (U "US"));
     (U "metadata",
       PDict
         [(U "marketConsentValue", PBool false);
          (U "refererUrl", PStr []);
          (U "verificationId", PStr (verification_id self));
          (U "flags", PStr metadata_flags);
          (U "submissionOptIn", PStr (U "By submitting the personal information above, I acknowledge that my personal information is being collected under the privacy policy of the business from which I am seeking a discount, and I understand that my personal information will be shared with SheerID as a processor/third-party service provider in order for SheerID to confirm my eligibility for a special offer."))])].

(** The check made on the answer of step 1 and of step 2: the data when
    the step went through, an [Exception] otherwise. *)
Definition check_step (n : string) (data : pyval) (status : Z) : M pyval :=
  if negb (status =? 200)%Z then
    raise (Exception (U "步骤 " ++ U n ++ U " 失败 (状态码 " ++ str_of_Z status
                      ++ U "): " ++ str data))
  else
    current <- lift (get data (U "currentStep")) ;;
    if eq_str current (U "error") then
      error_ids <- lift (get_default data (U "errorIds")
                           (PList [PStr (U "Unknown error")])) ;;
      error_msg <- lift (join_value (U ", ") error_ids) ;;
      raise (Exception (U "步骤 " ++ U n ++ U " 错误: " ++ error_msg))
    else ret data.

(** Step 1 of [verify] ([collectMilitaryStatus]): the checked data. *)
Definition step1 (p : subject) : M pyval :=
  self <- self_verifier ;;
  r <- _sheerid_request (U "POST") (step1_url self) (Some (step1_body p)) ;;
  check_step "1" (fst r) (snd r).

(** Step 2 of [verify] ([collectInactiveMilitaryPersonalInfo]). *)
Definition step2 (p : subject) (step1_data : pyval) : M pyval :=
  self <- self_verifier ;;
  submission_url <- lift (get step1_data (U "submissionUrl")) ;;
  r <- _sheerid_request (U "POST") (step2_url self submission_url)
         (Some (step2_body self p)) ;;
  check_step "2" (fst r) (snd r).

Definition status_url (self : SheerIDVerifier) : pyval :=
  PStr (SHEERID_BASE_URL ++ U "/rest/v2/verification/"
        ++ verification_id self).

(** The outcomes that [verify] returns. *)
Definition outcome_success (self : SheerIDVerifier) (message : string)
    (data : pyval) : pyval :=
  PDict [(U "success", PBool true); (U "pending", PBool false);
         (U "message", PStr (U message));
         (U "verification_id", PStr (verification_id self));
         (U "redirect_url", field data (U "redirectUrl"));
         (U "reward_code", field data (U "rewardCode"));
         (U "status", data)].

Definition outcome_pending (self : SheerIDVerifier) (message : string)
    (final_step data : pyval) : pyval :=
  PDict [(U "success", PBool true); (U "pending", PBool true);
         (U "message", PStr (U message));
         (U "verification_id", PStr (verification_id self));
         (U "redirect_url", field data (U "redirectUrl"));
         (U "current_step", final_step);
         (U "status", data)].

Definition outcome_failed (self : SheerIDVerifier) (message : pystr)
    (final_step data : pyval) : pyval :=
  PDict [(U "success", PBool false);
         (U "message", PStr message);
         (U "verification_id", PStr (verification_id self));
         (U "current_step", final_step);
         (U "status", data)].

Definition outcome_unknown (self : SheerIDVerifier) (final_step data : pyval)
  : pyval :=
  PDict [(U "success", PBool false);
         (U "message", PStr (U "未知状态: " ++ str final_step));
         (U "verification_id", PStr (verification_id self));
         (U "redirect_url", field data (U "redirectUrl"));
         (U "current_step", final_step);
         (U "status", data)].

Definition outcome_error (self : SheerIDVerifier) (e : exn) : pyval :=
  PDict [(U "success", PBool false);
         (U "message", PStr (str_exn e));
         (U "verification_id", PStr (verification_id self))].

Definition email_failure_message : pystr :=
  U "SheerID 要求验证邮箱，自动验证失败。请使用真实可接收邮件的邮箱重新获取验证链接。".

(** The attempt to confirm the address, inside the [emailLoop] branch:
    [inl outcome] when it returns from [verify], [inr final_step] when
    control reaches the end of the attempt with that value of
    [final_step]. *)
Definition confirm_email (final_step : pyval) : M (pyval + pyval) :=
  self <- self_verifier ;;
  if temp_email_service self then
    verification_url <- wait_for_sheerid_email 90 5 ;;
    match verification_url with
    | Some (c :: u) =>
        clicked <- click_verification_link (c :: u) ;;
        if fst clicked then
          r <- _sheerid_request (U "GET") (status_url self) None ;;
          let final_data := fst r in
          final_step <- lift (get_default final_data (U "currentStep")
                                (PStr (U "unknown"))) ;;
          if eq_str final_step (U "success") then
            ret (inl (outcome_success self "认证成功（已自动完成邮箱验证）"
                        final_data))
          else if eq_str final_step (U "pending") then
            ret (inl (outcome_pending self "邮箱已验证，等待审核" final_step
                        final_data))
          else ret (inr final_step)
        else ret (inr final_step)
    | _ => ret (inr final_step)
    end
  else ret (inr final_step).

(** The branch on [currentStep] of the answer of step 2. *)
Definition dispatch (step2_data : pyval) : M pyval :=
  self <- self_verifier ;;
  final_step <- lift (get step2_data (U "currentStep")) ;;
  if eq_str final_step (U "emailLoop") then
    attempt <- confirm_email final_step ;;
    match attempt with
    | inl outcome => ret outcome
    | inr final_step =>
        ret (outcome_failed self email_failure_message final_step step2_data)
    end
  else if eq_str final_step (U "docUpload") then
    ret (outcome_failed self (U "需要上传军人身份证明文档，当前版本暂不支持")
           final_step step2_data)
  else if eq_str final_step (U "success") then
    ret (outcome_success self "认证成功" step2_data)
  else if eq_str final_step (U "pending") then
    ret (outcome_pending self "信息已提交，等待审核" final_step step2_data)
  else ret (outcome_unknown self final_step step2_data).

(** The body of the [try] of [verify]. *)
Definition verify_body (a : verify_args) : M pyval :=
  p <- prepare a ;;
  step1_data <- step1 p ;;
  step2_data <- step2 p step1_data ;;
  dispatch step2_data.

(** [verify(first_name, ..., military_status)] *)
Definition verify (a : verify_args) : M pyval :=
  try_except (verify_body a)
    (fun e => self <- self_verifier ;; ret (outcome_error self e)).

End Verifier.
Import Verifier.

(* ================================================================== *)
(** * [outlook/register.py] *)
(* ================================================================== *)

Module Register.

Close Scope py_scope.

(** The generated credentials.  The three parts of the birth date are
    kept as numbers: the dictionary of the source holds their decimal
    text and the flow reads them back with [int]. *)
Record account := {
  acc_first_name : pystr;
  acc_last_name : pystr;
  username_only : pystr;
  acc_email : pystr;
  acc_password : pystr;
  birth_day : Z;
  birth_month : Z;
  birth_year : Z
}.

(** The locators of the flow, named after the control they select. *)
Inductive target :=
| NEXT_BUTTON_SEL
| HUMAN_IFRAME_SEL
| CONSENT_BUTTON
| CONSENT_NEXT_BUTTON
| PIPL_FORM
| CREATE_LINK
| SWITCH_TO_EMAIL
| EMAIL_INPUT
| DOMAIN_PICKER
| VALIDATION
| PASSWORD_INPUT
| FIRST_NAME_INPUT
| LAST_NAME_INPUT
| YEAR_INPUT
| MONTH_SELECT
| DAY_SELECT
| MONTH_DROPDOWN
| DAY_DROPDOWN
| MONTH_DROPDOWN_ID
| DAY_DROPDOWN_ID
| LISTBOX
| LISTBOX_OR_OPTION
| OPTIONS (in_listbox : bool)
| OPTION_WITH (in_listbox : bool) (label : pystr)
| PAGE_OPTION_WITH (label : pystr)
| BUTTON_WITH (label : pystr).

(** The calls that leave the process: to the browser (Playwright), to
    the file system and [pandas], to [Faker] and to [random]. *)
Inductive call :=
| Launch | NewContext | AddInitScript | NewPage | Close
| Goto | WaitForLoadState | MouseMove
| Count (t : target) | IsVisible (t : target)
| Hover (t : target) | Click (t : target) | ClickForce (t : target)
| Focus (t : target) | ScrollIntoView (t : target)
| WaitFor (t : target) (timeout_ms : Z)
| InnerText (t : target) | GetAttribute (t : target)
| WaitForSelector (t : target) | SelectOption (t : target) (value : Z)
| Press (key : string) | TypeText (chars : pystr)
| WaitForTimeout (ms : Z) | WaitForFunction (t : target) | WaitForUrl
| Content | Screenshot (name : string)
| OpenHtml (name : string) | WriteHtml (name : string)
| ReadExcel | ToExcel
| Faker (what : string) | Random.

(** What a call gives back: an exception or not, and the number, the
    flag or the text it returns, with the time it took in milliseconds. *)
Record reply := {
  fails : option exn;
  number : Z;
  flag : bool;
  words : pystr;
  took : N
}.

(** The state of a run: the answers of the outside, which depend on the
    call and on how many calls came before; the calls made; the
    monotonic clock in milliseconds; the rows of the Excel file ([None]:
    no file); the number of times [save_to_excel] was entered. *)
Record state := {
  outside : nat -> call -> reply;
  calls : list call;
  clock : Z;
  excel : option (list account);
  saves : nat
}.

Definition B (A : Type) := state -> res A * state.

Definition ret {A} (a : A) : B A := fun s => (Ok a, s).

Definition bind {A C} (m : B A) (f : A -> B C) : B C :=
  fun s =>
    match m s with
    | (Ok a, s') => f a s'
    | (Raise e, s') => (Raise e, s')
    | (Diverge, s') => (Diverge, s')
    end.

(** [try: m  except Exception as e: h e] *)
Definition try_except {A} (m : B A) (h : exn -> B A) : B A :=
  fun s =>
    match m s with
    | (Raise e, s') => h e s'
    | r => r
    end.

(** [try: m  finally: f]: an exception of [f] takes the place of the
    result of [m]. *)
Definition try_finally {A} (m : B A) (f : B unit) : B A :=
  fun s =>
    match m s with
    | (Diverge, s') => (Diverge, s')
    | (r, s') =>
        match f s' with
        | (Ok _, s'') => (r, s'')
        | (Raise e, s'') => (Raise e, s'')
        | (Diverge, s'') => (Diverge, s'')
        end
    end.

Declare Scope flow_scope.
Delimit Scope flow_scope with flow.
Notation "x <- m ;; k" := (bind m (fun x => k))
  (at level 61, m at next level, right associativity) : flow_scope.
Notation "m ;; k" := (bind m (fun _ => k))
  (at level 61, right associativity) : flow_scope.
Open Scope flow_scope.

Definition answered (c : call) (r : reply) (s : state) : state :=
  {| outside := outside s; calls := calls s ++ [c];
     clock := clock s + Z.of_N (took r); excel := excel s;
     saves := saves s |}.

(** A call that may raise. *)
Definition ask (c : call) : B reply :=
  fun s =>
    let r := outside s (List.length (calls s)) c in
    match fails r with
    | Some e => (Raise e, answered c r s)
    | None => (Ok r, answered c r s)
    end.

(** A call that does not raise ([random], [Faker]). *)
Definition draw (c : call) : B reply :=
  fun s =>
    let r := outside s (List.length (calls s)) c in
    (Ok r, answered c r s).

Definition ask_ (c : call) : B unit := _ <- ask c ;; ret tt.

(** [time.monotonic()], in milliseconds. *)
Definition monotonic : B Z := fun s => (Ok (clock s), s).

Definition pass (ms : Z) : B unit :=
  fun s =>
    (Ok tt,
     {| outside := outside s; calls := calls s; clock := clock s + ms;
        excel := excel s; saves := saves s |}).

(** [asyncio.sleep(secs)], here in milliseconds. *)
Definition sleep (ms : Z) : B unit := pass ms.

(** [random.randint(a, b)] *)
Definition randint (a b : Z) : B Z :=
  r <- draw Random ;; ret (a + (number r) mod (b - a + 1))%Z.

(** [asyncio.sleep(random.uniform(a, b))], here in milliseconds. *)
Definition sleep_uniform (a b : Z) : B unit :=
  ms <- randint a b ;; sleep ms.

(** [page.wait_for_timeout(ms)] *)
Definition wait_for_timeout (ms : Z) : B unit :=
  ask_ (WaitForTimeout ms) ;; pass ms.

(** [locator.count()] *)
Definition count (t : target) : B Z := r <- ask (Count t) ;; ret (number r).

(** [locator.first.is_visible()] *)
Definition is_visible (t : target) : B bool :=
  r <- ask (IsVisible t) ;; ret (flag r).

(** [str.strip()] *)
Fixpoint lstrip (s : pystr) : pystr :=
  match s with
  | c :: s' => if isspace c then lstrip s' else s
  | [] => []
  end.

Definition strip (s : pystr) : pystr := rev (lstrip (rev (lstrip s))).

(** [human_type(page, selector, text)] *)
Fixpoint type_chars (text : pystr) : B unit :=
  match text with
  | [] => ret tt
  | char :: rest =>
      _ <- randint 50 150 ;;
      ask_ (TypeText [char]) ;;
      r <- draw Random ;;
      (if (900 <? (number r) mod 1000)%Z then sleep_uniform 200 500
       else ret tt) ;;
      type_chars rest
  end.

Definition human_type (selector : target) (text : pystr) : B unit :=
  ask_ (Click selector) ;; type_chars text.

(** [human_click(page, selector)] *)
Definition human_click (selector : target) : B unit :=
  try_except
    (ask_ (Hover selector) ;; sleep_uniform 300 800 ;; ask_ (Click selector))
    (fun _ => ask_ (ClickForce selector)).

(** [click_next(page)] *)
Definition click_next : B bool :=
  n <- count NEXT_BUTTON_SEL ;;
  clicked <-
    (if (0 <? n)%Z then
       try_except
         (visible <- is_visible NEXT_BUTTON_SEL ;;
          if visible then human_click NEXT_BUTTON_SEL ;; ret true
          else ret false)
         (fun _ =>
            try_except (ask_ (Click NEXT_BUTTON_SEL) ;; ret true)
              (fun _ => ret false))
     else ret false) ;;
  if clicked : bool then ret true
  else try_except (ask_ (Press "Enter") ;; ret true) (fun _ => ret false).

(** [random_mouse_noise(page)] *)
Definition random_mouse_noise : B unit :=
  try_except
    (_ <- randint 100 1000 ;; _ <- randint 100 700 ;; ask_ MouseMove)
    (fun _ => ret tt).

(** [close_open_listbox(page)] *)
Definition close_open_listbox : B unit :=
  n <- count LISTBOX ;;
  if (n =? 0)%Z then ret tt
  else
    try_except (ask_ (Press "Escape")) (fun _ => ret tt) ;;
    wait_for_timeout 300.

(** [combobox_has_value(page, selector)] *)
Definition combobox_has_value (selector : target) : B bool :=
  n <- count selector ;;
  if (n =? 0)%Z then ret false
  else
    text <- try_except (r <- ask (InnerText selector) ;; ret (strip (words r)))
              (fun _ => ret []) ;;
    value <- try_except (r <- ask (GetAttribute selector) ;;
                         ret (strip (words r)))
               (fun _ => ret []) ;;
    ret (match text, value with [], [] => false | _, _ => true end).

(** The loop of [wait_for_human_verification]. *)
Fixpoint human_loop (fuel : nat) (start timeout_ms : Z) : B bool :=
  match fuel with
  | O => fun s => (Diverge, s)
  | S fuel' =>
      t <- monotonic ;;
      if (t - start <? timeout_ms)%Z then
        gone <- try_except
                  (n <- count HUMAN_IFRAME_SEL ;;
                   if (n =? 0)%Z then ret true
                   else
                     visible <- is_visible HUMAN_IFRAME_SEL ;;
                     ret (negb visible))
                  (fun _ => ret true) ;;
        if gone : bool then ret true
        else wait_for_timeout 2000 ;; human_loop fuel' start timeout_ms
      else ret false
  end.

(** [wait_for_human_verification(page, timeout_ms)] *)
Definition wait_for_human_verification (timeout_ms : Z) : B bool :=
  n <- count HUMAN_IFRAME_SEL ;;
  if (n =? 0)%Z then ret true
  else
    start <- monotonic ;;
    human_loop (S (S (Z.to_nat (timeout_ms / 2000)))) start timeout_ms.

(** [accept_consent_if_present(page, timeout_ms)] *)
Definition accept_consent_if_present (timeout_ms : Z) : B bool :=
  n <- count CONSENT_BUTTON ;;
  if (n =? 0)%Z then ret false
  else
    try_except
      (ask_ (WaitFor CONSENT_BUTTON timeout_ms) ;;
       h <- count HUMAN_IFRAME_SEL ;;
       passed <- (if (0 <? h)%Z then wait_for_human_verification 600000
                  else ret true) ;;
       if passed : bool then
         ask_ (ScrollIntoView CONSENT_BUTTON) ;;
         ask_ (Click CONSENT_BUTTON) ;;
         wait_for_timeout 1000 ;;
         ret true
       else ret false)
      (fun _ => ret false).

(** The loop of [accept_consent_with_retry] and of
    [wait_for_and_accept_consent], which have the same body. *)
Fixpoint consent_loop (fuel : nat) (deadline : Z) : B bool :=
  match fuel with
  | O => fun s => (Diverge, s)
  | S fuel' =>
      t <- monotonic ;;
      if (t <? deadline)%Z then
        accepted <- accept_consent_if_present 2000 ;;
        if accepted : bool then ret true
        else wait_for_timeout 500 ;; consent_loop fuel' deadline
      else ret false
  end.

(** [accept_consent_with_retry(page, timeout_ms)] *)
Definition accept_consent_with_retry (timeout_ms : Z) : B bool :=
  t <- monotonic ;;
  consent_loop (S (S (Z.to_nat (timeout_ms / 500)))) (t + timeout_ms).

(** [wait_for_and_accept_consent(page, timeout_ms)] *)
Definition wait_for_and_accept_consent (timeout_ms : Z) : B bool :=
  t <- monotonic ;;
  consent_loop (S (S (Z.to_nat (timeout_ms / 500)))) (t + timeout_ms).

(** [save_debug_info(page, name)] *)
Definition save_debug_info (name : string) : B unit :=
  try_except
    (ask_ (Screenshot name) ;; ask_ (OpenHtml name) ;; ask_ Content ;;
     ask_ (WriteHtml name))
    (fun _ => ret tt).

(** [settle_interstitials(page, save_debug_info, account)]: the flag
    [ok] of the tuple it returns, which is always true. *)
Definition settle_interstitials : B bool :=
  accepted <- accept_consent_if_present 5000 ;;
  (if accepted : bool then ask_ WaitForLoadState else ret tt) ;;
  ret true.

(** ** [select_dropdown_option] *)

(** [open_dropdown()] *)
Definition open_dropdown (button : target) : B bool :=
  try_except (ask_ (ScrollIntoView button)) (fun _ => ret tt) ;;
  try_except (ask_ (Press "Escape")) (fun _ => ret tt) ;;
  opened <- try_except (human_click button ;; ret true)
              (fun _ =>
                 try_except (ask_ (ClickForce button) ;; ret true)
                   (fun _ => ret false)) ;;
  if opened : bool then
    sleep_uniform 400 800 ;;
    try_except (ask_ (WaitForSelector LISTBOX_OR_OPTION)) (fun _ => ret tt) ;;
    ret true
  else ret false.

(** The loop over [option_texts]: [Some b] when the function returns
    [b], [None] when no text is found.  The locator [option] is counted
    three times, and replaced after the first and the second count. *)
Fixpoint pick_option (has_listbox : bool) (option_texts : list pystr)
  : B (option bool) :=
  match option_texts with
  | [] => ret None
  | text :: rest =>
      let option := OPTION_WITH has_listbox text in
      n <- count option ;;
      let option := if (n =? 0)%Z then PAGE_OPTION_WITH text else option in
      n <- count option ;;
      let option := if (n =? 0)%Z && negb has_listbox
                    then BUTTON_WITH text else option in
      n <- count option ;;
      if (0 <? n)%Z then
        try_except (human_click option ;; ret (Some true))
          (fun _ =>
             try_except (ask_ (Click option) ;; ret (Some true))
               (fun _ => ret (Some false)))
      else pick_option has_listbox rest
  end.

Fixpoint press_down (n : nat) : B unit :=
  match n with
  | O => ret tt
  | S k => ask_ (Press "ArrowDown") ;; press_down k
  end.

(** The [for attempt in range(3)] loop.  [fallback_index] is never
    [None] in the calls of the flow. *)
Fixpoint dropdown_attempts (attempts : nat) (button : target)
    (option_texts : list pystr) (fallback_index : Z) : B bool :=
  match attempts with
  | O => ret false
  | S rest =>
      opened <- open_dropdown button ;;
      if negb opened then ret false
      else
        n <- count LISTBOX ;;
        let has_listbox := (0 <? n)%Z in
        option_count <- try_except (count (OPTIONS has_listbox))
                          (fun _ => ret 0%Z) ;;
        if (100 <? option_count)%Z then
          close_open_listbox ;;
          dropdown_attempts rest button option_texts fallback_index
        else
          picked <- pick_option has_listbox option_texts ;;
          match picked with
          | Some b => ret b
          | None =>
              try_except
                (ask_ (Focus button) ;;
                 try_except (ask_ (Press "Enter")) (fun _ => ret tt) ;;
                 press_down (Z.to_nat fallback_index) ;;
                 ask_ (Press "Enter") ;;
                 ret true)
                (fun _ => ret false)
          end
  end.

(** [select_dropdown_option(page, button_selector, option_texts,
    fallback_index)] *)
Definition select_dropdown_option (button : target)
    (option_texts : list pystr) (fallback_index : Z) : B bool :=
  n <- count button ;;
  if (n =? 0)%Z then ret false
  else dropdown_attempts 3 button option_texts fallback_index.

(** ** [generate_credentials] and [save_to_excel] *)

(** [generate_credentials()] *)
Definition generate_credentials : B account :=
  first <- draw (Faker "first_name") ;;
  last <- draw (Faker "last_name") ;;
  n <- randint 1000 99999 ;;
  let username := lower (words first) ++ lower (words last) ++ str_of_Z n in
  pw <- draw (Faker "password") ;;
  day <- randint 1 28 ;;
  month <- randint 1 12 ;;
  year <- randint 1980 2005 ;;
  ret {| acc_first_name := words first; acc_last_name := words last;
         username_only := username;
         acc_email := username ++ U "@outlook.com";
         acc_password := words pw;
         birth_day := day; birth_month := month; birth_year := year |}.

Definition enter_save : B unit :=
  fun s =>
    (Ok tt,
     {| outside := outside s; calls := calls s; clock := clock s;
        excel := excel s; saves := S (saves s) |}).

Definition file_rows : B (option (list account)) :=
  fun s => (Ok (excel s), s).

Definition write_rows (rows : list account) : B unit :=
  fun s =>
    (Ok tt,
     {| outside := outside s; calls := calls s; clock := clock s;
        excel := Some rows; saves := saves s |}).

(** [save_to_excel(account_data)]: the rows of the file, if there is
    one, then the new row, are written to the file. *)
Definition save_to_excel (account_data : account) : B bool :=
  enter_save ;;
  try_except
    (file <- file_rows ;;
     df <- match file with
           | Some rows => ask_ ReadExcel ;; ret (rows ++ [account_data])
           | None => ret [account_data]
           end ;;
     ask_ ToExcel ;;
     write_rows df ;;
     ret true)
    (fun _ => ret false).

(** ** [run_registration_flow] *)

(** The tuple [(success, message, account)] that the flow returns. *)
Definition result := (bool * pystr * account)%type.

Definition failure (message : string) (a : account) : result :=
  (false, U message, a).

(** A group of statements that may return from the flow ([Some result])
    or lets it go on ([None]), followed by the rest of the flow. *)
Definition unless_returned (m k : B (option result)) : B (option result) :=
  r <- m ;;
  match r with
  | Some out => ret (Some out)
  | None => k
  end.

Notation "'check' m ;; k" := (unless_returned m k)
  (at level 61, m at next level, right associativity) : flow_scope.

Definition go_on : B (option result) := ret None.

Definition human_message : string :=
  "Human verification detected. Please complete it in the browser and try again.".

(** [ok, msg, _ = await settle_interstitials(...)] with its test of [ok]. *)
Definition settle (a : account) : B (option result) :=
  ok <- settle_interstitials ;;
  if negb ok then ret (Some (false, [], a)) else go_on.

(** The test of the human-verification frame that follows. *)
Definition human_check (a : account) : B (option result) :=
  n <- count HUMAN_IFRAME_SEL ;;
  if (0 <? n)%Z then
    passed <- wait_for_human_verification 600000 ;;
    if negb passed then
      save_debug_info "error_human_check" ;;
      ret (Some (failure human_message a))
    else go_on
  else go_on.

(** The email page, up to the visible input. *)
Definition find_email_input (a : account) : B (option result) :=
  n <- count PIPL_FORM ;;
  pipl <- (if (0 <? n)%Z then is_visible PIPL_FORM else ret false) ;;
  if pipl : bool then
    save_debug_info "error_pipl_consent" ;;
    ret (Some (failure
      "PIPL consent required. Please click '同意并继续' in the opened browser window."
      a))
  else
    try_except
      (n <- count CREATE_LINK ;;
       visible <- (if (0 <? n)%Z then is_visible CREATE_LINK else ret false) ;;
       if visible : bool then
         human_click CREATE_LINK ;; ask_ WaitForLoadState
       else ret tt)
      (fun _ => ret tt) ;;
    n <- count SWITCH_TO_EMAIL ;;
    visible <- (if (0 <? n)%Z then is_visible SWITCH_TO_EMAIL
                else ret false) ;;
    (if visible : bool then
       human_click SWITCH_TO_EMAIL ;; sleep_uniform 1000 2000
     else ret tt) ;;
    try_except
      (ask_ (WaitForSelector EMAIL_INPUT) ;; go_on)
      (fun _ =>
         n <- count HUMAN_IFRAME_SEL ;;
         if (0 <? n)%Z then
           save_debug_info "error_human_check" ;;
           ret (Some (failure
             "Human verification detected. Please complete the CAPTCHA in the opened browser window and try again."
             a))
         else
           save_debug_info "error_email_input" ;;
           ret (Some (failure
             "Email input not found. The sign-up flow may have changed or is blocked."
             a))).

Definition taken (message : pystr) : bool :=
  str_in (U "已被使用") message || str_in (U "taken") message
  || str_in (U "exists") message.

(** Filling the address, and the validation message that may follow. *)
Definition fill_email (a : account) : B (option result) :=
  r <- ask (GetAttribute EMAIL_INPUT) ;;
  let input_type := lower (words r) in
  use_full_email <-
    (if str_eqb input_type (U "email") then ret true
     else n <- count DOMAIN_PICKER ;; ret (n =? 0)%Z) ;;
  let email_value :=
    if use_full_email : bool then acc_email a else username_only a in
  human_type EMAIL_INPUT email_value ;;
  sleep_uniform 800 1500 ;;
  n <- count NEXT_BUTTON_SEL ;;
  visible <- (if (0 <? n)%Z then is_visible NEXT_BUTTON_SEL else ret false) ;;
  (if visible : bool then human_click NEXT_BUTTON_SEL
   else ask_ (Press "Enter")) ;;
  sleep 2000 ;;
  n <- count VALIDATION ;;
  if (0 <? n)%Z then
    message <- try_except
                 (r <- ask (InnerText VALIDATION) ;; ret (strip (words r)))
                 (fun _ => ret []) ;;
    match message with
    | [] => go_on
    | _ =>
        if str_in (U "someone@example.com") message
           || str_in (U "电子邮件地址") message
           || str_in (U "email address") message
        then
          ask_ (Click EMAIL_INPUT) ;;
          ask_ (Press "Control+A") ;;
          _ <- randint 50 150 ;;
          ask_ (TypeText (acc_email a)) ;;
          sleep_uniform 500 1000 ;;
          _ <- click_next ;;
          sleep 2000 ;;
          n <- count VALIDATION ;;
          if (0 <? n)%Z then
            r <- ask (InnerText VALIDATION) ;;
            if taken (strip (words r))
            then ret (Some (failure "Email already taken." a))
            else go_on
          else go_on
        else if taken message
        then ret (Some (failure "Username already taken." a))
        else go_on
    end
  else go_on.

(** The choice of the month or of the day: the native list when there
    is one, the custom list otherwise, and the wait for a manual choice
    when that fails. *)
Definition choose_birth (native dropdown dropdown_id : target) (value : Z)
    (suffix : string) (debug_name message : string) (a : account)
  : B (option result) :=
  n <- count native ;;
  if (0 <? n)%Z then ask_ (SelectOption native value) ;; go_on
  else
    let text := str_of_Z value in
    let texts := [text ++ U suffix; text ++ U " " ++ U suffix; text] in
    close_open_listbox ;;
    ok <- select_dropdown_option dropdown texts value ;;
    selected <- (if ok : bool then combobox_has_value dropdown_id
                 else ret false) ;;
    if negb selected then
      save_debug_info debug_name ;;
      try_except
        (ask_ (WaitForFunction dropdown_id) ;; go_on)
        (fun _ => ret (Some (failure message a)))
    else go_on.

Definition blocked (content : pystr) : bool :=
  str_in (U "blocked") (lower content)
  || str_in (U "unusual activity") (lower content).

(** The statements of the [try] block that come before [save_to_excel]:
    [Some result] when one of them returns. *)
Definition before_save (a : account) : B (option result) :=
  ask_ Goto ;;
  ask_ WaitForLoadState ;;
  random_mouse_noise ;;
  check settle a ;;
  check human_check a ;;
  check settle a ;;
  check human_check a ;;
  check find_email_input a ;;
  check fill_email a ;;
  check settle a ;;
  ask_ (WaitForSelector PASSWORD_INPUT) ;;
  human_type PASSWORD_INPUT (acc_password a) ;;
  sleep_uniform 500 1200 ;;
  ask_ (Press "Enter") ;;
  check settle a ;;
  check human_check a ;;
  ask_ (WaitForSelector FIRST_NAME_INPUT) ;;
  human_type FIRST_NAME_INPUT (acc_first_name a) ;;
  human_type LAST_NAME_INPUT (acc_last_name a) ;;
  sleep_uniform 500 1000 ;;
  _ <- click_next ;;
  check settle a ;;
  check human_check a ;;
  close_open_listbox ;;
  ask_ (WaitForSelector YEAR_INPUT) ;;
  human_type YEAR_INPUT (str_of_Z (birth_year a)) ;;
  close_open_listbox ;;
  check choose_birth MONTH_SELECT MONTH_DROPDOWN MONTH_DROPDOWN_ID
          (birth_month a) "月" "error_birth_month"
          "Birth month selection failed. Please select month/day manually in the browser and try again."
          a ;;
  check choose_birth DAY_SELECT DAY_DROPDOWN DAY_DROPDOWN_ID
          (birth_day a) "日" "error_birth_day"
          "Birth day selection failed. Please select month/day manually in the browser and try again."
          a ;;
  sleep_uniform 500 1500 ;;
  _ <- click_next ;;
  check settle a ;;
  _ <- accept_consent_with_retry 30000 ;;
  n <- count CONSENT_NEXT_BUTTON ;;
  (if (0 <? n)%Z then _ <- wait_for_and_accept_consent 30000 ;; ret tt
   else ret tt) ;;
  wait_for_timeout 1000 ;;
  check human_check a ;;
  sleep 3000 ;;
  page <- ask Content ;;
  if blocked (words page) then
    save_debug_info "error_account_blocked" ;;
    ret (Some (failure "Account creation blocked by security." a))
  else go_on.

Definition timeout_message : string := "Timed out waiting for completion.".

(** The [try] block of the flow. *)
Definition flow_body (a : account) : B result :=
  r <- before_save a ;;
  match r with
  | Some out => ret out
  | None =>
      _ <- save_to_excel a ;;
      try_except
        (ask_ WaitForUrl ;; ret (true, U "Registration successful!", a))
        (fun _ => ret (failure timeout_message a))
  end.

(** [run_registration_flow()], inside the lock. *)
Definition run_registration_flow : B result :=
  a <- generate_credentials ;;
  ask_ Launch ;;
  ask_ NewContext ;;
  ask_ AddInitScript ;;
  ask_ NewPage ;;
  try_finally
    (try_except (flow_body a)
       (fun e =>
          save_debug_info "error_flow" ;;
          ret (false, U "Flow error: " ++ str_exn e, a)))
    (ask_ Close).

(** ** What a computation does to the Excel file *)

(** [keeps m P]: [m] does not enter [save_to_excel] and leaves the file
    as it is; the value it returns satisfies [P]. *)
Definition keeps {A} (m : B A) (P : A -> Prop) : Prop :=
  forall s,
    saves (snd (m s)) = saves s
    /\ excel (snd (m s)) = excel s
    /\ match fst (m s) with
       | Ok a => P a
       | _ => True
       end.

Definition quiet {A} (m : B A) : Prop := keeps m (fun _ => True).

(** A result returned before [save_to_excel]: a failure, with a message
    other than the one of the final wait. *)
Definition early (out : result) : Prop :=
  fst (fst out) = false /\ snd (fst out) <> U timeout_message.

Definition early_or_on (r : option result) : Prop :=
  match r with
  | Some out => early out
  | None => True
  end.

Definition flows (m : B (option result)) : Prop := keeps m early_or_on.

Definition rows_of (s : state) : list account :=
  match excel s with
  | Some rows => rows
  | None => []
  end.

(** What a run that goes from [s] to [s'] with the result [r] does to
    the file: [save_to_excel] is entered at most once; exactly once when
    the run succeeds, and then the file is as before (the save failed)
    or has the record of the run as its new last row; not at all when
    the run fails with a message other than the one of the final wait,
    and then the file is as before; once when the run fails at the final
    wait. *)
Definition saved_by_outcome (s s' : state) (r : res result) : Prop :=
  (saves s' = saves s \/ saves s' = S (saves s))
  /\ match r with
     | Ok (true, _, a) =>
         saves s' = S (saves s)
         /\ (excel s' = excel s \/ excel s' = Some (rows_of s ++ [a]))
     | Ok (false, message, _) =>
         (message <> U timeout_message ->
          saves s' = saves s /\ excel s' = excel s)
         /\ (message = U timeout_message -> saves s' = S (saves s))
     | _ => True
     end.

(** The same for a part of the run, which moreover leaves the file
    alone when it raises. *)
Definition saved_by_part (s s' : state) (r : res result) : Prop :=
  saved_by_outcome s s' r
  /\ match r with
     | Raise _ => saves s' = saves s /\ excel s' = excel s
     | _ => True
     end.

End Register.

(* ================================================================== *)
(** * The lock around [run_registration_flow] *)
(* ================================================================== *)

(** The handler starts one task per command ([asyncio.create_task]); each
    task runs [run_registration_flow], whose whole body stands inside
    [async with registration_lock].  The tasks share one event loop: a
    task runs until it awaits, so that the steps below are atomic.  The
    lock is [asyncio.Lock], modelled after CPython: a flag [locked] and
    the queue [waiters] of the tasks suspended in [acquire]. *)
Module Serializer.

(** Where a task stands. *)
Inductive phase :=
| Absent                      (* no such request yet *)
| Requested                   (* the task is created and has not run *)
| Waiting                     (* suspended in [acquire], in the queue *)
| Woken                       (* its turn has come, it has not run yet *)
| Running                     (* inside the lock: the browser run *)
| Finished (r : res Register.result).  (* the lock is released *)

Record system := {
  locked : bool;
  waiters : list nat;
  phase_of : nat -> phase;
  answers : nat -> nat -> Register.call -> Register.reply;
  excel : option (list Register.account);
  saves : nat
}.

Definition set_phase (t : nat) (p : phase) (f : nat -> phase)
  : nat -> phase :=
  fun u => if Nat.eqb u t then p else f u.

(** [deque.remove]: the first occurrence goes. *)
Fixpoint remove_first (t : nat) (l : list nat) : list nat :=
  match l with
  | [] => []
  | u :: l' => if Nat.eqb u t then l' else u :: remove_first t l'
  end.

(** [_wake_up_first()]: the future of the first waiter is set. *)
Definition wake_up_first (waiters : list nat) (f : nat -> phase)
  : nat -> phase :=
  match waiters with
  | [] => f
  | w :: _ =>
      match f w with
      | Waiting => set_phase w Woken f
      | _ => f
      end
  end.

(** What happens on the event loop. *)
Inductive event :=
| Arrive (t : nat)    (* a command arrives: [create_task] *)
| Start (t : nat)     (* the task runs up to the end of [acquire] or to
                         its suspension in it *)
| Resume (t : nat)    (* the woken task leaves [acquire] with the lock *)
| Finish (t : nat).   (* the run ends, normally or by an exception, and
                         [async with] releases the lock *)

(** The run of task [t], from the file as it is now. *)
Definition run_of (s : system) (t : nat)
  : res Register.result * Register.state :=
  Register.run_registration_flow
    {| Register.outside := answers s t; Register.calls := [];
       Register.clock := 0; Register.excel := excel s;
       Register.saves := saves s |}.

Definition exec (e : event) (s : system) : option system :=
  match e with
  | Arrive t =>
      match phase_of s t with
      | Absent =>
          Some {| locked := locked s; waiters := waiters s;
                  phase_of := set_phase t Requested (phase_of s);
                  answers := answers s; excel := excel s;
                  saves := saves s |}
      | _ => None
      end
  | Start t =>
      match phase_of s t with
      | Requested =>
          (* [acquire]: free and nobody waiting, the task takes the
             lock; otherwise it joins the queue and suspends *)
          if negb (locked s) && match waiters s with [] => true | _ => false end
          then Some {| locked := true; waiters := waiters s;
                       phase_of := set_phase t Running (phase_of s);
                       answers := answers s; excel := excel s;
                       saves := saves s |}
          else Some {| locked := locked s; waiters := waiters s ++ [t];
                       phase_of := set_phase t Waiting (phase_of s);
                       answers := answers s; excel := excel s;
                       saves := saves s |}
      | _ => None
      end
  | Resume t =>
      match phase_of s t with
      | Woken =>
          Some {| locked := true; waiters := remove_first t (waiters s);
                  phase_of := set_phase t Running (phase_of s);
                  answers := answers s; excel := excel s;
                  saves := saves s |}
      | _ => None
      end
  | Finish t =>
      match phase_of s t with
      | Running =>
          match run_of s t with
          | (Diverge, _) => None
          | (r, s') =>
              (* [release]: the flag is cleared, the first waiter woken *)
              Some {| locked := false; waiters := waiters s;
                      phase_of :=
                        wake_up_first (waiters s)
                          (set_phase t (Finished r) (phase_of s));
                      answers := answers s;
                      excel := Register.excel s';
                      saves := Register.saves s' |}
          end
      | _ => None
      end
  end.

Fixpoint run (events : list event) (s : system) : option system :=
  match events with
  | [] => Some s
  | e :: rest =>
      match exec e s with
      | Some s' => run rest s'
      | None => None
      end
  end.

(** The process at its start: the lock free, no request. *)
Definition initial
    (answers : nat -> nat -> Register.call -> Register.reply) : system :=
  {| locked := false; waiters := []; phase_of := fun _ => Absent;
     answers := answers; excel := None; saves := 0 |}.

Definition active (s : system) (t : nat) : Prop := phase_of s t = Running.

Definition queued (s : system) (t : nat) : Prop :=
  In t (waiters s) /\ (phase_of s t = Waiting \/ phase_of s t = Woken).

(** What holds of the lock at every moment. *)
Record consistent (s : system) : Prop := {
  running_locked : forall t, phase_of s t = Running -> locked s = true;
  running_alone :
    forall t u, phase_of s t = Running -> phase_of s u = Running -> t = u;
  woken_first :
    forall t, phase_of s t = Woken ->
              locked s = false /\ hd_error (waiters s) = Some t;
  waiters_wait :
    forall t, In t (waiters s) ->
              phase_of s t = Waiting \/ phase_of s t = Woken;
  waiters_once : NoDup (waiters s)
}.

End Serializer.

(* ================================================================== *)
(** * The claims in the words of the specification *)
(* ================================================================== *)

(** The reading of the pattern in words: somewhere in the URL stands the
    key [verificationId=], letter case ignored as [re.IGNORECASE] does,
    followed by a hexadecimal digit. *)
Fixpoint after_key (key s : pystr) : option pystr :=
  match key, s with
  | [], _ => Some s
  | l :: key', c :: s' => if lit_ci l c then after_key key' s' else None
  | _ :: _, [] => None
  end.

Definition id_at (s : pystr) : bool :=
  match after_key verification_id_key s with
  | Some (h :: _) => hex_ci h
  | _ => false
  end.

Fixpoint has_verification_id (url : pystr) : bool :=
  id_at url ||
  match url with
  | [] => false
  | _ :: url' => has_verification_id url'
  end.

(** The value reached under a key of an outcome. *)
Definition outcome_field (outcome : pyval) (k : string) : pyval :=
  field outcome (U k).

(** A tagged outcome: a dictionary with a Boolean under [success] and a
    text under [message]. *)
Definition is_outcome (v : pyval) : Prop :=
  (exists items, v = PDict items)
  /\ (exists b, outcome_field v "success" = PBool b)
  /\ (exists m, outcome_field v "message" = PStr m).

(** [matches r u]: the pattern [r] matches the text [u] as a whole (the
    language of the pattern; [$] is left out, it looks beyond the
    match). *)
Fixpoint matches (r : regex) (u : pystr) : Prop :=
  match r with
  | [] => u = []
  | Chr p One :: r' =>
      exists c rest, u = c :: rest /\ p c = true /\ matches r' rest
  | Chr p Opt :: r' =>
      matches r' u
      \/ exists c rest, u = c :: rest /\ p c = true /\ matches r' rest
  | Chr p Star :: r' =>
      exists run rest,
        u = run ++ rest /\ forallb p run = true /\ matches r' rest
  | Chr p Plus :: r' =>
      exists c run rest,
        u = c :: run ++ rest /\ p c = true /\ forallb p run = true
        /\ matches r' rest
  | Eos :: _ => False
  end.

(** The markers that [click_verification_link] looks for in the page,
    letter case ignored. *)
Definition has_marker (markers : list string) (page : pystr) : bool :=
  existsb (fun m => str_in (U m) (lower page)) markers.

Definition positive_marker : pystr -> bool :=
  has_marker ["success"; "verified"; "confirmed"]%string.

Definition negative_marker : pystr -> bool :=
  has_marker ["error"; "expired"]%string.

(** The flag [followed] that [click_verification_link] returns. *)
Definition followed (url : pystr) (w : world) : option bool :=
  match click_verification_link url w with
  | (Ok (flag, _), _) => Some flag
  | _ => None
  end.

(* ================================================================== *)
(** * Notions used in the proofs about the patterns *)
(* ================================================================== *)

Definition plain (r : regex) : Prop := Forall (fun a => a <> Eos) r.

(** What a continuation finds is a match of [r] at the start. *)
Definition sound_for (r : regex) (k : pystr -> option nat) : Prop :=
  forall s n, k s = Some n ->
    exists u t, s = u ++ t /\ List.length u = n /\ matches r u.

(** A continuation that, on a text made of characters of [P], only
    stops at the end of the text. *)
Definition to_the_end (P : N -> bool) (k : pystr -> option nat) : Prop :=
  forall s n, forallb P s = true -> k s = Some n -> n = List.length s.

(** The characters of a match, when every item of the pattern only
    takes characters of [P]. *)
Definition within (P : N -> bool) (a : atom) : Prop :=
  match a with
  | Chr p _ => forall c, p c = true -> P c = true
  | Eos => True
  end.

Definition amp : pystr := [38; 97; 109; 112; 59]%N.

Definition unescape (s : pystr) : pystr := replace amp [38%N] s.

(** The text [Z] does not go on an [&amp;] begun before it. *)
Definition clear_head (Z : pystr) : Prop :=
  match Z with
  | [] => True
  | z :: _ => z <> 97%N /\ z <> 109%N /\ z <> 112%N /\ z <> 59%N
  end.

(** Patterns that the replacement of [&amp;] cannot break: single
    characters that are no [&], and runs of characters of a set that
    holds [&], each followed by nothing or by a character that does not
    go on an [&amp;]. *)
Definition starts_clear (r : regex) : Prop :=
  match r with
  | [] => True
  | Chr q One :: _ =>
      forall c, q c = true ->
                c <> 97%N /\ c <> 109%N /\ c <> 112%N /\ c <> 59%N
  | _ => False
  end.

Fixpoint amp_safe (r : regex) : Prop :=
  match r with
  | [] => True
  | Chr p One :: r' | Chr p Opt :: r' =>
      (forall c, p c = true -> c <> 38%N) /\ amp_safe r'
  | Chr p Star :: r' =>
      p 38%N = true /\ starts_clear r' /\ amp_safe r'
  | _ => False
  end.

(** A code point that the lower-casing leaves alone and that is no
    variant of [i] or [s]. *)
Definition ordinary (x : N) : bool :=
  (sre_lower x =? x)%N && negb (x =? 0x131)%N && negb (x =? 0x17F)%N.

(* ================================================================== *)
(** * Concrete runs *)
(* ================================================================== *)

(** A verifier that is given every argument and holds no mailbox. *)
Definition plain_verifier : SheerIDVerifier :=
  {| verification_id := U "abc123ef"; use_temp_email := false;
     temp_email_service := false |}.

Definition full_args : verify_args :=
  {| arg_first_name := Some (U "John"); arg_last_name := Some (U "Doe");
     arg_email := Some (U "john.doe@example.com");
     arg_birth_date := Some (U "1980-02-03");
     arg_organization_id := Some (U "4070");
     arg_discharge_date := Some (U "2024-05-06");
     arg_military_status := Some (U "VETERAN") |}.

Definition json_answer (status : Z) (data : pyval) : exchange :=
  Answer {| status_code := status; text := []; json := Some data |} 120.

Definition page_answer (status : Z) (body : string) : exchange :=
  Answer {| status_code := status; text := U body; json := None |} 120.

Definition world_of (v : SheerIDVerifier) (m : TempEmailService)
    (exchanges : list exchange) : world :=
  {| net := exchanges; sent := []; now := 1700000000000; rnd := [];
     verifier := v; mailbox := m |}.

Definition step1_answer : exchange :=
  json_answer 200
    (PDict [(U "currentStep", PStr (U "collectInactiveMilitaryPersonalInfo"))]).

(** A page that holds a negative and a positive marker. *)
Definition world_mixed_page : world :=
  world_of plain_verifier fresh_service
    [page_answer 200 "Error: this link could not be confirmed."].

Definition world_plain_page : world :=
  world_of plain_verifier fresh_service [page_answer 200 "Welcome back."].




(** A verifier that creates a mailbox, and arguments without address. *)
Definition mailbox_verifier : SheerIDVerifier :=
  {| verification_id := U "abc123ef"; use_temp_email := true;
     temp_email_service := false |}.

Definition args_without_email : verify_args :=
  {| arg_first_name := Some (U "John"); arg_last_name := Some (U "Doe");
     arg_email := None;
     arg_birth_date := Some (U "1980-02-03");
     arg_organization_id := Some (U "4070");
     arg_discharge_date := Some (U "2024-05-06");
     arg_military_status := Some (U "VETERAN") |}.

(** The exchanges that create the mailbox and lead to [emailLoop]. *)
Definition up_to_email_loop : list exchange :=
  [json_answer 200
     (PDict [(U "hydra:member",
              PList [PDict [(U "domain", PStr (U "mail.example"))]])]);
   json_answer 201 (PDict [(U "id", PStr (U "acc1"))]);
   json_answer 200 (PDict [(U "token", PStr (U "tok"))]);
   step1_answer;
   json_answer 200 (PDict [(U "currentStep", PStr (U "emailLoop"))])].

Definition empty_inbox : exchange :=
  json_answer 200 (PDict [(U "hydra:member", PList [])]).

(** Scenario B: the mailbox stays empty until the ceiling of 90 s. *)
Definition world_B : world :=
  world_of mailbox_verifier fresh_service
    (up_to_email_loop ++ repeat empty_inbox 18).

(** Scenario C: the mailbox holds the message, the link is followed and
    the status is then [pending]. *)
Definition world_C : world :=
  world_of mailbox_verifier fresh_service
    (up_to_email_loop ++
     [json_answer 200
        (PDict [(U "hydra:member",
                 PList [PDict [(U "id", PStr (U "m1"));
                               (U "from",
                                PDict [(U "address",
                                        PStr (U "Verify@SheerID.com"))]);
                               (U "subject",
                                PStr (U "Please confirm your email"))]])]);
      json_answer 200
        (PDict [(U "html",
                 PStr (U "<a href='https://services.sheerid.com/verify/abc123ef?emailToken=t1&amp;x=2'>Confirm</a>"));
                (U "text", PStr [])]);
      page_answer 200 "Your email has been verified.";
      json_answer 200 (PDict [(U "currentStep", PStr (U "pending"))])]).

(** A message whose body holds a generic link before the link to
    verify. *)
Definition two_links_body : pystr :=
  U "<a href='https://www.sheerid.com/help'>Help</a> <a href='https://services.sheerid.com/verify/abc?t=1&amp;u=2'>Verify</a>".

Definition two_links_message : pyval :=
  PDict [(U "html", PStr two_links_body); (U "text", PNone)].

(** Scenario A of the specification. *)
Definition world_A : world :=
  world_of plain_verifier fresh_service
    [step1_answer;
     json_answer 200
       (PDict [(U "currentStep", PStr (U "success"));
               (U "redirectUrl", PStr (U "https://x"));
               (U "rewardCode", PStr (U "R1"))])].

(** The outside that answers every call with nothing: no exception,
    the number 0, the flag false, an empty text, after 50 ms. *)
Definition quiet_reply : Register.reply :=
  {| Register.fails := None; Register.number := 0; Register.flag := false;
     Register.words := []; Register.took := 50 |}.

Definition quiet_outside : nat -> Register.call -> Register.reply :=
  fun _ _ => quiet_reply.

(** The same outside, but the final redirect is never seen: the wait for
    the URL raises. *)
Definition no_redirect_outside : nat -> Register.call -> Register.reply :=
  fun _ c =>
    match c with
    | Register.WaitForUrl =>
        {| Register.fails := Some (Exception (U "Timeout 300000ms exceeded."));
           Register.number := 0; Register.flag := false;
           Register.words := []; Register.took := 300000 |}
    | _ => quiet_reply
    end.

(** The same outside, but the page shows a blocked account. *)
Definition blocked_outside : nat -> Register.call -> Register.reply :=
  fun _ c =>
    match c with
    | Register.Content =>
        {| Register.fails := None; Register.number := 0;
           Register.flag := false;
           Register.words := U "Your account has been BLOCKED.";
           Register.took := 50 |}
    | _ => quiet_reply
    end.

Definition fresh_state (outside : nat -> Register.call -> Register.reply)
  : Register.state :=
  {| Register.outside := outside; Register.calls := []; Register.clock := 0;
     Register.excel := None; Register.saves := 0 |}.

(* ================================================================== *)
(** * Notions used in the further facts *)
(* ================================================================== *)

(** [returns m]: from every world [m] ends with a value: it neither
    raises nor runs on. *)
Definition returns {A} (m : M A) : Prop :=
  forall w, exists a w', m w = (Ok a, w').

(** [draws m]: [m] ends with a value and only consumes draws of the
    random generator: the network, the requests sent, the clock and the
    two objects are as before. *)
Definition draws {A} (m : M A) : Prop :=
  forall w, exists a w',
    m w = (Ok a, w') /\ net w' = net w /\ sent w' = sent w
    /\ now w' = now w /\ verifier w' = verifier w /\ mailbox w' = mailbox w.

(** A listed message that passes the test on the sender and the
    subject. *)
Definition related (msg : pyval) : bool :=
  match from_sheerid msg with
  | inr true => true
  | _ => false
  end.




(** ** [main] of [military/sheerid_verifier.py] *)

(** [d[k]] for a key that is a string. *)
Definition item (v : pyval) (k : pystr) : exn + pyval :=
  match v with
  | PDict d =>
      match lookup k d with
      | Some x => inr x
      | None => inl (KeyError (PStr k))
      end
  | PList _ =>
      inl (TypeError (U "list indices must be integers or slices, not str"))
  | PStr _ => inl (TypeError (U "string indices must be integers, not 'str'"))
  | _ => inl (TypeError (U "'" ++ type_name v
                         ++ U "' object is not subscriptable"))
  end.

(** [SheerIDVerifier(verification_id)]: the mailbox is asked for, the
    module of the mailbox service being there. *)
Definition new_verifier (verification_id : pystr) : SheerIDVerifier :=
  {| verification_id := verification_id; use_temp_email := true;
     temp_email_service := false |}.

(** [verify()] *)
Definition no_args : verify_args :=
  {| arg_first_name := None; arg_last_name := None; arg_email := None;
     arg_birth_date := None; arg_organization_id := None;
     arg_discharge_date := None; arg_military_status := None |}.

(** [main()], from the URL read from the command line or from the
    prompt on: the exit status of the process.  [sys.exit(1)] ends it
    with the status 1; what is printed is left out, the values printed
    are read as the source reads them. *)
Definition main (url : pystr) : M Z :=
  match url with
  | [] => ret 1%Z
  | _ =>
      match parse_verification_id url with
      | Some (c :: id) =>
          set_verifier (fun _ => new_verifier (c :: id)) ;;
          result <- verify no_args ;;
          _ <- lift (item result (U "success")) ;;
          _ <- lift (item result (U "message")) ;;
          redirect_url <- lift (get result (U "redirect_url")) ;;
          _ <- (if truthy redirect_url
                then lift (item result (U "redirect_url"))
                else ret PNone) ;;
          reward_code <- lift (get result (U "reward_code")) ;;
          _ <- (if truthy reward_code
                then lift (item result (U "reward_code"))
                else ret PNone) ;;
          success <- lift (item result (U "success")) ;;
          ret (if truthy success then 0%Z else 1%Z)
      | _ => ret 1%Z
      end
  end.

(** The shape [YYYY-MM-DD] of a date. *)
Definition is_digit (c : N) : bool := ((48 <=? c) && (c <=? 57))%N.

Definition date_shape (d : pystr) : bool :=
  match d with
  | [y1; y2; y3; y4; s1; m1; m2; s2; d1; d2] =>
      forallb is_digit [y1; y2; y3; y4; m1; m2; d1; d2]
      && (s1 =? 45)%N && (s2 =? 45)%N
  | _ => false
  end.

(** ** Notions about the registration flow *)

Module RegisterNotions.
Import Register.

(** The calls that a page of the browser, the file system and the
    generators take: every call but those that set the browser up and
    close it. *)
Definition inside (c : call) : bool :=
  match c with
  | Launch | NewContext | AddInitScript | NewPage | Close => false
  | _ => true
  end.

(** [tame m P]: [m] adds to the log only calls of that kind, leaves the
    answers of the outside as they are, and returns a value that
    satisfies [P]. *)
Definition tame {A} (m : B A) (P : A -> Prop) : Prop :=
  forall s,
    (exists mid, calls (snd (m s)) = calls s ++ mid
                 /\ forallb inside mid = true)
    /\ outside (snd (m s)) = outside s
    /\ match fst (m s) with
       | Ok a => P a
       | _ => True
       end.

Definition calm {A} (m : B A) : Prop := tame m (fun _ => True).

(** A result that carries the account [a]. *)
Definition carries (a : account) (out : result) : Prop := snd out = a.

Definition carries_or_on (a : account) (r : option result) : Prop :=
  match r with
  | Some out => carries a out
  | None => True
  end.

(** The statements of the flow that come before its [try]: the
    credentials, the browser, its context and the page. *)
Definition open_page : B account :=
  a <- generate_credentials ;;
  ask_ Launch ;;
  ask_ NewContext ;;
  ask_ AddInitScript ;;
  ask_ NewPage ;;
  ret a.

(** The calls of [TypeText] in a log, in their order. *)
Fixpoint typed (log : list call) : pystr :=
  match log with
  | [] => []
  | TypeText chars :: rest => chars ++ typed rest
  | _ :: rest => typed rest
  end.

(** The calls that typing a text makes: a key, and the draws of the
    pauses between the keys. *)
Definition keystroke (c : call) : bool :=
  match c with
  | Random | TypeText [_] => true
  | _ => false
  end.

(** What a run that starts with the file of [s] may leave as the file:
    the same file, or its rows followed by the account [a]. *)
Definition file_after (a : account) (s s' : state) : Prop :=
  excel s' = excel s \/ excel s' = Some (rows_of s ++ [a]).

(** The same with the count of the saves: nothing was saved and the
    file is the same, or [save_to_excel] was entered once. *)
Definition saved_once (a : account) (s s' : state) : Prop :=
  (saves s' = saves s /\ excel s' = excel s)
  \/ (saves s' = S (saves s) /\ file_after a s s').

(** The [try] of the flow with its [except] and its [finally]. *)
Definition guarded_flow (a : account) : B result :=
  try_finally
    (try_except (flow_body a)
       (fun e =>
          save_debug_info "error_flow" ;;
          ret (false, U "Flow error: " ++ str_exn e, a)))
    (ask_ Close).

End RegisterNotions.

(** ** Notions about the tasks that share the lock *)

Module SerializerNotions.
Import Serializer.

(** What holds of the wake-ups at every moment: a lock that is held is
    held by a run, and when the lock is free the task at the head of the
    queue has been woken. *)
Record served (s : system) : Prop := {
  locked_running : locked s = true -> exists t, phase_of s t = Running;
  free_woken :
    locked s = false ->
    forall t, hd_error (waiters s) = Some t -> phase_of s t = Woken
}.



End SerializerNotions.

(** ** [run_and_notify] of [handlers/email_commands.py] *)

(** The escape that the handler applies to the address, the password
    and the message before it sends them as Markdown: a backslash is put
    before every underscore, then before every asterisk, then before
    every backquote. *)
Definition escape_markdown (s : pystr) : pystr :=
  replace (U "`") (U "\`")
    (replace (U "*") (U "\*") (replace (U "_") (U "\_") s)).

(** The three characters that the escape looks for. *)
Definition markdown_special (c : N) : bool :=
  ((c =? 95) || (c =? 42) || (c =? 96))%N.

(** One character, escaped. *)
Definition escaped_char (c : N) : pystr :=
  if markdown_special c then [92%N; c] else [c].

(** ** Further concrete runs *)

(** An outside whose page shows the frame of the human verification for
    ever. *)
Definition frame_outside : nat -> Register.call -> Register.reply :=
  fun _ c =>
    match c with
    | Register.Count Register.HUMAN_IFRAME_SEL =>
        {| Register.fails := None; Register.number := 1;
           Register.flag := false; Register.words := [];
           Register.took := 50 |}
    | Register.IsVisible Register.HUMAN_IFRAME_SEL =>
        {| Register.fails := None; Register.number := 0;
           Register.flag := true; Register.words := [];
           Register.took := 50 |}
    | _ => quiet_reply
    end.

(** Step 2 refused with HTTP 429. *)
Definition world_step2_refused : world :=
  world_of plain_verifier fresh_service
    [step1_answer;
     json_answer 429 (PDict [(U "message", PStr (U "Too many requests"))])].

(* ================================================================== *)
(** * Facts about the embedding *)
(* ================================================================== *)

Unset Implicit Arguments.

(** ** Strings *)

Lemma str_eqb_spec (a b : pystr) : str_eqb a b = true <-> a = b.
Proof.
  revert b; induction a as [|x a IH]; intros [|y b]; simpl;
    try (split; [discriminate | discriminate]); try tauto.
  unfold cp_eqb; rewrite andb_true_iff, N.eqb_eq, IH.
  split; [intros [-> ->]; reflexivity | intros E; injection E; auto].
Qed.

Lemma str_eqb_refl (a : pystr) : str_eqb a a = true.
Proof. apply str_eqb_spec; reflexivity. Qed.

(** ** Computations that return *)

Lemma sat_weaken {A} (m : M A) (P Q : A -> Prop) :
  sat m P -> (forall a, P a -> Q a) -> sat m Q.
Proof.
  intros H HPQ w; specialize (H w).
  destruct (m w) as [[a|e|] w1]; intuition.
Qed.

Lemma sat_ret {A} (a : A) (P : A -> Prop) : P a -> sat (ret a) P.
Proof. intros H w; simpl; split; [assumption | lia]. Qed.

Lemma sat_raise {A} (e : exn) (P : A -> Prop) : sat (raise e) P.
Proof. intros w; simpl; lia. Qed.

Lemma sat_lift {A} (r : exn + A) (P : A -> Prop) :
  (forall a, r = inr a -> P a) -> sat (lift r) P.
Proof.
  intros H; destruct r; [apply sat_raise | apply sat_ret; auto].
Qed.

Lemma sat_bind {A B} (m : M A) (f : A -> M B) (P : A -> Prop)
    (Q : B -> Prop) :
  sat m P -> (forall a, P a -> sat (f a) Q) -> sat (bind m f) Q.
Proof.
  intros Hm Hf w; unfold bind; specialize (Hm w).
  destruct (m w) as [[a|e|] w1]; try assumption.
  destruct Hm as [Pa Hle]; specialize (Hf a Pa w1).
  destruct (f a w1) as [[b|e|] w2]; try assumption; intuition lia.
Qed.

Lemma sat_try {A} (m : M A) (h : exn -> M A) (Q : A -> Prop) :
  sat m Q -> (forall e, sat (h e) Q) -> sat (try_except m h) Q.
Proof.
  intros Hm Hh w; unfold try_except; specialize (Hm w).
  destruct (m w) as [[a|e|] w1]; try assumption.
  specialize (Hh e w1); destruct (h e w1) as [[b|e'|] w2];
    try assumption; intuition lia.
Qed.

Lemma steady_ret {A} (a : A) : steady (ret a).
Proof. apply sat_ret; exact I. Qed.

Lemma steady_raise {A} (e : exn) : steady (@raise A e).
Proof. apply sat_raise. Qed.

Lemma steady_lift {A} (r : exn + A) : steady (lift r).
Proof. apply sat_lift; auto. Qed.

Lemma steady_bind {A B} (m : M A) (f : A -> M B) :
  steady m -> (forall a, steady (f a)) -> steady (bind m f).
Proof. intros Hm Hf; eapply sat_bind; [exact Hm | intros a _; apply Hf]. Qed.

Lemma steady_try {A} (m : M A) (h : exn -> M A) :
  steady m -> (forall e, steady (h e)) -> steady (try_except m h).
Proof. apply sat_try. Qed.

Lemma steady_time : steady time_time.
Proof. intros w; simpl; split; [exact I | lia]. Qed.

Lemma steady_sleep (secs : Z) : steady (sleep secs).
Proof.
  intros w; unfold sleep; destruct (Z.ltb_spec secs 0); simpl;
    [lia | split; [exact I | lia]].
Qed.

Lemma steady_http (req : request) : steady (http req).
Proof.
  intros w; unfold http; destruct (net w) as [|[r t|e t] rest]; simpl;
    try split; try exact I; lia.
Qed.

Lemma steady_self_mailbox : steady self_mailbox.
Proof. intros w; simpl; split; [exact I | lia]. Qed.

Lemma steady_set_mailbox f : steady (set_mailbox f).
Proof. intros w; simpl; split; [exact I | lia]. Qed.

Lemma steady_self_verifier : steady self_verifier.
Proof. intros w; simpl; split; [exact I | lia]. Qed.

Lemma steady_set_verifier f : steady (set_verifier f).
Proof. intros w; simpl; split; [exact I | lia]. Qed.

Lemma steady_randbelow (n : N) : steady (randbelow n).
Proof.
  intros w; unfold randbelow; destruct (rnd w); simpl;
    (split; [exact I | lia]).
Qed.

Lemma steady_randint (a b : Z) : steady (randint a b).
Proof.
  apply steady_bind; [apply steady_randbelow | intros; apply steady_ret].
Qed.

Lemma steady_choice {A} (d : A) (l : list A) : steady (choice d l).
Proof.
  apply steady_bind; [apply steady_randbelow | intros; apply steady_ret].
Qed.

Create HintDb steady.

#[export] Hint Resolve steady_ret steady_raise steady_lift steady_time
  steady_sleep steady_http steady_self_mailbox steady_set_mailbox
  steady_self_verifier steady_set_verifier steady_randbelow steady_randint
  steady_choice : steady.

(** Steps through a computation built from [bind], [try_except] and
    conditionals whose parts are all steady. *)
Ltac steady_step :=
  match goal with
  | |- steady (bind _ _) => apply steady_bind; [| intros ?]
  | |- steady (try_except _ _) => apply steady_try; [| intros ?]
  | |- steady (if ?b then _ else _) => destruct b
  | |- steady (match ?x with _ => _ end) => destruct x
  | |- steady _ => solve [auto with steady]
  end.


(* ================================================================== *)
(** * [parse_verification_id] *)
(* ================================================================== *)

Lemma match_here_lits (key : pystr) (r : regex) (s : pystr) :
  match_here (lits_ci key ++ r) s =
  match after_key key s with
  | Some rest => option_map (Nat.add (List.length key)) (match_here r rest)
  | None => None
  end.
Proof.
  revert s; induction key as [|l key IH]; intros s; simpl.
  - destruct (match_here r s); reflexivity.
  - destruct s as [|c s]; [reflexivity|].
    destruct (lit_ci l c); [|reflexivity].
    rewrite IH. destruct (after_key key s) as [rest|]; [|reflexivity].
    destruct (match_here r rest); reflexivity.
Qed.

Lemma star_accepts (p : N -> bool) (k : pystr -> option nat) (s : pystr) :
  (forall t, k t <> None) -> star p k s <> None.
Proof.
  intros Hk; induction s as [|c s IH]; simpl; [apply Hk|].
  destruct (p c); [|apply Hk].
  destruct (star p k s); [discriminate | apply Hk].
Qed.

Lemma match_id_none (s : pystr) :
  id_at s = false -> match_here verification_id_re s = None.
Proof.
  unfold id_at, verification_id_re; intros H.
  rewrite match_here_lits.
  destruct (after_key verification_id_key s) as [[|h rest]|];
    [reflexivity | | reflexivity].
  simpl. rewrite H. reflexivity.
Qed.

Lemma search_none (r : regex) (s : pystr) :
  (forall n, match_here r (skipn n s) = None) -> search r s = None.
Proof.
  induction s as [|c s IH]; intros H; pose proof (H O) as H0;
    simpl in H0; simpl; rewrite H0; [reflexivity|].
  rewrite IH; [reflexivity|]. intros n; exact (H (S n)).
Qed.

Lemma has_verification_id_eq (url : pystr) :
  has_verification_id url =
  id_at url || match url with
               | [] => false
               | _ :: url' => has_verification_id url'
               end.
Proof. destruct url; reflexivity. Qed.

Lemma has_verification_id_skipn (url : pystr) (n : nat) :
  has_verification_id url = false -> id_at (skipn n url) = false.
Proof.
  revert url; induction n as [|n IH]; intros url H;
    rewrite has_verification_id_eq in H; apply orb_false_iff in H.
  - apply H.
  - destruct url as [|c url]; [apply H | simpl; apply IH, H].
Qed.

(** C8, the first half as it is stated: the URL of the scenario parses to
    its id. *)
Example parse_verification_id_scenario :
  parse_verification_id (U "https://x/?verificationId=abc123ef")
  = Some (U "abc123ef").
Proof. vm_compute. reflexivity. Qed.

(** C8, as stated for every URL, fails: the pattern is compiled with
    [re.IGNORECASE], so a URL that nowhere contains the text
    [verificationId=] still parses to an id. *)
Lemma parse_verification_id_other_case :
  str_in verification_id_key (U "https://x/?VERIFICATIONID=AB") = false
  /\ parse_verification_id (U "https://x/?VERIFICATIONID=AB") = Some (U "AB").
Proof. split; vm_compute; reflexivity. Qed.

(** C8 (amended): the URL of the scenario parses to the id [abc123ef],
    and every URL that nowhere contains the key [verificationId=], letter
    case ignored, followed by a hexadecimal digit, parses to no id. *)
Theorem parse_verification_id_spec :
  parse_verification_id (U "https://x/?verificationId=abc123ef")
  = Some (U "abc123ef")
  /\ forall url : pystr,
       has_verification_id url = false -> parse_verification_id url = None.
Proof.
  split; [vm_compute; reflexivity|].
  intros url H; unfold parse_verification_id.
  rewrite search_none; [reflexivity|].
  intros n; apply match_id_none, has_verification_id_skipn, H.
Qed.

Lemma parse_verification_id_spec_witness :
  has_verification_id (U "https://x/?id=abc123ef") = false
  /\ parse_verification_id (U "https://x/?id=abc123ef") = None.
Proof.
  split; [vm_compute; reflexivity|].
  apply (proj2 parse_verification_id_spec); vm_compute; reflexivity.
Defined.

(* ================================================================== *)
(** * [verify]: the scenarios *)
(* ================================================================== *)

Lemma run_bind {A B} {m : M A} (f : A -> M B) {w w1 : world} {a : A} :
  m w = (Ok a, w1) -> bind m f w = f a w1.
Proof. intros H; unfold bind; rewrite H; reflexivity. Qed.



Lemma check_step_ok (n : string) (data current : pyval) :
  get data (U "currentStep") = inr current ->
  eq_str current (U "error") = false ->
  forall w, check_step n data 200 w = (Ok data, w).
Proof.
  intros Hc He w; unfold check_step.
  change (negb (200 =? 200)%Z) with false; cbv iota.
  unfold bind, lift; rewrite Hc; unfold ret; rewrite He; reflexivity.
Qed.



Lemma step1_run (p : subject) (w w2 : world) (data : pyval) (status : Z) :
  _sheerid_request (U "POST") (step1_url (verifier w))
    (Some (step1_body p)) w = (Ok (data, status), w2) ->
  step1 p w = check_step "1" data status w2.
Proof.
  intros H; unfold step1, bind, self_verifier; rewrite H; reflexivity.
Qed.

Lemma step2_run (p : subject) (step1_data : pyval) (w w3 : world)
    (data : pyval) (status : Z) (current : pyval) :
  get step1_data (U "currentStep") = inr current ->
  _sheerid_request (U "POST")
    (step2_url (verifier w) (field step1_data (U "submissionUrl")))
    (Some (step2_body (verifier w) p)) w = (Ok (data, status), w3) ->
  step2 p step1_data w = check_step "2" data status w3.
Proof.
  intros Hc H; destruct step1_data; try discriminate.
  unfold step2, bind, self_verifier, lift, get, get_default, ret.
  unfold field in H; rewrite H; reflexivity.
Qed.

Lemma verify_run (a : verify_args) (w w1 w2 w3 : world) (p : subject)
    (step1_data step2_data : pyval) :
  prepare a w = (Ok p, w1) ->
  step1 p w1 = (Ok step1_data, w2) ->
  step2 p step1_data w2 = (Ok step2_data, w3) ->
  verify a w = try_except (dispatch step2_data)
                 (fun e => self <- self_verifier ;;
                           ret (outcome_error self e)) w3.
Proof.
  intros Hp H1 H2; unfold verify, try_except, verify_body, bind.
  rewrite Hp, H1, H2; reflexivity.
Qed.

Lemma dispatch_run (step2_data final_step : pyval) (w : world) :
  get step2_data (U "currentStep") = inr final_step ->
  dispatch step2_data w =
  if eq_str final_step (U "emailLoop") then
    match confirm_email final_step w with
    | (Ok (inl outcome), w') => (Ok outcome, w')
    | (Ok (inr final_step), w') =>
        (Ok (outcome_failed (verifier w) email_failure_message final_step
               step2_data), w')
    | (Raise e, w') => (Raise e, w')
    | (Diverge, w') => (Diverge, w')
    end
  else if eq_str final_step (U "docUpload") then
    (Ok (outcome_failed (verifier w)
           (U "需要上传军人身份证明文档，当前版本暂不支持") final_step
           step2_data), w)
  else if eq_str final_step (U "success") then
    (Ok (outcome_success (verifier w) "认证成功" step2_data), w)
  else if eq_str final_step (U "pending") then
    (Ok (outcome_pending (verifier w) "信息已提交，等待审核" final_step
           step2_data), w)
  else (Ok (outcome_unknown (verifier w) final_step step2_data), w).
Proof.
  intros Hc; unfold dispatch, bind, self_verifier, lift; rewrite Hc.
  unfold ret.
  destruct (eq_str final_step (U "emailLoop")).
  - destruct (confirm_email final_step w) as [[[o|f]|e|] w']; reflexivity.
  - destruct (eq_str final_step (U "docUpload")); [reflexivity|].
    destruct (eq_str final_step (U "success")); [reflexivity|].
    destruct (eq_str final_step (U "pending")); reflexivity.
Qed.

(** C3: scenario A.  Step 1 answers with HTTP 200 and [currentStep]
    [collectInactiveMilitaryPersonalInfo], step 2 with HTTP 200,
    [currentStep] [success], [redirectUrl] [https://x] and [rewardCode]
    [R1]: [verify] returns an outcome with [success] true, [pending]
    false, [redirect_url] [https://x] and [reward_code] [R1]. *)
Theorem verify_scenario_success :
  forall (a : verify_args) (w w1 w2 w3 : world) (p : subject)
         (step1_data step2_data : pyval),
    prepare a w = (Ok p, w1) ->
    _sheerid_request (U "POST") (step1_url (verifier w1))
      (Some (step1_body p)) w1 = (Ok (step1_data, 200%Z), w2) ->
    get step1_data (U "currentStep")
      = inr (PStr (U "collectInactiveMilitaryPersonalInfo")) ->
    _sheerid_request (U "POST")
      (step2_url (verifier w2) (field step1_data (U "submissionUrl")))
      (Some (step2_body (verifier w2) p)) w2 = (Ok (step2_data, 200%Z), w3) ->
    get step2_data (U "currentStep") = inr (PStr (U "success")) ->
    get step2_data (U "redirectUrl") = inr (PStr (U "https://x")) ->
    get step2_data (U "rewardCode") = inr (PStr (U "R1")) ->
    exists outcome,
      verify a w = (Ok outcome, w3)
      /\ outcome_field outcome "success" = PBool true
      /\ outcome_field outcome "pending" = PBool false
      /\ outcome_field outcome "redirect_url" = PStr (U "https://x")
      /\ outcome_field outcome "reward_code" = PStr (U "R1").
Proof.
  intros a w w1 w2 w3 p d1 d2 Hp H1 Hc1 H2 Hc2 Hr Hw.
  exists (outcome_success (verifier w3) "认证成功" d2).
  split.
  - rewrite (verify_run a w w1 w2 w3 p d1 d2 Hp).
    + unfold try_except; rewrite (dispatch_run d2 _ w3 Hc2); reflexivity.
    + rewrite (step1_run p w1 w2 d1 200 H1).
      apply (check_step_ok "1" d1 _ Hc1); reflexivity.
    + rewrite (step2_run p d1 w2 w3 d2 200 _ Hc1 H2).
      apply (check_step_ok "2" d2 _ Hc2); reflexivity.
  - destruct d2; try discriminate.
    unfold get, get_default in Hr, Hw.
    injection Hr as Hr; injection Hw as Hw.
    unfold outcome_field, outcome_success, field.
    repeat split; try reflexivity.
    + change (lookup (U "redirect_url") _) with
        (Some (field (PDict d) (U "redirectUrl"))).
      unfold field; rewrite Hr; reflexivity.
    + change (lookup (U "reward_code") _) with
        (Some (field (PDict d) (U "rewardCode"))).
      unfold field; rewrite Hw; reflexivity.
Qed.

Lemma verify_scenario_success_witness :
  exists outcome w3,
    verify full_args world_A = (Ok outcome, w3)
    /\ outcome_field outcome "success" = PBool true
    /\ outcome_field outcome "pending" = PBool false
    /\ outcome_field outcome "redirect_url" = PStr (U "https://x")
    /\ outcome_field outcome "reward_code" = PStr (U "R1").
Proof.
  edestruct (verify_scenario_success full_args world_A) as [o Ho];
    try (vm_compute; reflexivity).
  eexists; eexists; exact Ho.
Defined.

(* ================================================================== *)
(** * Every operation returns *)
(* ================================================================== *)

Ltac steady_auto := repeat steady_step.

Lemma steady_generate_password (n : nat) : steady (_generate_password n).
Proof. induction n; simpl; steady_auto. Qed.

Lemma steady_generate_username a b : steady (_generate_username a b).
Proof. unfold _generate_username; steady_auto. Qed.

Lemma steady_get_available_domain : steady get_available_domain.
Proof. unfold get_available_domain; steady_auto. Qed.

Lemma steady_login : steady _login.
Proof. unfold _login; steady_auto. Qed.

#[export] Hint Resolve steady_generate_password steady_generate_username
  steady_get_available_domain steady_login : steady.

Lemma steady_create_account a b : steady (create_account a b).
Proof. unfold create_account; steady_auto. Qed.

Lemma steady_get_messages : steady get_messages.
Proof. unfold get_messages; steady_auto. Qed.

Lemma steady_get_message_content id : steady (get_message_content id).
Proof. unfold get_message_content; steady_auto. Qed.

#[export] Hint Resolve steady_create_account steady_get_messages
  steady_get_message_content : steady.

Lemma steady_scan_messages (messages : list pyval) :
  steady (scan_messages messages).
Proof.
  induction messages as [|msg rest IH]; simpl; [steady_auto|].
  apply steady_bind; [steady_auto|]. intros [|]; [|exact IH].
  apply steady_bind; [steady_auto|]. intros id.
  apply steady_bind; [steady_auto|]. intros content.
  destruct (truthy content); [|exact IH].
  apply steady_bind; [steady_auto|].
  intros [[|c u]|]; try exact IH. steady_auto.
Qed.

#[export] Hint Resolve steady_scan_messages : steady.

Lemma steady_poll_round : steady poll_round.
Proof. unfold poll_round; steady_auto. Qed.

Lemma steady_click_verification_link url :
  steady (click_verification_link url).
Proof. unfold click_verification_link; steady_auto. Qed.

#[export] Hint Resolve steady_poll_round steady_click_verification_link
  : steady.

(** One round of the loop, unfolded. *)
Lemma poll_round_eq (fuel : nat) (start_time max_wait poll_interval : Z)
    (w : world) :
  poll (S fuel) start_time max_wait poll_interval w =
  if (now w - start_time <? max_wait * 1000)%Z then
    match poll_round w with
    | (Ok (Some url), w1) => (Ok (Some url), w1)
    | (Ok None, w1) =>
        if (poll_interval <? 0)%Z
        then (Raise (ValueError (U "sleep length must be non-negative")), w1)
        else poll fuel start_time max_wait poll_interval
               (advance (poll_interval * 1000) w1)
    | (Raise e, w1) => (Raise e, w1)
    | (Diverge, w1) => (Diverge, w1)
    end
  else (Ok None, w).
Proof.
  change (poll (S fuel) start_time max_wait poll_interval w) with
    (bind time_time
       (fun t =>
          if (t - start_time <? max_wait * 1000)%Z
          then bind poll_round
                 (fun found =>
                    match found with
                    | Some url => ret (Some url)
                    | None =>
                        bind (sleep poll_interval)
                          (fun _ => poll fuel start_time max_wait
                                      poll_interval)
                    end)
          else ret None) w).
  unfold bind at 1, time_time.
  destruct (now w - start_time <? max_wait * 1000)%Z; [|reflexivity].
  unfold bind at 1.
  destruct (poll_round w) as [[[url|]|e|] w1]; try reflexivity.
  unfold bind, sleep. destruct (poll_interval <? 0)%Z; reflexivity.
Qed.

(** With a positive interval the loop ends: the fuel covers the rounds
    that remain up to [max_wait], and the last test of the clock. *)
Lemma poll_returns (start_time max_wait poll_interval : Z) :
  (0 < poll_interval)%Z ->
  forall (fuel : nat) (w : world),
    (max_wait * 1000 - (now w - start_time)
     <= (Z.of_nat fuel - 1) * (poll_interval * 1000))%Z ->
    (1 <= fuel)%nat ->
    match poll fuel start_time max_wait poll_interval w with
    | (Diverge, _) => False
    | (_, w') => (now w <= now w')%Z
    end.
Proof.
  intros Hpos fuel; induction fuel as [|fuel IH]; intros w Hrem Hfuel;
    [lia|].
  rewrite poll_round_eq.
  destruct (Z.ltb_spec (now w - start_time) (max_wait * 1000)) as [Hlt|Hge];
    [|lia].
  pose proof (steady_poll_round w) as Hround.
  destruct (poll_round w) as [[[url|]|e|] w1]; try tauto; try lia.
  destruct (Z.ltb_spec poll_interval 0) as [Hneg|_]; [lia|].
  destruct Hround as [_ Hle].
  assert (Hnow : now (advance (poll_interval * 1000) w1)
                 = (now w1 + poll_interval * 1000)%Z) by reflexivity.
  destruct fuel as [|fuel'].
  - exfalso. simpl in Hrem. lia.
  - specialize (IH (advance (poll_interval * 1000) w1)).
    destruct (poll (S fuel') start_time max_wait poll_interval
                (advance (poll_interval * 1000) w1)) as [[r|e|] w2].
    + rewrite Hnow in IH. assert (now w1 + poll_interval * 1000 <= now w2)%Z.
      { apply IH; [|lia]. rewrite Nat2Z.inj_succ in *. nia. }
      lia.
    + rewrite Hnow in IH. assert (now w1 + poll_interval * 1000 <= now w2)%Z.
      { apply IH; [|lia]. rewrite Nat2Z.inj_succ in *. nia. }
      lia.
    + apply IH; [|lia]. rewrite Hnow. rewrite Nat2Z.inj_succ in *. nia.
Qed.

Lemma steady_wait_for_sheerid_email (max_wait poll_interval : Z) :
  (0 <= max_wait)%Z -> (0 < poll_interval)%Z ->
  steady (wait_for_sheerid_email max_wait poll_interval).
Proof.
  intros Hmax Hpos w; unfold wait_for_sheerid_email, bind, time_time.
  pose proof (poll_returns (now w) max_wait poll_interval Hpos
                (poll_fuel max_wait poll_interval) w) as H.
  destruct (poll (poll_fuel max_wait poll_interval) (now w) max_wait
              poll_interval w) as [[r|e|] w1].
  - split; [exact I|]. apply H; unfold poll_fuel; [|lia].
    rewrite Z.max_r by lia.
    rewrite !Nat2Z.inj_succ, Z2Nat.id by (apply Z.div_pos; lia).
    pose proof (Z.mul_succ_div_gt max_wait poll_interval Hpos). nia.
  - apply H; unfold poll_fuel; [|lia].
    rewrite Z.max_r by lia.
    rewrite !Nat2Z.inj_succ, Z2Nat.id by (apply Z.div_pos; lia).
    pose proof (Z.mul_succ_div_gt max_wait poll_interval Hpos). nia.
  - apply H; unfold poll_fuel; [|lia].
    rewrite Z.max_r by lia.
    rewrite !Nat2Z.inj_succ, Z2Nat.id by (apply Z.div_pos; lia).
    pose proof (Z.mul_succ_div_gt max_wait poll_interval Hpos). nia.
Qed.

#[export] Hint Resolve steady_wait_for_sheerid_email : steady.

Lemma steady_name_generator : steady NameGenerator_generate.
Proof. unfold NameGenerator_generate; steady_auto. Qed.

Lemma steady_generate_birth_date : steady generate_birth_date.
Proof. unfold generate_birth_date; steady_auto. Qed.

Lemma steady_generate_discharge_date : steady generate_discharge_date.
Proof.
  unfold generate_discharge_date.
  apply steady_bind; [steady_auto|]; intros today.
  apply steady_bind; [steady_auto|]; intros days_ago.
  destruct (civil_from_days _) as [[y m] d]. steady_auto.
Qed.

Lemma steady_generate_email a b : steady (generate_email a b).
Proof. unfold generate_email; steady_auto. Qed.

Lemma steady_sheerid_request method url body :
  steady (_sheerid_request method url body).
Proof. unfold _sheerid_request; destruct url; steady_auto. Qed.

#[export] Hint Resolve steady_name_generator steady_generate_birth_date
  steady_generate_discharge_date steady_generate_email
  steady_sheerid_request : steady.

Lemma steady_prepare (a : verify_args) : steady (prepare a).
Proof.
  unfold prepare, set_service.
  apply steady_bind; [steady_auto|]; intros [first_name last_name].
  steady_auto.
Qed.

Lemma steady_check_step n data status : steady (check_step n data status).
Proof. unfold check_step; steady_auto. Qed.

#[export] Hint Resolve steady_prepare steady_check_step : steady.

Lemma steady_step1 p : steady (step1 p).
Proof. unfold step1; steady_auto. Qed.

Lemma steady_step2 p d : steady (step2 p d).
Proof. unfold step2; steady_auto. Qed.

#[export] Hint Resolve steady_step1 steady_step2 : steady.

(* ================================================================== *)
(** * [verify] always returns an outcome *)
(* ================================================================== *)

Lemma is_outcome_success self message data :
  is_outcome (outcome_success self message data).
Proof. repeat split; eexists; reflexivity. Qed.

Lemma is_outcome_pending self message step data :
  is_outcome (outcome_pending self message step data).
Proof. repeat split; eexists; reflexivity. Qed.

Lemma is_outcome_failed self message step data :
  is_outcome (outcome_failed self message step data).
Proof. repeat split; eexists; reflexivity. Qed.

Lemma is_outcome_unknown self step data :
  is_outcome (outcome_unknown self step data).
Proof. repeat split; eexists; reflexivity. Qed.

Lemma is_outcome_error self e : is_outcome (outcome_error self e).
Proof. repeat split; eexists; reflexivity. Qed.

Lemma sat_confirm_email (final_step : pyval) :
  sat (confirm_email final_step)
    (fun r => match r with
              | inl outcome => is_outcome outcome
              | inr _ => True
              end).
Proof.
  unfold confirm_email.
  eapply sat_bind; [apply steady_self_verifier|]; intros self _.
  destruct (temp_email_service self); [|apply sat_ret; exact I].
  eapply sat_bind; [apply steady_wait_for_sheerid_email; lia|].
  intros [[|c u]|] _; try (apply sat_ret; exact I).
  eapply sat_bind; [apply steady_click_verification_link|].
  intros [[|] msg] _; simpl fst; [|apply sat_ret; exact I].
  eapply sat_bind; [apply steady_sheerid_request|]; intros r _.
  eapply sat_bind; [apply steady_lift|]; intros step _.
  destruct (eq_str step (U "success"));
    [apply sat_ret, is_outcome_success|].
  destruct (eq_str step (U "pending"));
    [apply sat_ret, is_outcome_pending | apply sat_ret; exact I].
Qed.

Lemma sat_dispatch (step2_data : pyval) :
  sat (dispatch step2_data) is_outcome.
Proof.
  unfold dispatch.
  eapply sat_bind; [apply steady_self_verifier|]; intros self _.
  eapply sat_bind; [apply steady_lift|]; intros step _.
  destruct (eq_str step (U "emailLoop")).
  { eapply sat_bind; [apply sat_confirm_email|].
    intros [outcome|final] H; apply sat_ret;
      [exact H | apply is_outcome_failed]. }
  destruct (eq_str step (U "docUpload"));
    [apply sat_ret, is_outcome_failed|].
  destruct (eq_str step (U "success"));
    [apply sat_ret, is_outcome_success|].
  destruct (eq_str step (U "pending"));
    [apply sat_ret, is_outcome_pending | apply sat_ret, is_outcome_unknown].
Qed.

Lemma sat_verify (a : verify_args) : sat (verify a) is_outcome.
Proof.
  unfold verify. intros w; unfold try_except.
  assert (Hbody : sat (verify_body a) is_outcome).
  { unfold verify_body.
    eapply sat_bind; [apply steady_prepare|]; intros p _.
    eapply sat_bind; [apply steady_step1|]; intros d1 _.
    eapply sat_bind; [apply steady_step2|]; intros d2 _.
    apply sat_dispatch. }
  specialize (Hbody w).
  destruct (verify_body a w) as [[outcome|e|] w1]; try assumption.
  unfold bind, self_verifier, ret. split; [apply is_outcome_error | exact Hbody].
Qed.


(* ================================================================== *)
(** * [click_verification_link] *)
(* ================================================================== *)

Lemma followed_answer (url : pystr) (w : world) (r : response) (t : N)
    (rest : list exchange) :
  net w = Answer r t :: rest ->
  followed url w =
  Some (if (status_code r =? 200)%Z
        then positive_marker (text r) || negb (negative_marker (text r))
        else false).
Proof.
  intros Hnet.
  unfold followed, click_verification_link, try_except, bind, http.
  rewrite Hnet.
  destruct (status_code r =? 200)%Z; [|reflexivity].
  unfold positive_marker, negative_marker, has_marker, existsb.
  destruct (str_in (U "success") (lower (text r))),
    (str_in (U "verified") (lower (text r))),
    (str_in (U "confirmed") (lower (text r))),
    (str_in (U "error") (lower (text r))),
    (str_in (U "expired") (lower (text r))); reflexivity.
Qed.

(** C7, as stated, fails: on a page that holds a negative marker
    ([error]) the link counts as followed when the page also holds a
    positive marker ([confirmed]), the positive markers being looked for
    first. *)
Lemma click_negative_marker_followed :
  exists r t,
    net world_mixed_page = [Answer r t]
    /\ status_code r = 200%Z
    /\ negative_marker (text r) = true
    /\ followed (U "https://services.sheerid.com/verify/1") world_mixed_page
       = Some true.
Proof.
  do 2 eexists.
  repeat match goal with |- _ /\ _ => split end; vm_compute; reflexivity.
Qed.

(** C7 (amended): for an answer with HTTP 200, a page with a positive
    marker (success, verified, confirmed) gives [followed] true; a page
    with a negative marker (error, expired) and no positive marker gives
    [followed] false; a page with no marker gives [followed] true.  An
    answer with another status, and an exception of the transport, give
    [followed] false. *)
Theorem click_verification_link_spec :
  forall (url : pystr) (w : world),
    (forall r t rest,
        net w = Answer r t :: rest ->
        (status_code r = 200%Z -> positive_marker (text r) = true ->
         followed url w = Some true)
        /\ (status_code r = 200%Z -> positive_marker (text r) = false ->
            negative_marker (text r) = true -> followed url w = Some false)
        /\ (status_code r = 200%Z -> positive_marker (text r) = false ->
            negative_marker (text r) = false -> followed url w = Some true)
        /\ (status_code r <> 200%Z -> followed url w = Some false))
    /\ (forall e t rest,
           net w = Failure e t :: rest -> followed url w = Some false)
    /\ (net w = [] -> followed url w = Some false).
Proof.
  intros url w; split; [|split].
  - intros r t rest Hnet. rewrite (followed_answer url w r t rest Hnet).
    repeat split.
    + intros -> ->; reflexivity.
    + intros -> -> ->; reflexivity.
    + intros -> -> ->; reflexivity.
    + intros Hs. destruct (Z.eqb_spec (status_code r) 200); [contradiction|].
      reflexivity.
  - intros e t rest Hnet.
    unfold followed, click_verification_link, try_except, bind, http.
    rewrite Hnet; reflexivity.
  - intros Hnet.
    unfold followed, click_verification_link, try_except, bind, http.
    rewrite Hnet; reflexivity.
Qed.

Lemma click_verification_link_spec_witness :
  (exists r t, net world_plain_page = [Answer r t]
               /\ status_code r = 200%Z
               /\ positive_marker (text r) = false
               /\ negative_marker (text r) = false)
  /\ followed (U "https://services.sheerid.com/verify/1") world_plain_page
     = Some true.
Proof.
  split; [do 2 eexists;
          repeat match goal with |- _ /\ _ => split end; vm_compute; reflexivity|].
  eapply (proj1 (click_verification_link_spec _ world_plain_page));
    vm_compute; reflexivity.
Defined.

(* ================================================================== *)
(** * [verify]: the errors of step 1 *)
(* ================================================================== *)











(* ================================================================== *)
(** * [verify]: the confirmation of the address *)
(* ================================================================== *)

Lemma sat_scan_messages_link (messages : list pyval) :
  sat (scan_messages messages) (fun found => found <> Some []).
Proof.
  induction messages as [|msg rest IH]; simpl;
    [apply sat_ret; discriminate|].
  eapply sat_bind; [apply steady_lift|]. intros [|] _; [|exact IH].
  eapply sat_bind; [apply steady_lift|]. intros id _.
  eapply sat_bind; [apply steady_get_message_content|]. intros content _.
  destruct (truthy content); [|exact IH].
  eapply sat_bind; [apply steady_lift|].
  intros [[|c u]|] _; try exact IH. apply sat_ret; discriminate.
Qed.

Lemma poll_round_link (w w1 : world) (url : pystr) :
  poll_round w = (Ok (Some url), w1) -> url <> [].
Proof.
  intros H.
  assert (Hs : sat poll_round (fun found => found <> Some [])).
  { unfold poll_round.
    eapply sat_bind; [apply steady_get_messages|]. intros m _.
    eapply sat_bind; [apply steady_lift|]. intros items _.
    apply sat_scan_messages_link. }
  specialize (Hs w). rewrite H in Hs. destruct Hs as [Hs _].
  intros ->; apply Hs; reflexivity.
Qed.

Lemma poll_link (fuel : nat) (start_time max_wait poll_interval : Z)
    (w w1 : world) (url : pystr) :
  poll fuel start_time max_wait poll_interval w = (Ok (Some url), w1) ->
  url <> [].
Proof.
  revert w; induction fuel as [|fuel IH]; intros w; [discriminate|].
  rewrite poll_round_eq.
  destruct (now w - start_time <? max_wait * 1000)%Z; [|discriminate].
  destruct (poll_round w) as [[[u|]|e|] w2] eqn:E; try discriminate.
  - intros H; injection H as -> ->. exact (poll_round_link w w1 url E).
  - destruct (poll_interval <? 0)%Z; [discriminate | apply IH].
Qed.

(** The link that [wait_for_sheerid_email] returns is not empty. *)
Lemma wait_for_sheerid_email_link (max_wait poll_interval : Z)
    (w w1 : world) (url : pystr) :
  wait_for_sheerid_email max_wait poll_interval w = (Ok (Some url), w1) ->
  url <> [].
Proof.
  unfold wait_for_sheerid_email, bind, time_time. apply poll_link.
Qed.

Lemma confirm_email_timeout (final_step : pyval) (w w4 : world) :
  temp_email_service (verifier w) = true ->
  wait_for_sheerid_email 90 5 w = (Ok None, w4) ->
  confirm_email final_step w = (Ok (inr final_step), w4).
Proof.
  intros Hs Hw; unfold confirm_email, bind, self_verifier.
  rewrite Hs, Hw; reflexivity.
Qed.

Lemma confirm_email_pending (final_step : pyval) (w w4 w5 w6 : world)
    (url msg : pystr) (final_data : pyval) (status : Z) :
  temp_email_service (verifier w) = true ->
  wait_for_sheerid_email 90 5 w = (Ok (Some url), w4) ->
  click_verification_link url w4 = (Ok (true, msg), w5) ->
  _sheerid_request (U "GET") (status_url (verifier w)) None w5
    = (Ok (final_data, status), w6) ->
  get final_data (U "currentStep") = inr (PStr (U "pending")) ->
  confirm_email final_step w =
  (Ok (inl (outcome_pending (verifier w) "邮箱已验证，等待审核"
              (PStr (U "pending")) final_data)), w6).
Proof.
  intros Hs Hw Hc Hr Hg; unfold confirm_email, bind, self_verifier.
  rewrite Hs, Hw.
  pose proof (wait_for_sheerid_email_link 90 5 w w4 url Hw) as Hne.
  destruct url as [|c u]; [contradiction|].
  rewrite Hc; cbv beta iota; cbn [fst]; cbv beta iota.
  rewrite Hr; cbv beta iota; cbn [fst].
  destruct final_data as [| | | | |l|d]; try discriminate.
  unfold get, get_default in Hg; injection Hg as Hg.
  unfold lift, get_default.
  destruct (lookup (U "currentStep") d) as [v|]; [|discriminate].
  subst v. reflexivity.
Qed.

(** C4: scenario C.  Step 2 is answered with [currentStep] [emailLoop],
    the poll of the mailbox yields a link, following the link reports
    success, and the status then read has [currentStep] [pending]:
    [verify] returns an outcome with [success] true and [pending] true. *)
Theorem verify_scenario_email_pending :
  forall (a : verify_args) (w w1 w2 w3 w4 w5 w6 : world) (p : subject)
         (step1_data step2_data final_data : pyval) (url msg : pystr)
         (status : Z),
    prepare a w = (Ok p, w1) ->
    step1 p w1 = (Ok step1_data, w2) ->
    step2 p step1_data w2 = (Ok step2_data, w3) ->
    get step2_data (U "currentStep") = inr (PStr (U "emailLoop")) ->
    temp_email_service (verifier w3) = true ->
    wait_for_sheerid_email 90 5 w3 = (Ok (Some url), w4) ->
    click_verification_link url w4 = (Ok (true, msg), w5) ->
    _sheerid_request (U "GET") (status_url (verifier w3)) None w5
      = (Ok (final_data, status), w6) ->
    get final_data (U "currentStep") = inr (PStr (U "pending")) ->
    exists outcome,
      verify a w = (Ok outcome, w6)
      /\ outcome_field outcome "success" = PBool true
      /\ outcome_field outcome "pending" = PBool true.
Proof.
  intros a w w1 w2 w3 w4 w5 w6 p d1 d2 fd url msg status
    Hp H1 H2 Hc2 Hs Hw Hc Hr Hg.
  eexists; split.
  - rewrite (verify_run a w w1 w2 w3 p d1 d2 Hp H1 H2).
    unfold try_except. rewrite (dispatch_run d2 _ w3 Hc2).
    change (eq_str (PStr (U "emailLoop")) (U "emailLoop")) with true.
    cbv iota.
    rewrite (confirm_email_pending _ w3 w4 w5 w6 url msg fd status
               Hs Hw Hc Hr Hg).
    reflexivity.
  - split; reflexivity.
Qed.

Lemma verify_scenario_email_pending_witness :
  exists outcome w6,
    verify args_without_email world_C = (Ok outcome, w6)
    /\ outcome_field outcome "success" = PBool true
    /\ outcome_field outcome "pending" = PBool true.
Proof.
  edestruct (verify_scenario_email_pending args_without_email world_C)
    as [o Ho]; try (vm_compute; reflexivity).
  eexists; eexists; exact Ho.
Defined.

(** C5, as stated, fails on the text of the message: when the poll of
    the mailbox times out the outcome is a failure, but its message is
    the Chinese text of the source, which names the mailbox and does not
    contain the string [email].  Here the mailbox stays empty for the 90
    seconds of the poll. *)
Lemma verify_timeout_message_without_email :
  exists p w1 w2 w3 w4 step1_data step2_data outcome,
    prepare args_without_email world_B = (Ok p, w1)
    /\ step1 p w1 = (Ok step1_data, w2)
    /\ step2 p step1_data w2 = (Ok step2_data, w3)
    /\ get step2_data (U "currentStep") = inr (PStr (U "emailLoop"))
    /\ wait_for_sheerid_email 90 5 w3 = (Ok None, w4)
    /\ (90 * 1000 <= now w4 - now w3)%Z
    /\ verify args_without_email world_B = (Ok outcome, w4)
    /\ outcome_field outcome "success" = PBool false
    /\ str_in (U "email") (str (outcome_field outcome "message")) = false.
Proof.
  do 8 eexists.
  repeat match goal with |- _ /\ _ => split end;
    try (vm_compute; reflexivity).
  vm_compute; discriminate.
Qed.

(** C5 (amended): scenario B.  Step 2 is answered with [currentStep]
    [emailLoop] and the poll of the mailbox ends at its ceiling without a
    link: [verify] returns an outcome with [success] false whose message
    is the fixed text of the source, which reports in Chinese that the
    address could not be verified. *)
Theorem verify_scenario_email_timeout :
  forall (a : verify_args) (w w1 w2 w3 w4 : world) (p : subject)
         (step1_data step2_data : pyval),
    prepare a w = (Ok p, w1) ->
    step1 p w1 = (Ok step1_data, w2) ->
    step2 p step1_data w2 = (Ok step2_data, w3) ->
    get step2_data (U "currentStep") = inr (PStr (U "emailLoop")) ->
    temp_email_service (verifier w3) = true ->
    wait_for_sheerid_email 90 5 w3 = (Ok None, w4) ->
    exists outcome,
      verify a w = (Ok outcome, w4)
      /\ outcome_field outcome "success" = PBool false
      /\ outcome_field outcome "message" = PStr email_failure_message.
Proof.
  intros a w w1 w2 w3 w4 p d1 d2 Hp H1 H2 Hc2 Hs Hw.
  eexists; split.
  - rewrite (verify_run a w w1 w2 w3 p d1 d2 Hp H1 H2).
    unfold try_except. rewrite (dispatch_run d2 _ w3 Hc2).
    change (eq_str (PStr (U "emailLoop")) (U "emailLoop")) with true.
    cbv iota. rewrite (confirm_email_timeout _ w3 w4 Hs Hw). reflexivity.
  - split; reflexivity.
Qed.

Lemma verify_scenario_email_timeout_witness :
  exists outcome w4,
    verify args_without_email world_B = (Ok outcome, w4)
    /\ outcome_field outcome "success" = PBool false
    /\ outcome_field outcome "message" = PStr email_failure_message.
Proof.
  edestruct (verify_scenario_email_timeout args_without_email world_B)
    as [o Ho]; try (vm_compute; reflexivity).
  eexists; eexists; exact Ho.
Defined.
(* ================================================================== *)
(** * Link extraction *)
(* ================================================================== *)

(** ** The matcher against the language of a pattern *)

Lemma star_sound (p : N -> bool) (r : regex) (k : pystr -> option nat) :
  sound_for r k -> sound_for (Chr p Star :: r) (star p k).
Proof.
  intros Hk s; induction s as [|c s IH]; intros n H; simpl in H.
  - destruct (Hk [] n H) as (u & t & E & L & M).
    exists u, t; repeat split; try assumption.
    exists [], u; repeat split; assumption.
  - destruct (p c) eqn:Pc.
    + destruct (star p k s) as [m|] eqn:Es.
      * injection H as <-.
        destruct (IH m eq_refl) as (u & t & E & L & run & rest & Eu & Fr & M).
        exists (c :: u), t; repeat split; [subst; reflexivity | simpl; lia |].
        exists (c :: run), rest; repeat split;
          [subst; reflexivity | simpl; rewrite Pc; exact Fr | exact M].
      * destruct (Hk _ n H) as (u & t & E & L & M).
        exists u, t; repeat split; try assumption.
        exists [], u; repeat split; assumption.
    + destruct (Hk _ n H) as (u & t & E & L & M).
      exists u, t; repeat split; try assumption.
      exists [], u; repeat split; assumption.
Qed.

Lemma match_here_sound (r : regex) :
  plain r -> sound_for r (match_here r).
Proof.
  induction r as [|a r IH]; intros Hplain s n H.
  - injection H as <-. exists [], s; repeat split.
  - inversion Hplain as [|a' r' Ha Hr]; subst. specialize (IH Hr).
    destruct a as [p [| | |]|]; simpl in H.
    + destruct s as [|c s]; [discriminate|].
      destruct (p c) eqn:Pc; [|discriminate].
      destruct (match_here r s) as [m|] eqn:E; [|discriminate].
      injection H as <-. destruct (IH s m E) as (u & t & Es & L & M).
      exists (c :: u), t; repeat split; [subst; reflexivity | simpl; lia |].
      exists c, u; repeat split; assumption.
    + assert (Hskip : forall s n, match_here r s = Some n ->
                exists u t, s = u ++ t /\ List.length u = n
                            /\ matches (Chr p Opt :: r) u).
      { intros s0 n0 H0. destruct (IH s0 n0 H0) as (u & t & Es & L & M).
        exists u, t; repeat split; try assumption. left; exact M. }
      destruct s as [|c s]; [exact (Hskip _ _ H)|].
      destruct (p c) eqn:Pc; [|exact (Hskip _ _ H)].
      destruct (match_here r s) as [m|] eqn:E; [|exact (Hskip _ _ H)].
      injection H as <-. destruct (IH s m E) as (u & t & Es & L & M).
      exists (c :: u), t; repeat split; [subst; reflexivity | simpl; lia |].
      right. exists c, u; repeat split; assumption.
    + exact (star_sound p r (match_here r) IH s n H).
    + destruct s as [|c s]; [discriminate|].
      destruct (p c) eqn:Pc; [|discriminate].
      destruct (star p (match_here r) s) as [m|] eqn:E; [|discriminate].
      injection H as <-.
      destruct (star_sound p r (match_here r) IH s m E)
        as (u & t & Es & L & run & rest & Eu & Fr & M).
      exists (c :: u), t; repeat split; [subst; reflexivity | simpl; lia |].
      exists c, run, rest; repeat split; try assumption. subst; reflexivity.
    + contradiction Ha; reflexivity.
Qed.

(** The first item of [findall] is a match at some position. *)
Lemma findall_first (r : regex) (s : pystr) (m : pystr) (ms : list pystr) :
  findall r s = m :: ms ->
  exists before t n,
    s = before ++ t /\ match_here r t = Some n /\ m = firstn n t.
Proof.
  unfold findall; induction s as [|c s IH]; simpl.
  - destruct (match_here r []) as [n|] eqn:E; [|discriminate].
    intros H; injection H as <- _. exists [], [], n; repeat split.
    + exact E.
    + destruct n; reflexivity.
  - destruct (match_here r (c :: s)) as [n|] eqn:E.
    + intros H; injection H as <- _. exists [], (c :: s), n; repeat split.
      exact E.
    + intros H. destruct (IH H) as (b & t & n & Es & Hm & Hf).
      exists (c :: b), t, n; repeat split; try assumption.
      subst; reflexivity.
Qed.

Lemma star_keeps (p : N -> bool) (k : pystr -> option nat) (s : pystr) :
  k s <> None -> star p k s <> None.
Proof.
  intros Hk; destruct s as [|c s]; simpl; [exact Hk|].
  destruct (p c); [|exact Hk].
  destruct (star p k s); [discriminate | exact Hk].
Qed.

Lemma star_run (p : N -> bool) (k : pystr -> option nat)
    (run s : pystr) :
  forallb p run = true -> k s <> None -> star p k (run ++ s) <> None.
Proof.
  intros Hrun Hk; induction run as [|c run IH]; simpl.
  - apply star_keeps, Hk.
  - simpl in Hrun; apply andb_true_iff in Hrun as [Pc Hrun]. rewrite Pc.
    specialize (IH Hrun). destruct (star p k (run ++ s)); [discriminate|].
    contradiction IH; reflexivity.
Qed.

(** The matcher finds a match wherever the language has one. *)
Lemma match_here_complete (r : regex) :
  forall u t, matches r u -> match_here r (u ++ t) <> None.
Proof.
  induction r as [|a r IH]; intros u t M.
  - discriminate.
  - destruct a as [p [| | |]|]; simpl in M |- *.
    + destruct M as (c & rest & -> & Pc & M). simpl. rewrite Pc.
      specialize (IH rest t M).
      destruct (match_here r (rest ++ t)); [discriminate|].
      contradiction IH; reflexivity.
    + destruct M as [M | (c & rest & -> & Pc & M)].
      * specialize (IH u t M). destruct (u ++ t) as [|c s]; [exact IH|].
        destruct (p c); [|exact IH].
        destruct (match_here r s); [discriminate | exact IH].
      * simpl. rewrite Pc. specialize (IH rest t M).
        destruct (match_here r (rest ++ t)); [discriminate|].
        contradiction IH; reflexivity.
    + destruct M as (run & rest & -> & Hrun & M).
      rewrite <- app_assoc. apply star_run; [exact Hrun | apply IH, M].
    + destruct M as (c & run & rest & -> & Pc & Hrun & M).
      simpl. rewrite Pc, <- app_assoc.
      pose proof (star_run p (match_here r) run (rest ++ t) Hrun
                    (IH rest t M)) as H.
      destruct (star p (match_here r) (run ++ rest ++ t));
        [discriminate | contradiction H; reflexivity].
    + contradiction.
Qed.

Lemma star_to_the_end (P p : N -> bool) (k : pystr -> option nat) :
  to_the_end P k -> to_the_end P (star p k).
Proof.
  intros Hk s; induction s as [|c s IH]; intros n HP H; simpl in H.
  - exact (Hk [] n HP H).
  - destruct (p c); [|exact (Hk _ n HP H)].
    destruct (star p k s) as [m|] eqn:E; [|exact (Hk _ n HP H)].
    injection H as <-. simpl in HP; apply andb_true_iff in HP as [_ HP].
    simpl; f_equal; apply IH; [exact HP | reflexivity].
Qed.

(** A pattern that ends with [P*] matches a text of characters of [P]
    up to its end. *)
Lemma match_here_to_the_end (P : N -> bool) (r : regex) :
  to_the_end P (match_here (r ++ [Chr P Star])).
Proof.
  induction r as [|a r IH].
  - intros s; induction s as [|c s IHs]; intros n HP H; simpl in H.
    + injection H as <-; reflexivity.
    + simpl in HP; apply andb_true_iff in HP as [Pc HP]. rewrite Pc in H.
      change (star P (fun _ : pystr => Some O) s)
        with (match_here [Chr P Star] s) in H.
      destruct (match_here [Chr P Star] s) as [m|] eqn:E.
      * injection H as <-. simpl; f_equal; apply IHs; [exact HP | exact E].
      * exfalso. revert E. apply (star_keeps P (fun _ => Some O) s).
        discriminate.
  - destruct a as [p [| | |]|]; simpl; intros s n HP H.
    + destruct s as [|c s]; [discriminate|].
      destruct (p c); [|discriminate].
      simpl in HP; apply andb_true_iff in HP as [_ HP].
      destruct (match_here (r ++ [Chr P Star]) s) as [m|] eqn:E;
        [|discriminate].
      injection H as <-. simpl; f_equal; exact (IH s m HP E).
    + destruct s as [|c s]; [exact (IH _ n HP H)|].
      destruct (p c); [|exact (IH _ n HP H)].
      destruct (match_here (r ++ [Chr P Star]) s) as [m|] eqn:E;
        [|exact (IH _ n HP H)].
      injection H as <-.
      simpl in HP; apply andb_true_iff in HP as [_ HP].
      simpl; f_equal; exact (IH s m HP E).
    + exact (star_to_the_end P p _ IH s n HP H).
    + destruct s as [|c s]; [discriminate|].
      destruct (p c); [|discriminate].
      destruct (star p (match_here (r ++ [Chr P Star])) s) as [m|] eqn:E;
        [|discriminate].
      injection H as <-.
      simpl in HP; apply andb_true_iff in HP as [_ HP].
      simpl; f_equal; exact (star_to_the_end P p _ IH s m HP E).
    + destruct (at_end s); [exact (IH s n HP H) | discriminate].
Qed.

Lemma forallb_within (P p : N -> bool) (run : pystr) :
  (forall c, p c = true -> P c = true) ->
  forallb p run = true -> forallb P run = true.
Proof.
  intros H; induction run as [|c run IH]; simpl; [reflexivity|].
  intros Hr; apply andb_true_iff in Hr as [Pc Hr].
  rewrite (H c Pc), (IH Hr); reflexivity.
Qed.

Lemma matches_within (P : N -> bool) (r : regex) :
  Forall (within P) r ->
  forall u, matches r u -> forallb P u = true.
Proof.
  induction 1 as [|a r Ha Hr IH]; intros u M; simpl in M.
  - subst; reflexivity.
  - destruct a as [p [| | |]|]; simpl in Ha.
    + destruct M as (c & rest & -> & Pc & M); simpl.
      rewrite (Ha c Pc), (IH rest M); reflexivity.
    + destruct M as [M | (c & rest & -> & Pc & M)]; [exact (IH u M)|].
      simpl; rewrite (Ha c Pc), (IH rest M); reflexivity.
    + destruct M as (run & rest & -> & Hrun & M).
      rewrite forallb_app, (forallb_within P p run Ha Hrun), (IH rest M).
      reflexivity.
    + destruct M as (c & run & rest & -> & Pc & Hrun & M). simpl.
      rewrite (Ha c Pc), forallb_app, (forallb_within P p run Ha Hrun),
        (IH rest M). reflexivity.
    + contradiction.
Qed.

(** ** The two clean-up steps keep a match of the first pattern *)

Lemma amp_eq : U "&amp;" = amp.
Proof. reflexivity. Qed.

Lemma replace_from_within (P : N -> bool) (old new : pystr) :
  forallb P new = true ->
  forall s k, forallb P s = true ->
              forallb P (replace_from old new k s) = true.
Proof.
  intros Hnew s; induction s as [|c s IH]; intros k Hs; simpl;
    [reflexivity|].
  simpl in Hs; apply andb_true_iff in Hs as [Pc Hs].
  destruct k as [|k]; [|apply IH, Hs].
  destruct (startswith old (c :: s)).
  - rewrite forallb_app, Hnew, (IH _ Hs); reflexivity.
  - simpl; rewrite Pc, (IH _ Hs); reflexivity.
Qed.

Lemma unescape_other (c : N) (s : pystr) :
  c <> 38%N -> unescape (c :: s) = c :: unescape s.
Proof.
  intros Hc; unfold unescape, replace.
  change (replace_from amp [38%N] 0 (c :: s)) with
    (if cp_eqb 38 c && startswith [97; 109; 112; 59]%N s
     then [38%N] ++ replace_from amp [38%N] (List.length amp - 1) s
     else c :: replace_from amp [38%N] 0 s).
  unfold cp_eqb. destruct (N.eqb_spec 38 c) as [E|_];
    [contradiction Hc; symmetry; exact E | reflexivity].
Qed.

Lemma startswith_length (p s : pystr) :
  startswith p s = true -> (List.length p <= List.length s)%nat.
Proof.
  revert s; induction p as [|a p IH]; intros [|b s]; simpl;
    try discriminate; try lia.
  intros H; apply andb_true_iff in H as [_ H]. apply IH in H. lia.
Qed.

Lemma startswith_amp_app (c : N) (X Z : pystr) :
  clear_head Z ->
  startswith amp ((c :: X) ++ Z) = startswith amp (c :: X).
Proof.
  intros HZ. unfold amp.
  destruct X as [|c2 [|c3 [|c4 [|c5 X]]]];
    cbn [app startswith]; try reflexivity;
    (destruct Z as [|z Z]; cbn [app startswith];
     [rewrite ?andb_false_r; reflexivity|]);
    destruct HZ as (Ha & Hm & Hp & Hs); unfold cp_eqb;
    repeat match goal with
           | |- context [N.eqb ?a ?b] =>
               destruct (N.eqb_spec a b); cbn [andb]; try reflexivity
           end; subst; congruence.
Qed.

Lemma replace_from_app (Z : pystr) :
  clear_head Z ->
  forall X k, (k <= List.length X)%nat ->
    replace_from amp [38%N] k (X ++ Z)
    = replace_from amp [38%N] k X ++ unescape Z.
Proof.
  intros HZ X; induction X as [|c X IH]; intros k Hk.
  - simpl in Hk. replace k with O by lia. reflexivity.
  - destruct k as [|k].
    + change (replace_from amp [38%N] 0 ((c :: X) ++ Z)) with
        (if startswith amp ((c :: X) ++ Z)
         then [38%N] ++ replace_from amp [38%N] (List.length amp - 1) (X ++ Z)
         else c :: replace_from amp [38%N] 0 (X ++ Z)).
      change (replace_from amp [38%N] 0 (c :: X)) with
        (if startswith amp (c :: X)
         then [38%N] ++ replace_from amp [38%N] (List.length amp - 1) X
         else c :: replace_from amp [38%N] 0 X).
      rewrite (startswith_amp_app c X Z HZ).
      destruct (startswith amp (c :: X)) eqn:E.
      * apply startswith_length in E. simpl in E.
        rewrite IH by (simpl; lia). reflexivity.
      * rewrite IH by lia. reflexivity.
    + simpl in Hk. simpl. apply IH; lia.
Qed.

Lemma unescape_app (X Z : pystr) :
  clear_head Z -> unescape (X ++ Z) = unescape X ++ unescape Z.
Proof.
  intros HZ; apply replace_from_app; [exact HZ | lia].
Qed.

Lemma starts_clear_head (r : regex) (u : pystr) :
  starts_clear r -> matches r u -> clear_head u.
Proof.
  destruct r as [|[q [| | |]|] r]; simpl; try contradiction.
  - intros _ ->; exact I.
  - intros Hq (c & rest & -> & Qc & _). exact (Hq c Qc).
Qed.

Lemma matches_unescape (r : regex) :
  amp_safe r -> forall u, matches r u -> matches r (unescape u).
Proof.
  induction r as [|a r IH]; intros Hs u M.
  - simpl in M; subst; reflexivity.
  - destruct a as [p [| | |]|]; simpl in Hs; try contradiction.
    + destruct Hs as [Hp Hs]. destruct M as (c & rest & -> & Pc & M).
      rewrite (unescape_other c rest (Hp c Pc)).
      exists c, (unescape rest); repeat split;
        [exact Pc | exact (IH Hs rest M)].
    + destruct Hs as [Hp Hs].
      destruct M as [M | (c & rest & -> & Pc & M)].
      * left; exact (IH Hs u M).
      * right. rewrite (unescape_other c rest (Hp c Pc)).
        exists c, (unescape rest); repeat split;
          [exact Pc | exact (IH Hs rest M)].
    + destruct Hs as (Hamp & Hclear & Hs).
      destruct M as (run & rest & -> & Hrun & M).
      rewrite (unescape_app run rest (starts_clear_head r rest Hclear M)).
      exists (unescape run), (unescape rest); repeat split.
      * apply replace_from_within; [simpl; rewrite Hamp; reflexivity|].
        exact Hrun.
      * exact (IH Hs rest M).
Qed.

(** ** The characters that a literal takes under [re.IGNORECASE] *)

Ltac decide_cmp :=
  repeat match goal with
         | |- context [N.leb ?a ?b] => destruct (N.leb_spec a b); try lia
         | |- context [N.eqb ?a ?b] => destruct (N.eqb_spec a b); try lia
         | H : context [N.leb ?a ?b] |- _ =>
             destruct (N.leb_spec a b); try lia
         | H : context [N.eqb ?a ?b] |- _ =>
             destruct (N.eqb_spec a b); try lia
         end.

Lemma lit_ci_not (l x c : N) :
  ordinary x = true -> (sre_lower l =? x)%N = false ->
  lit_ci l c = true -> c <> x.
Proof.
  unfold ordinary, lit_ci, casefix; intros Hx Hl Hc ->.
  apply andb_true_iff in Hx as [Hx H17]; apply andb_true_iff in Hx as [Hx H13].
  apply N.eqb_eq in Hx; rewrite Hx in Hc.
  apply negb_true_iff in H13, H17.
  rewrite N.eqb_sym in Hl. rewrite Hl, H13, H17, !andb_false_r in Hc.
  discriminate.
Qed.

Lemma url_char_upper (c : N) : (65 <= c <= 90)%N -> url_char c = true.
Proof.
  intros H; unfold url_char, isspace; decide_cmp; reflexivity.
Qed.

Lemma lit_ci_url_char (l c : N) :
  url_char (sre_lower l) = true -> lit_ci l c = true -> url_char c = true.
Proof.
  intros Hl; unfold lit_ci, casefix.
  generalize dependent (sre_lower l); intros lo Hl.
  assert (Hsame : forall x, ((x =? lo) || ((lo =? 0x69) && (x =? 0x131)
                             || (lo =? 0x73) && (x =? 0x17F)))%N = true ->
                            x = lo \/ x = 0x131%N \/ x = 0x17F%N).
  { intros x H; apply orb_true_iff in H as [H|H];
      [left; apply N.eqb_eq, H|].
    right; apply orb_true_iff in H as [H|H];
      apply andb_true_iff in H as [_ H]; apply N.eqb_eq in H; auto. }
  unfold sre_lower.
  destruct (N.leb_spec 65 c) as [H65|H65]; cbn [andb].
  - destruct (N.leb_spec c 90) as [H90|H90];
      [intros _; apply url_char_upper; lia|].
    destruct (N.eqb_spec c 0x130) as [->|N1]; [reflexivity|].
    destruct (N.eqb_spec c 0x212A) as [->|N2]; [reflexivity|].
    intros H; destruct (Hsame c H) as [->|[->| ->]];
      [exact Hl | reflexivity | reflexivity].
  - destruct (N.eqb_spec c 0x130) as [->|N1]; [lia|].
    destruct (N.eqb_spec c 0x212A) as [->|N2]; [lia|].
    intros H; destruct (Hsame c H) as [->|[->| ->]];
      [exact Hl | reflexivity | reflexivity].
Qed.

Lemma url_char_no_quote (c : N) : url_char c = true -> quote_or_gt c = false.
Proof.
  unfold url_char, quote_or_gt.
  destruct (c =? 34)%N, (c =? 39)%N, (c =? 62)%N;
    rewrite ?orb_true_r; simpl; try discriminate; reflexivity.
Qed.

Lemma verify_link_re_plain : plain verify_link_re.
Proof. repeat constructor; discriminate. Qed.

Lemma verify_link_re_within : Forall (within url_char) verify_link_re.
Proof.
  repeat constructor; intros c;
    try (apply lit_ci_url_char; reflexivity); exact (fun H => H).
Qed.

Lemma verify_link_re_amp_safe : amp_safe verify_link_re.
Proof.
  cbn -[lit_ci url_char].
  repeat match goal with
         | |- _ /\ _ => split
         | |- True => exact I
         | |- url_char _ = true => reflexivity
         | |- forall c, lit_ci _ c = true -> c <> _ =>
             intros c; apply lit_ci_not; reflexivity
         | |- forall c, lit_ci _ c = true -> _ /\ _ =>
             intros c Hc; repeat split;
             revert Hc; apply lit_ci_not; reflexivity
         end.
Qed.

Lemma sub_trailing_id (s : pystr) :
  forallb url_char s = true -> sub trailing_re [] s = s.
Proof.
  unfold sub; induction s as [|c s IH]; intros H; [reflexivity|].
  simpl in H; apply andb_true_iff in H as [Hc H].
  simpl. rewrite (url_char_no_quote c Hc), (IH H). reflexivity.
Qed.

Lemma clean_link_unescape (m : pystr) :
  forallb url_char m = true -> clean_link m = unescape m.
Proof.
  intros H; unfold clean_link. rewrite amp_eq.
  change (replace amp (U "&") m) with (unescape m).
  apply sub_trailing_id.
  apply replace_from_within; [reflexivity | exact H].
Qed.

(** A first match of the first pattern, once cleaned, is still matched
    by that pattern, from its first to its last character. *)
Lemma clean_link_verify (content first : pystr) (others : list pystr) :
  findall verify_link_re content = first :: others ->
  clean_link first = unescape first
  /\ matches verify_link_re (clean_link first)
  /\ match_here verify_link_re (clean_link first)
     = Some (List.length (clean_link first)).
Proof.
  intros Hfind.
  destruct (findall_first _ _ _ _ Hfind) as (before & t & n & _ & Hm & ->).
  destruct (match_here_sound verify_link_re verify_link_re_plain t n Hm)
    as (u & t' & -> & Hn & M).
  assert (Hfirst : firstn n (u ++ t') = u).
  { subst n. rewrite firstn_app, Nat.sub_diag, firstn_all. simpl.
    apply app_nil_r. }
  rewrite Hfirst.
  pose proof (matches_within url_char verify_link_re verify_link_re_within
                u M) as Hchars.
  rewrite (clean_link_unescape u Hchars).
  pose proof (matches_unescape verify_link_re verify_link_re_amp_safe u M)
    as M'.
  split; [reflexivity|]. split; [exact M'|].
  pose proof (match_here_complete verify_link_re (unescape u) [] M') as Hc.
  rewrite app_nil_r in Hc.
  destruct (match_here verify_link_re (unescape u)) as [k|] eqn:E;
    [|contradiction Hc; reflexivity].
  f_equal.
  apply (match_here_to_the_end url_char
           (link_head ++ [Chr url_char Star] ++ lits_ci (U "verify"))
           (unescape u) k).
  - exact (matches_within url_char verify_link_re verify_link_re_within
             (unescape u) M').
  - rewrite <- E. reflexivity.
Qed.

(** C6: extraction is a function of the message alone: it gives the same
    result in every world and leaves the world as it is, so that a second
    run on the same message gives the same result.  And when the first
    pattern (the link with [verify] in it) and the last, generic pattern
    both match in the body, the URL returned comes from the first match
    of the first pattern, and is itself matched by the first pattern from
    its first to its last character. *)
Theorem extract_verification_url_specific :
  forall message : pyval,
    (forall w1 w2 : world,
        fst (lift (_extract_verification_url message) w1)
        = fst (lift (_extract_verification_url message) w2)
        /\ snd (lift (_extract_verification_url message) w1) = w1)
    /\ (forall (html text : pyval) (content first : pystr)
               (others : list pystr),
          get_default message (U "html") (PStr []) = inr html ->
          get_default message (U "text") (PStr []) = inr text ->
          content_of (or_empty html) (or_empty text) = inr content ->
          findall verify_link_re content = first :: others ->
          findall generic_link_re content <> [] ->
          _extract_verification_url message = inr (Some (clean_link first))
          /\ clean_link first = unescape first
          /\ matches verify_link_re (clean_link first)
          /\ match_here verify_link_re (clean_link first)
             = Some (List.length (clean_link first))).
Proof.
  intros message; split.
  - intros w1 w2.
    destruct (_extract_verification_url message); split; reflexivity.
  - intros html text content first others Hh Ht Hc Hfind _.
    split; [|exact (clean_link_verify content first others Hfind)].
    unfold _extract_verification_url, bindE.
    rewrite Hh, Ht, Hc. unfold patterns, first_link. rewrite Hfind.
    reflexivity.
Qed.

Lemma extract_verification_url_specific_witness :
  findall generic_link_re two_links_body
    = [U "https://www.sheerid.com/help";
       U "https://services.sheerid.com/verify/abc?t=1&amp;u=2"]
  /\ _extract_verification_url two_links_message
     = inr (Some (U "https://services.sheerid.com/verify/abc?t=1&u=2")).
Proof.
  split; [vm_compute; reflexivity|].
  refine (proj1 (proj2 (extract_verification_url_specific two_links_message)
                   (PStr two_links_body) PNone two_links_body
                   (U "https://services.sheerid.com/verify/abc?t=1&amp;u=2")
                   [] _ _ _ _ _)).
  - vm_compute; reflexivity.
  - vm_compute; reflexivity.
  - vm_compute; reflexivity.
  - vm_compute; reflexivity.
  - vm_compute; discriminate.
Defined.
(* ================================================================== *)
(** * [run_registration_flow] and the Excel file *)
(* ================================================================== *)

Module RegisterFacts.
Import Register.

Lemma keeps_ret {A} (a : A) (P : A -> Prop) : P a -> keeps (ret a) P.
Proof. intros H s; simpl; auto. Qed.

Lemma keeps_bind {A C} (m : B A) (f : A -> B C) (P : A -> Prop)
    (Q : C -> Prop) :
  keeps m P -> (forall a, P a -> keeps (f a) Q) -> keeps (bind m f) Q.
Proof.
  intros Hm Hf s; unfold bind; specialize (Hm s).
  destruct (m s) as [[a|e|] s1]; simpl in *; try tauto.
  destruct Hm as (Hs & He & Pa). specialize (Hf a Pa s1).
  destruct (f a s1) as [r s2]; simpl in *.
  destruct Hf as (Hs2 & He2 & Hr). rewrite Hs2, He2; auto.
Qed.

Lemma keeps_try {A} (m : B A) (h : exn -> B A) (Q : A -> Prop) :
  keeps m Q -> (forall e, keeps (h e) Q) -> keeps (try_except m h) Q.
Proof.
  intros Hm Hh s; unfold try_except; specialize (Hm s).
  destruct (m s) as [[a|e|] s1]; simpl in *; try tauto.
  destruct Hm as (Hs & He & _). specialize (Hh e s1).
  destruct (h e s1) as [r s2]; simpl in *.
  destruct Hh as (Hs2 & He2 & Hr). rewrite Hs2, He2; auto.
Qed.

Lemma quiet_bind {A C} (m : B A) (f : A -> B C) :
  quiet m -> (forall a, quiet (f a)) -> quiet (bind m f).
Proof. intros Hm Hf; eapply keeps_bind; [exact Hm | intros a _; apply Hf]. Qed.

Lemma quiet_ret {A} (a : A) : quiet (ret a).
Proof. apply keeps_ret; exact I. Qed.

Lemma quiet_ask c : quiet (ask c).
Proof.
  intros s; unfold ask.
  destruct (fails (outside s (List.length (calls s)) c)); simpl; auto.
Qed.

Lemma quiet_draw c : quiet (draw c).
Proof. intros s; simpl; auto. Qed.

Lemma quiet_monotonic : quiet monotonic.
Proof. intros s; simpl; auto. Qed.

Lemma quiet_pass ms : quiet (pass ms).
Proof. intros s; simpl; auto. Qed.

Lemma quiet_diverge {A} : quiet (fun s : state => (@Diverge A, s)).
Proof. intros s; simpl; auto. Qed.

Create HintDb quiet.
#[local] Hint Resolve quiet_ret quiet_ask quiet_draw quiet_monotonic
  quiet_pass quiet_diverge : quiet.

Ltac quiet_step :=
  match goal with
  | |- quiet (bind _ _) => apply quiet_bind; [| intros ?]
  | |- quiet (try_except _ _) => apply keeps_try; [| intros ?]
  | |- keeps (try_except _ _) (fun _ => True) => apply keeps_try; [| intros ?]
  | |- keeps ?m (fun _ => True) => change (quiet m)
  | |- quiet (if ?b then _ else _) => destruct b
  | |- quiet (match ?x with _ => _ end) => destruct x
  | |- quiet _ => solve [auto with quiet]
  end.

Ltac quiet_auto := repeat quiet_step.

Lemma quiet_ask_ c : quiet (ask_ c).
Proof. unfold ask_; quiet_auto. Qed.

Lemma quiet_sleep ms : quiet (sleep ms).
Proof. apply quiet_pass. Qed.

Lemma quiet_randint a b : quiet (randint a b).
Proof. unfold randint; quiet_auto. Qed.

#[local] Hint Resolve quiet_ask_ quiet_sleep quiet_randint : quiet.

Lemma quiet_sleep_uniform a b : quiet (sleep_uniform a b).
Proof. unfold sleep_uniform; quiet_auto. Qed.

Lemma quiet_wait_for_timeout ms : quiet (wait_for_timeout ms).
Proof. unfold wait_for_timeout; quiet_auto. Qed.

Lemma quiet_count t : quiet (count t).
Proof. unfold count; quiet_auto. Qed.

Lemma quiet_is_visible t : quiet (is_visible t).
Proof. unfold is_visible; quiet_auto. Qed.

#[local] Hint Resolve quiet_sleep_uniform quiet_wait_for_timeout quiet_count
  quiet_is_visible : quiet.

Lemma quiet_type_chars text : quiet (type_chars text).
Proof. induction text as [|c text IH]; simpl; quiet_auto. Qed.

#[local] Hint Resolve quiet_type_chars : quiet.

Lemma quiet_human_type t text : quiet (human_type t text).
Proof. unfold human_type; quiet_auto. Qed.

Lemma quiet_human_click t : quiet (human_click t).
Proof. unfold human_click; quiet_auto. Qed.

#[local] Hint Resolve quiet_human_type quiet_human_click : quiet.

Lemma quiet_click_next : quiet click_next.
Proof. unfold click_next; quiet_auto. Qed.

Lemma quiet_random_mouse_noise : quiet random_mouse_noise.
Proof. unfold random_mouse_noise; quiet_auto. Qed.

Lemma quiet_close_open_listbox : quiet close_open_listbox.
Proof. unfold close_open_listbox; quiet_auto. Qed.

Lemma quiet_combobox_has_value t : quiet (combobox_has_value t).
Proof. unfold combobox_has_value; quiet_auto. Qed.

#[local] Hint Resolve quiet_click_next quiet_random_mouse_noise
  quiet_close_open_listbox quiet_combobox_has_value : quiet.

Lemma quiet_human_loop fuel start timeout_ms :
  quiet (human_loop fuel start timeout_ms).
Proof. induction fuel as [|fuel IH]; simpl; quiet_auto. Qed.

#[local] Hint Resolve quiet_human_loop : quiet.

Lemma quiet_wait_for_human_verification timeout_ms :
  quiet (wait_for_human_verification timeout_ms).
Proof. unfold wait_for_human_verification; quiet_auto. Qed.

#[local] Hint Resolve quiet_wait_for_human_verification : quiet.

Lemma quiet_accept_consent_if_present timeout_ms :
  quiet (accept_consent_if_present timeout_ms).
Proof. unfold accept_consent_if_present; quiet_auto. Qed.

#[local] Hint Resolve quiet_accept_consent_if_present : quiet.

Lemma quiet_consent_loop fuel deadline : quiet (consent_loop fuel deadline).
Proof. induction fuel as [|fuel IH]; simpl; quiet_auto. Qed.

#[local] Hint Resolve quiet_consent_loop : quiet.

Lemma quiet_accept_consent_with_retry t : quiet (accept_consent_with_retry t).
Proof. unfold accept_consent_with_retry; quiet_auto. Qed.

Lemma quiet_wait_for_and_accept_consent t :
  quiet (wait_for_and_accept_consent t).
Proof. unfold wait_for_and_accept_consent; quiet_auto. Qed.

Lemma quiet_save_debug_info name : quiet (save_debug_info name).
Proof. unfold save_debug_info; quiet_auto. Qed.

Lemma quiet_settle_interstitials : quiet settle_interstitials.
Proof. unfold settle_interstitials; quiet_auto. Qed.

#[local] Hint Resolve quiet_accept_consent_with_retry
  quiet_wait_for_and_accept_consent quiet_save_debug_info
  quiet_settle_interstitials : quiet.

Lemma quiet_open_dropdown t : quiet (open_dropdown t).
Proof. unfold open_dropdown; quiet_auto. Qed.

Lemma quiet_pick_option b texts : quiet (pick_option b texts).
Proof. induction texts as [|t texts IH]; simpl; quiet_auto. Qed.

Lemma quiet_press_down n : quiet (press_down n).
Proof. induction n as [|n IH]; simpl; quiet_auto. Qed.

#[local] Hint Resolve quiet_open_dropdown quiet_pick_option quiet_press_down
  : quiet.

Lemma quiet_dropdown_attempts n t texts i :
  quiet (dropdown_attempts n t texts i).
Proof. induction n as [|n IH]; simpl; quiet_auto. Qed.

#[local] Hint Resolve quiet_dropdown_attempts : quiet.

Lemma quiet_select_dropdown_option t texts i :
  quiet (select_dropdown_option t texts i).
Proof. unfold select_dropdown_option; quiet_auto. Qed.

Lemma quiet_generate_credentials : quiet generate_credentials.
Proof. unfold generate_credentials; quiet_auto. Qed.

#[local] Hint Resolve quiet_select_dropdown_option
  quiet_generate_credentials : quiet.

(** ** The returns that come before [save_to_excel] *)

Lemma flows_go_on : flows go_on.
Proof. apply keeps_ret; exact I. Qed.

Lemma flows_bind {A} (m : B A) (f : A -> B (option result)) :
  quiet m -> (forall a, flows (f a)) -> flows (bind m f).
Proof. intros Hm Hf; eapply keeps_bind; [exact Hm | intros a _; apply Hf]. Qed.

Lemma flows_check (m k : B (option result)) :
  flows m -> flows k -> flows (unless_returned m k).
Proof.
  intros Hm Hk; unfold unless_returned.
  eapply keeps_bind; [exact Hm|].
  intros [out|] H; [apply keeps_ret; exact H | exact Hk].
Qed.

Lemma flows_failure (message : string) (a : account) :
  U message <> U timeout_message ->
  flows (ret (Some (failure message a))).
Proof. intros H; apply keeps_ret; split; [reflexivity | exact H]. Qed.

Ltac other_message :=
  let H := fresh in intros H; vm_compute in H; discriminate.

Ltac flows_step :=
  match goal with
  | |- flows go_on => apply flows_go_on
  | |- flows (ret (Some (failure _ _))) =>
      apply flows_failure; other_message
  | |- flows (unless_returned _ _) => apply flows_check
  | |- flows (bind _ _) => apply flows_bind; [solve [quiet_auto] | intros ?]
  | |- flows (try_except _ _) => apply keeps_try; [| intros ?]
  | |- keeps ?m early_or_on => change (flows m)
  | |- flows (if ?b then _ else _) => destruct b
  | |- flows (match ?x with _ => _ end) => destruct x
  end.

Ltac flows_auto := repeat flows_step.

Lemma flows_settle a : flows (settle a).
Proof.
  unfold settle; flows_auto.
  apply keeps_ret; split; [reflexivity | other_message].
Qed.

Lemma flows_human_check a : flows (human_check a).
Proof. unfold human_check; flows_auto. Qed.

Lemma flows_find_email_input a : flows (find_email_input a).
Proof. unfold find_email_input; flows_auto. Qed.

Lemma flows_fill_email a : flows (fill_email a).
Proof. unfold fill_email; flows_auto. Qed.

Lemma flows_choose_birth native dropdown id value suffix name message a :
  U message <> U timeout_message ->
  flows (choose_birth native dropdown id value suffix name message a).
Proof.
  intros H; unfold choose_birth; flows_auto. apply flows_failure, H.
Qed.

Lemma flows_before_save a : flows (before_save a).
Proof.
  unfold before_save.
  repeat first
    [ apply flows_settle | apply flows_human_check
    | apply flows_find_email_input | apply flows_fill_email
    | apply flows_choose_birth; other_message
    | flows_step ].
Qed.

(** ** [save_to_excel] *)

(** [save_to_excel] returns, is counted once, and either leaves the
    file as it is or adds the record as its last row. *)
Lemma save_to_excel_spec (a : account) (s : state) :
  exists (b : bool) (s' : state),
    save_to_excel a s = (Ok b, s')
    /\ saves s' = S (saves s)
    /\ (excel s' = excel s
        \/ excel s' = Some (match excel s with
                            | Some rows => rows
                            | None => []
                            end ++ [a])).
Proof.
  unfold save_to_excel, bind, try_except, enter_save, file_rows, ask_, bind,
    ask, write_rows, ret; simpl.
  destruct (excel s) as [rows|]; simpl.
  - destruct (fails (outside s (List.length (calls s)) ReadExcel)); simpl;
      [do 2 eexists; repeat split; auto|].
    destruct (fails (outside s (List.length (calls s ++ [ReadExcel])) ToExcel));
      simpl; do 2 eexists; repeat split; auto.
  - destruct (fails (outside s (List.length (calls s)) ToExcel)); simpl;
      do 2 eexists; repeat split; auto.
Qed.

(** ** The count of the saves of a run *)

Lemma flow_body_saves (a : account) (s : state) :
  saved_by_part s (snd (flow_body a s)) (fst (flow_body a s)).
Proof.
  unfold flow_body, bind.
  destruct (flows_before_save a s) as (Hs & He & Hr).
  destruct (before_save a s) as [[[out|]|e|] s1]; simpl in Hs, He, Hr |- *.
  - destruct out as [[b m] a']. destruct Hr as [Hb Hm]; simpl in Hb, Hm.
    subst b. unfold saved_by_part, saved_by_outcome. rewrite Hs, He.
    intuition congruence.
  - destruct (save_to_excel_spec a s1) as (b & s2 & E & Hs2 & He2).
    rewrite E. unfold try_except, ask_, bind, ask.
    destruct (fails (outside s2 (List.length (calls s2)) WaitForUrl));
      simpl; unfold saved_by_part, saved_by_outcome, rows_of; simpl;
      rewrite Hs2, Hs; rewrite <- He; intuition congruence.
  - unfold saved_by_part, saved_by_outcome. rewrite Hs, He. auto.
  - unfold saved_by_part, saved_by_outcome. rewrite Hs. auto.
Qed.

Lemma saved_by_outcome_after (s s1 s' : state) (r : res result) :
  saves s1 = saves s -> excel s1 = excel s ->
  saved_by_outcome s1 s' r -> saved_by_outcome s s' r.
Proof.
  unfold saved_by_outcome, rows_of; intros Hs He; rewrite Hs, He; auto.
Qed.

Lemma saved_by_outcome_raise (s s' : state) (e : exn) :
  saves s' = saves s \/ saves s' = S (saves s) ->
  saved_by_outcome s s' (Raise e).
Proof. intros H; split; [exact H | exact I]. Qed.

(** The [try] of the flow with its [except] and its [finally]. *)
Lemma guarded_flow_saves (a : account) (s : state) :
  let run :=
    try_finally
      (try_except (flow_body a)
         (fun e =>
            save_debug_info "error_flow" ;;
            ret (false, U "Flow error: " ++ str_exn e, a)))
      (ask_ Close) in
  saved_by_outcome s (snd (run s)) (fst (run s)).
Proof.
  intros run; unfold run, try_finally, try_except.
  destruct (flow_body_saves a s) as [Hout Hraise].
  destruct (flow_body a s) as [[out|e|] s1]; simpl in Hout, Hraise.
  - destruct (quiet_ask_ Close s1) as (Hs & He & _).
    destruct (ask_ Close s1) as [[u|e|] s2]; simpl in Hs, He |- *.
    + unfold saved_by_outcome, rows_of in *. rewrite Hs, He. exact Hout.
    + apply saved_by_outcome_raise. rewrite Hs. apply Hout.
    + split; [rewrite Hs; apply Hout | exact I].
  - destruct Hraise as [Hs1 He1].
    destruct (quiet_save_debug_info "error_flow" s1) as (Hs2 & He2 & _).
    unfold bind.
    destruct (save_debug_info "error_flow" s1) as [[u|e'|] s2];
      simpl in Hs2, He2 |- *.
    + destruct (quiet_ask_ Close s2) as (Hs & He & _).
      destruct (ask_ Close s2) as [[u'|e'|] s3]; simpl in Hs, He |- *.
      * unfold saved_by_outcome. rewrite Hs, He, Hs2, He2, Hs1, He1.
        split; [left; reflexivity|]. split; [intros _; split; reflexivity|].
        intros E. exfalso. vm_compute in E. discriminate.
      * apply saved_by_outcome_raise. left; congruence.
      * split; [left; congruence | exact I].
    + destruct (quiet_ask_ Close s2) as (Hs & He & _).
      destruct (ask_ Close s2) as [[u'|e''|] s3]; simpl in Hs, He |- *;
        split; try exact I; left; congruence.
    + split; [left; congruence | exact I].
  - split; [apply Hout | exact I].
Qed.

Lemma saved_by_outcome_bind {A} (m : B A) (f : A -> B result) :
  quiet m ->
  (forall a s, saved_by_outcome s (snd (f a s)) (fst (f a s))) ->
  forall s, saved_by_outcome s (snd (bind m f s)) (fst (bind m f s)).
Proof.
  intros Hm Hf s; unfold bind. destruct (Hm s) as (Hs & He & _).
  destruct (m s) as [[a|e|] s1]; simpl in Hs, He |- *.
  - exact (saved_by_outcome_after s s1 _ _ Hs He (Hf a s1)).
  - apply saved_by_outcome_raise; left; exact Hs.
  - split; [left; exact Hs | exact I].
Qed.

(** C9 (amended): in every run of the registration flow, whatever the
    browser, the file system and the random generators answer,
    [save_to_excel] is entered at most once; exactly once when the run
    returns success; not at all, the Excel file being left as it was,
    when the run returns a failure other than the time-out of the final
    wait for the redirect; and once when the run returns that
    time-out. *)
Theorem save_to_excel_per_run :
  forall s : state,
    saved_by_outcome s (snd (run_registration_flow s))
      (fst (run_registration_flow s)).
Proof.
  unfold run_registration_flow.
  apply saved_by_outcome_bind; [apply quiet_generate_credentials|].
  intros a.
  repeat (apply saved_by_outcome_bind; [apply quiet_ask_ | intros _]).
  exact (guarded_flow_saves a).
Qed.

(** C9, as stated, fails: the record is saved before the flow waits for
    the final redirect, so that a run in which this wait times out
    returns a failure and has changed the Excel file. *)
Lemma failed_run_has_saved :
  exists (message : pystr) (a : account) (s' : state),
    run_registration_flow (fresh_state no_redirect_outside)
      = (Ok (false, message, a), s')
    /\ saves (fresh_state no_redirect_outside) = 0%nat
    /\ saves s' = 1%nat
    /\ excel (fresh_state no_redirect_outside) = None
    /\ excel s' = Some [a].
Proof.
  do 3 eexists.
  repeat match goal with |- _ /\ _ => split end; vm_compute; reflexivity.
Qed.

End RegisterFacts.

(* ================================================================== *)
(** * One run at a time *)
(* ================================================================== *)

Module SerializerFacts.
Import Serializer.

Lemma set_phase_same t p f : set_phase t p f t = p.
Proof. unfold set_phase; rewrite Nat.eqb_refl; reflexivity. Qed.

Lemma set_phase_other t u p f : u <> t -> set_phase t p f u = f u.
Proof.
  intros H; unfold set_phase.
  destruct (Nat.eqb_spec u t); [contradiction | reflexivity].
Qed.

Lemma set_phase_cases t u p f :
  (u = t /\ set_phase t p f u = p) \/ (u <> t /\ set_phase t p f u = f u).
Proof.
  destruct (Nat.eq_dec u t) as [->|H];
    [left; split; [reflexivity | apply set_phase_same]
    | right; split; [exact H | apply set_phase_other, H]].
Qed.

Lemma in_remove_first t u l : In u (remove_first t l) -> In u l.
Proof.
  induction l as [|x l IH]; simpl; [tauto|].
  destruct (Nat.eqb x t); simpl; tauto.
Qed.

Lemma in_remove_first_other t u l :
  u <> t -> In u l -> In u (remove_first t l).
Proof.
  intros H; induction l as [|x l IH]; simpl; [tauto|].
  destruct (Nat.eqb_spec x t); simpl; intuition congruence.
Qed.

Lemma nodup_remove_first t l : NoDup l -> NoDup (remove_first t l).
Proof.
  induction 1 as [|x l Hx Hl IH]; simpl; [constructor|].
  destruct (Nat.eqb x t); [exact Hl|].
  constructor; [intros H; apply Hx, (in_remove_first t x l H) | exact IH].
Qed.

Lemma not_in_remove_first t l : NoDup l -> ~ In t (remove_first t l).
Proof.
  induction 1 as [|x l Hx Hl IH]; simpl; [tauto|].
  destruct (Nat.eqb_spec x t) as [->|Hne]; [exact Hx|].
  simpl; intuition congruence.
Qed.

Lemma initial_consistent answers : consistent (initial answers).
Proof.
  split; simpl; try discriminate; try tauto. constructor.
Qed.

Lemma arrive_consistent s s' t :
  consistent s -> exec (Arrive t) s = Some s' -> consistent s'.
Proof.
  intros [A B C D E]; simpl.
  destruct (phase_of s t) eqn:Pt; try discriminate.
  intros H; injection H as <-.
  split; simpl.
  - intros u Hu. destruct (set_phase_cases t u Requested (phase_of s))
      as [[-> X]|[N X]]; rewrite X in Hu; [discriminate | eauto].
  - intros u v Hu Hv.
    destruct (set_phase_cases t u Requested (phase_of s))
      as [[-> X]|[N X]]; rewrite X in Hu; [discriminate|].
    destruct (set_phase_cases t v Requested (phase_of s))
      as [[-> Y]|[M Y]]; rewrite Y in Hv; [discriminate | eauto].
  - intros u Hu. destruct (set_phase_cases t u Requested (phase_of s))
      as [[-> X]|[N X]]; rewrite X in Hu; [discriminate | eauto].
  - intros u Hu. destruct (set_phase_cases t u Requested (phase_of s))
      as [[-> X]|[N X]]; rewrite X.
    + destruct (D t Hu); congruence.
    + exact (D u Hu).
  - exact E.
Qed.

Ltac phases :=
  repeat match goal with
         | H : context [set_phase ?t ?p ?f ?u] |- _ =>
             let X := fresh "X" in
             destruct (set_phase_cases t u p f) as [[? X]|[? X]];
             rewrite X in H; clear X; subst; try discriminate
         | |- context [set_phase ?t ?p ?f ?u] =>
             let X := fresh "X" in
             destruct (set_phase_cases t u p f) as [[? X]|[? X]];
             rewrite X; clear X; subst
         end.

Lemma nodup_snoc (t : nat) (l : list nat) :
  NoDup l -> ~ In t l -> NoDup (l ++ [t]).
Proof.
  induction 1 as [|x l Hx Hl IH]; simpl; intros Ht.
  - constructor; [tauto | constructor].
  - constructor.
    + rewrite in_app_iff; simpl; intuition congruence.
    + apply IH; tauto.
Qed.

Lemma start_consistent s s' t :
  consistent s -> exec (Start t) s = Some s' -> consistent s'.
Proof.
  intros [A B C D E]; simpl.
  destruct (phase_of s t) eqn:Pt; try discriminate.
  destruct (locked s) eqn:L; simpl.
  - (* the lock is held: the task joins the queue *)
    intros H; injection H as <-. split; simpl.
    + intros u Hu; phases; eauto.
    + intros u v Hu Hv; phases; eauto.
    + intros u Hu; phases. destruct (C u Hu); congruence.
    + intros u Hu; apply in_app_iff in Hu; simpl in Hu; phases; auto.
      destruct Hu as [Hu|[Hu|[]]]; [exact (D u Hu) | congruence].
    + apply nodup_snoc; [exact E|].
      intros Hin; destruct (D t Hin); congruence.
  - destruct (waiters s) as [|w ws] eqn:W; simpl.
    + (* free and nobody waiting: the task takes the lock *)
      intros H; injection H as <-. split; simpl.
      * reflexivity.
      * intros u v Hu Hv; phases; try reflexivity; exfalso;
          match goal with
          | H : phase_of s _ = Running |- _ =>
              pose proof (A _ H); discriminate
          end.
      * intros u Hu; phases. destruct (C u Hu) as [_ Hh]. discriminate.
      * tauto.
      * constructor.
    + (* free, but others wait: the task joins the queue *)
      intros H; injection H as <-. split; simpl.
      * intros u Hu; phases; eauto.
      * intros u v Hu Hv; phases; eauto.
      * intros u Hu; phases. destruct (C u Hu) as [Hl Hh].
        split; [exact Hl | exact Hh].
      * intros u Hu.
        assert (Hu' : In u (w :: ws) \/ u = t).
        { destruct Hu as [Hu|Hu]; [left; left; exact Hu|].
          apply in_app_iff in Hu; simpl in Hu.
          destruct Hu as [Hu|[Hu|[]]];
            [left; right; exact Hu | right; symmetry; exact Hu]. }
        clear Hu. phases; auto.
        destruct Hu' as [Hu|Hu]; [exact (D u Hu) | congruence].
      * change (w :: ws ++ [t]) with ((w :: ws) ++ [t]).
        apply nodup_snoc; [exact E|].
        intros Hin; destruct (D t Hin); congruence.
Qed.

Lemma resume_consistent s s' t :
  consistent s -> exec (Resume t) s = Some s' -> consistent s'.
Proof.
  intros [A B C D E]; simpl.
  destruct (phase_of s t) eqn:Pt; try discriminate.
  destruct (C t Pt) as [L Hh].
  intros H; injection H as <-. split; simpl.
  - reflexivity.
  - intros u v Hu Hv; phases; try reflexivity; exfalso;
      match goal with
      | H : phase_of s _ = Running |- _ =>
          pose proof (A _ H); congruence
      end.
  - intros u Hu; phases. destruct (C u Hu) as [_ Hh']. congruence.
  - intros u Hu. pose proof (not_in_remove_first t (waiters s) E) as Hn.
    phases; [contradiction|]. apply D, (in_remove_first t u _ Hu).
  - apply nodup_remove_first, E.
Qed.

Lemma finish_phases s t r u :
  consistent s -> phase_of s t = Running ->
  let f := wake_up_first (waiters s)
             (set_phase t (Finished r) (phase_of s)) in
  (u = t /\ f u = Finished r)
  \/ (u <> t /\ hd_error (waiters s) = Some u
      /\ phase_of s u = Waiting /\ f u = Woken)
  \/ (u <> t /\ hd_error (waiters s) <> Some u /\ f u = phase_of s u).
Proof.
  intros [A B C D E] Pt f.
  assert (Hnow : forall v, phase_of s v <> Woken).
  { intros v Hv. destruct (C v Hv) as [L _]. pose proof (A t Pt). congruence. }
  unfold f, wake_up_first.
  destruct (waiters s) as [|w ws] eqn:W; simpl.
  - destruct (set_phase_cases t u (Finished r) (phase_of s)) as [[-> X]|[N X]];
      [left; auto | right; right; repeat split; auto; discriminate].
  - assert (Hw : phase_of s w = Waiting).
    { destruct (D w) as [Hw|Hw]; [left; reflexivity | exact Hw|].
      contradiction (Hnow w Hw). }
    assert (Nw : w <> t) by (intros ->; congruence).
    rewrite (set_phase_other t w (Finished r) (phase_of s) Nw), Hw.
    destruct (Nat.eq_dec u t) as [->|N].
    + left; split; [reflexivity|].
      rewrite set_phase_other by (intros Heq; apply Nw; symmetry; exact Heq).
      apply set_phase_same.
    + destruct (Nat.eq_dec u w) as [->|M].
      * right; left; repeat split; auto. apply set_phase_same.
      * right; right; repeat split; auto.
        -- intros Heq; injection Heq as Heq; apply M; symmetry; exact Heq.
        -- rewrite set_phase_other by exact M.
           apply set_phase_other, N.
Qed.

Lemma finish_consistent s s' t :
  consistent s -> exec (Finish t) s = Some s' -> consistent s'.
Proof.
  intros Hs; pose proof Hs as [A B C D E]; simpl.
  destruct (phase_of s t) eqn:Pt; try discriminate.
  assert (Hnow : forall v, phase_of s v <> Woken).
  { intros v Hv. destruct (C v Hv) as [L _]. pose proof (A t Pt). congruence. }
  assert (Hgoal : forall r (x : Register.state),
     consistent
       {| locked := false; waiters := waiters s;
          phase_of := wake_up_first (waiters s)
                        (set_phase t (Finished r) (phase_of s));
          answers := answers s; excel := Register.excel x;
          saves := Register.saves x |}).
  { intros r x. split; simpl.
    - intros u Hu.
      destruct (finish_phases s t r u Hs Pt) as [[_ F]|[(_ & _ & _ & F)|(N & _ & F)]];
        rewrite F in Hu; try discriminate.
      contradiction N. exact (B u t Hu Pt).
    - intros u v Hu Hv.
      destruct (finish_phases s t r u Hs Pt) as [[_ F]|[(_ & _ & _ & F)|(N & _ & F)]];
        rewrite F in Hu; try discriminate.
      contradiction N. exact (B u t Hu Pt).
    - intros u Hu.
      destruct (finish_phases s t r u Hs Pt) as [[_ F]|[(_ & Hh & _ & F)|(N & _ & F)]];
        rewrite F in Hu; try discriminate.
      + split; [reflexivity | exact Hh].
      + contradiction (Hnow u Hu).
    - intros u Hu.
      destruct (finish_phases s t r u Hs Pt) as [[-> F]|[(_ & _ & _ & F)|(N & _ & F)]];
        rewrite F.
      + destruct (D t Hu); congruence.
      + right; reflexivity.
      + exact (D u Hu).
    - exact E. }
  destruct (run_of s t) as [[r|e|] x]; try discriminate;
    intros H; injection H as <-; apply Hgoal.
Qed.

Lemma exec_consistent e s s' :
  consistent s -> exec e s = Some s' -> consistent s'.
Proof.
  destruct e;
    [apply arrive_consistent | apply start_consistent
    | apply resume_consistent | apply finish_consistent].
Qed.

Lemma run_consistent events :
  forall s s', consistent s -> run events s = Some s' -> consistent s'.
Proof.
  induction events as [|e events IH]; simpl; intros s s' Hs H.
  - injection H as <-; exact Hs.
  - destruct (exec e s) as [s1|] eqn:E; [|discriminate].
    exact (IH s1 s' (exec_consistent e s s1 Hs E) H).
Qed.

Lemma start_queues s t :
  consistent s -> (exists u, active s u) -> phase_of s t = Requested ->
  exists s', exec (Start t) s = Some s'
             /\ phase_of s' t = Waiting /\ queued s' t.
Proof.
  intros Hs [u Hu] Pt; simpl. rewrite Pt.
  rewrite (running_locked Hs u Hu); simpl.
  eexists; split; [reflexivity|]. unfold queued; simpl.
  rewrite set_phase_same. repeat split; auto.
  apply in_app_iff; right; left; reflexivity.
Qed.

Lemma queued_stays e s s' t :
  consistent s -> exec e s = Some s' -> queued s t ->
  queued s' t \/ active s' t.
Proof.
  intros Hs He [Hin Hp].
  assert (Hq : phase_of s t <> Absent /\ phase_of s t <> Requested
               /\ phase_of s t <> Running)
    by (destruct Hp as [Hp|Hp]; rewrite Hp; repeat split; discriminate).
  destruct Hq as (Ha & Hr & Hn).
  destruct e as [x|x|x|x]; simpl in He.
  - destruct (phase_of s x) eqn:Px; try discriminate.
    injection He as <-. left; split; simpl; [exact Hin|].
    rewrite set_phase_other by (intros ->; congruence). exact Hp.
  - destruct (phase_of s x) eqn:Px; try discriminate.
    assert (Nx : t <> x) by (intros ->; congruence).
    destruct (negb (locked s) &&
              match waiters s with [] => true | _ :: _ => false end);
      injection He as <-; left; split; simpl;
      rewrite ?set_phase_other by exact Nx; auto.
    apply in_app_iff; left; exact Hin.
  - destruct (phase_of s x) eqn:Px; try discriminate.
    injection He as <-.
    destruct (Nat.eq_dec t x) as [->|Nx].
    + right; unfold active; simpl. apply set_phase_same.
    + left; split; simpl.
      * apply in_remove_first_other; assumption.
      * rewrite set_phase_other by exact Nx. exact Hp.
  - destruct (phase_of s x) eqn:Px; try discriminate.
    assert (Hf : forall r, queued
              {| locked := false; waiters := waiters s;
                 phase_of := wake_up_first (waiters s)
                               (set_phase x (Finished r) (phase_of s));
                 answers := answers s; excel := excel s';
                 saves := saves s' |} t).
    { intros r; split; simpl; [exact Hin|].
      destruct (finish_phases s x r t Hs Px)
        as [[-> F]|[(_ & _ & _ & F)|(_ & _ & F)]].
      - congruence.
      - right; exact F.
      - rewrite F; exact Hp. }
    destruct (run_of s x) as [[r|e|] y]; try discriminate;
      injection He as <-; left; apply Hf.
Qed.

(** C10: in every state that the process reaches, whatever the order in
    which the commands arrive and the tasks run, at most one task is
    inside the lock, that is at most one browser run is active; a task
    that starts while a run is active is not refused: it joins the queue
    of the lock and waits; and a task in the queue stays in the queue
    until it holds the lock itself. *)
Theorem one_run_at_a_time :
  forall (answers : nat -> nat -> Register.call -> Register.reply)
         (events : list event) (s : system),
    run events (initial answers) = Some s ->
    (forall t u, active s t -> active s u -> t = u)
    /\ (forall t, (exists u, active s u) -> phase_of s t = Requested ->
                  exists s', exec (Start t) s = Some s'
                             /\ phase_of s' t = Waiting /\ queued s' t)
    /\ (forall e s' t, exec e s = Some s' -> queued s t ->
                       queued s' t \/ active s' t).
Proof.
  intros answers events s Hrun.
  pose proof (run_consistent events _ s (initial_consistent answers) Hrun)
    as Hs.
  split; [exact (running_alone Hs)|].
  split; [intros t; exact (start_queues s t Hs)|].
  intros e s' t; exact (queued_stays e s s' t Hs).
Qed.

(** Two commands: the first task holds the lock, the second arrives and
    starts while the first runs. *)
Lemma one_run_at_a_time_witness :
  exists s s',
    run [Arrive 0; Start 0; Arrive 1] (initial (fun _ => quiet_outside))
      = Some s
    /\ active s 0
    /\ exec (Start 1) s = Some s'
    /\ phase_of s' 1 = Waiting
    /\ waiters s' = [1].
Proof.
  eexists.
  destruct (proj1 (proj2 (one_run_at_a_time (fun _ => quiet_outside)
                            [Arrive 0; Start 0; Arrive 1] _ eq_refl))
              1) as (s' & He & Hp & Hq).
  - exists 0; reflexivity.
  - reflexivity.
  - exists s'. split; [reflexivity|]. split; [reflexivity|].
    split; [exact He|]. split; [exact Hp|].
    simpl in He. injection He as <-. reflexivity.
Defined.

End SerializerFacts.

Lemma search_some (r : regex) (s : pystr) (i n : nat) :
  search r s = Some (i, n) ->
  match_here r (skipn i s) = Some n
  /\ forall j, j < i -> match_here r (skipn j s) = None.
Proof.
  revert i; induction s as [|c s IH]; intros i; simpl.
  - destruct (match_here r []) as [m|] eqn:E; [|discriminate].
    intros H; injection H as <- <-. split; [exact E | intros j Hj; lia].
  - destruct (match_here r (c :: s)) as [m|] eqn:E.
    + intros H; injection H as <- <-. split; [exact E | intros j Hj; lia].
    + destruct (search r s) as [[i' n']|] eqn:S; [|discriminate].
      intros H; injection H as <- <-.
      destruct (IH i' eq_refl) as [H1 H2].
      split; [exact H1|].
      intros [|j] Hj; [exact E | simpl; apply H2; lia].
Qed.

Lemma after_key_split (key s rest : pystr) :
  after_key key s = Some rest ->
  exists k, s = k ++ rest /\ List.length k = List.length key
            /\ after_key key k = Some [].
Proof.
  revert s; induction key as [|l key IH]; intros s; simpl.
  - intros H; injection H as <-. exists []; auto.
  - destruct s as [|c s]; [discriminate|].
    destruct (lit_ci l c) eqn:L; [|discriminate].
    intros H; destruct (IH s H) as (k & -> & Hl & Hk).
    exists (c :: k); simpl; rewrite L; auto.
Qed.

Lemma star_longest (p : N -> bool) (s : pystr) (n : nat) :
  star p (fun _ => Some O) s = Some n ->
  exists run rest,
    s = run ++ rest /\ List.length run = n /\ forallb p run = true
    /\ match rest with [] => True | c :: _ => p c = false end.
Proof.
  revert n; induction s as [|c s IH]; intros n; simpl.
  - intros H; injection H as <-. exists [], []; auto.
  - destruct (p c) eqn:P.
    + destruct (star p (fun _ => Some O) s) as [m|] eqn:E.
      * intros H; injection H as <-.
        destruct (IH m eq_refl) as (run & rest & -> & Hl & Hp & Hr).
        exists (c :: run), rest; simpl; rewrite P, Hl; auto.
      * exfalso; revert E; apply star_accepts; discriminate.
    + intros H; injection H as <-. exists [], (c :: s); simpl; auto.
Qed.

Lemma match_id_some (s : pystr) (n : nat) :
  match_here verification_id_re s = Some n ->
  exists key id rest,
    s = key ++ id ++ rest
    /\ after_key verification_id_key key = Some []
    /\ List.length key = List.length verification_id_key
    /\ n = List.length key + List.length id
    /\ id <> [] /\ forallb hex_ci id = true
    /\ match rest with [] => True | c :: _ => hex_ci c = false end.
Proof.
  unfold verification_id_re; rewrite match_here_lits.
  destruct (after_key verification_id_key s) as [t|] eqn:K; [|discriminate].
  destruct (after_key_split _ _ _ K) as (key & -> & Hl & Hk).
  destruct t as [|c t]; [discriminate|]. simpl match_here.
  destruct (hex_ci c) eqn:Hc; [|discriminate].
  destruct (star hex_ci (fun _ => Some O) t) as [m|] eqn:E; [|discriminate].
  simpl. intros H; injection H as <-.
  destruct (star_longest _ _ _ E) as (run & rest & -> & Hm & Hp & Hr).
  exists key, (c :: run), rest. simpl. rewrite Hc, Hl, Hm.
  repeat split; auto; discriminate.
Qed.

Lemma id_at_match (s : pystr) :
  id_at s = true -> match_here verification_id_re s <> None.
Proof.
  unfold id_at, verification_id_re; intros H.
  rewrite match_here_lits.
  destruct (after_key verification_id_key s) as [[|h rest]|];
    try discriminate.
  simpl match_here. rewrite H.
  destruct (star hex_ci (fun _ => Some O) rest) as [m|] eqn:E;
    [discriminate|].
  exfalso; revert E; apply star_accepts; discriminate.
Qed.

Lemma search_found (r : regex) (s : pystr) (j : nat) :
  match_here r (skipn j s) <> None -> search r s <> None.
Proof.
  revert j; induction s as [|c s IH]; intros j H.
  - rewrite skipn_nil in H. simpl.
    destruct (match_here r []); [discriminate | contradiction].
  - simpl. destruct (match_here r (c :: s)) eqn:E; [discriminate|].
    destruct j as [|j]; [simpl in H; contradiction|].
    simpl in H. specialize (IH j H).
    destruct (search r s) as [[i n]|]; [discriminate | contradiction].
Qed.

Lemma has_verification_id_at (url : pystr) :
  has_verification_id url = true -> exists j, id_at (skipn j url) = true.
Proof.
  induction url as [|c url IH]; rewrite has_verification_id_eq;
    intros H; apply orb_true_iff in H; destruct H as [H|H].
  - exists O; exact H.
  - discriminate.
  - exists O; exact H.
  - destruct (IH H) as [j Hj]. exists (S j); exact Hj.
Qed.

Lemma parse_verification_id_match (url id : pystr) :
  parse_verification_id url = Some id ->
  exists i key rest,
    skipn i url = key ++ id ++ rest
    /\ after_key verification_id_key key = Some []
    /\ id <> [] /\ forallb hex_ci id = true
    /\ match rest with [] => True | c :: _ => hex_ci c = false end
    /\ forall j, j < i -> match_here verification_id_re (skipn j url) = None.
Proof.
  unfold parse_verification_id.
  destruct (search verification_id_re url) as [[i n]|] eqn:S; [|discriminate].
  destruct (search_some _ _ _ _ S) as [Hm Hfirst].
  destruct (match_id_some _ _ Hm) as
    (key & id' & rest & E & Hk & Hl & -> & Hne & Hhex & Hr).
  assert (G : skipn (List.length verification_id_key)
                (group0 url (i, List.length key + List.length id')) = id').
  { unfold group0.
    change (fst (i, List.length key + List.length id')) with i.
    change (snd (i, List.length key + List.length id'))
      with (List.length key + List.length id').
    rewrite E, <- Hl, app_assoc, <- length_app, firstn_app, firstn_all.
    rewrite Nat.sub_diag, firstn_0, app_nil_r.
    rewrite skipn_app, skipn_all, Nat.sub_diag. reflexivity. }
  rewrite G. intros H; injection H as <-.
  exists i, key, rest. repeat split; auto.
Qed.

Lemma parse_verification_id_nonempty (url id : pystr) :
  parse_verification_id url = Some id -> exists c rest, id = c :: rest.
Proof.
  intros H. destruct (parse_verification_id_match url id H)
    as (_ & _ & _ & _ & _ & Hne & _).
  destruct id as [|c rest]; [contradiction Hne; reflexivity | eauto].
Qed.

(** X1.  The id that [parse_verification_id] returns: the URL reads
    [before ++ key ++ id ++ rest], where [key] is the text
    [verificationId=] up to letter case, [id] is a non-empty run of
    hexadecimal digits that is as long as possible (it is followed by
    the end of the URL or by a character that is no hexadecimal digit),
    and no earlier place of the URL holds the key followed by a
    hexadecimal digit. *)
Theorem parse_verification_id_some (url id : pystr) :
  parse_verification_id url = Some id ->
  exists before key rest,
    url = before ++ key ++ id ++ rest
    /\ after_key verification_id_key key = Some []
    /\ id <> [] /\ forallb hex_ci id = true
    /\ match rest with [] => True | c :: _ => hex_ci c = false end
    /\ forall j, j < List.length before -> id_at (skipn j url) = false.
Proof.
  intros H.
  destruct (parse_verification_id_match url id H)
    as (i & key & rest & E & Hk & Hne & Hhex & Hr & Hfirst).
  exists (firstn i url), key, rest.
  rewrite <- E, firstn_skipn.
  repeat split; auto.
  intros j Hj. rewrite length_firstn in Hj.
  destruct (id_at (skipn j url)) eqn:A; [|reflexivity].
  exfalso. apply (id_at_match _ A). apply Hfirst. lia.
Qed.

Lemma parse_verification_id_some_witness :
  parse_verification_id (U "https://x/?verificationId=abc123ef&k=1")
  = Some (U "abc123ef")
  /\ exists before key rest,
       U "https://x/?verificationId=abc123ef&k=1"
       = before ++ key ++ U "abc123ef" ++ rest
       /\ after_key verification_id_key key = Some []
       /\ U "abc123ef" <> [] /\ forallb hex_ci (U "abc123ef") = true
       /\ match rest with [] => True | c :: _ => hex_ci c = false end
       /\ forall j, j < List.length before ->
            id_at (skipn j (U "https://x/?verificationId=abc123ef&k=1"))
            = false.
Proof.
  split; [vm_compute; reflexivity|].
  apply (parse_verification_id_some
           (U "https://x/?verificationId=abc123ef&k=1") (U "abc123ef")).
  vm_compute; reflexivity.
Defined.

(** X2.  Every URL that holds, at some place and letter case ignored,
    the key [verificationId=] followed by a hexadecimal digit parses to
    an id: together with the reading of [None], [parse_verification_id]
    returns [None] exactly for the URLs without such a place. *)
Theorem parse_verification_id_finds (url : pystr) :
  has_verification_id url = true ->
  exists id, parse_verification_id url = Some id.
Proof.
  intros H. destruct (has_verification_id_at _ H) as [j Hj].
  pose proof (search_found verification_id_re url j (id_at_match _ Hj)) as S.
  unfold parse_verification_id.
  destruct (search verification_id_re url) as [m|];
    [eexists; reflexivity | contradiction].
Qed.

Lemma parse_verification_id_finds_witness :
  has_verification_id (U "https://x/verify?a=1&VerificationID=0F") = true
  /\ exists id,
       parse_verification_id (U "https://x/verify?a=1&VerificationID=0F")
       = Some id.
Proof.
  split; [vm_compute; reflexivity|].
  apply (parse_verification_id_finds
           (U "https://x/verify?a=1&VerificationID=0F")).
  vm_compute; reflexivity.
Defined.

Lemma first_link_some (ps : list regex) (content url : pystr) :
  first_link ps content = Some url ->
  exists earlier pattern later first others,
    ps = earlier ++ pattern :: later
    /\ Forall (fun p => findall p content = []) earlier
    /\ findall pattern content = first :: others
    /\ url = clean_link first.
Proof.
  induction ps as [|p ps IH]; simpl; [discriminate|].
  destruct (findall p content) as [|m ms] eqn:F.
  - intros H. destruct (IH H) as (e & q & l & f & o & -> & He & Hq & Hu).
    exists (p :: e), q, l, f, o; repeat split; auto.
  - intros H; injection H as <-.
    exists [], p, ps, m, ms; repeat split; auto.
Qed.

Lemma patterns_plain : Forall plain patterns.
Proof. repeat constructor; discriminate. Qed.

Lemma patterns_within : Forall (fun r => Forall (within url_char) r) patterns.
Proof.
  repeat constructor; intros c;
    try (apply lit_ci_url_char; reflexivity); exact (fun H => H).
Qed.

Lemma patterns_head (pattern : regex) (u : pystr) :
  In pattern patterns -> matches pattern u ->
  exists c rest, u = c :: rest /\ lit_ci 104 c = true.
Proof.
  intros Hin M.
  assert (H : exists r, pattern = Chr (lit_ci 104) One :: r).
  { destruct Hin as [<-|[<-|[<-|[<-|[]]]]]; eexists; reflexivity. }
  destruct H as [r ->]. destruct M as (c & rest & -> & Hc & _).
  exists c, rest; auto.
Qed.

Lemma findall_occurs (r : regex) (s m : pystr) (ms : list pystr) :
  plain r -> findall r s = m :: ms ->
  exists before after, s = before ++ m ++ after /\ matches r m.
Proof.
  intros Hp Hf.
  destruct (findall_first _ _ _ _ Hf) as (before & t & n & -> & Hm & ->).
  destruct (match_here_sound r Hp t n Hm) as (u & t' & -> & Hn & M).
  exists before, t'. subst n.
  rewrite firstn_app, Nat.sub_diag, firstn_all, firstn_0, app_nil_r.
  auto.
Qed.

(** X3.  Whenever [_extract_verification_url] returns a link, the link
    is the first match, in the text of the message, of the first of the
    four patterns that matches at all, with every [&amp;] replaced by
    [&] and nothing else changed: the second clean-up step ([re.sub] on
    a quote or [>]) never removes anything.  The link holds no white
    space, no quote and no angle bracket, and starts with the letter
    [h] of [http], in either case. *)
Theorem extract_verification_url_clean (message : pyval) (url : pystr) :
  _extract_verification_url message = inr (Some url) ->
  exists (html text : pyval) (before first after : pystr)
         (earlier : list regex) (pattern : regex) (later : list regex),
    get_default message (U "html") (PStr []) = inr html
    /\ get_default message (U "text") (PStr []) = inr text
    /\ content_of (or_empty html) (or_empty text)
       = inr (before ++ first ++ after)
    /\ patterns = earlier ++ pattern :: later
    /\ Forall (fun p => findall p (before ++ first ++ after) = []) earlier
    /\ hd_error (findall pattern (before ++ first ++ after)) = Some first
    /\ matches pattern first
    /\ url = replace (U "&amp;") (U "&") first
    /\ forallb url_char url = true
    /\ exists c rest, url = c :: rest /\ lit_ci 104 c = true.
Proof.
  unfold _extract_verification_url, bindE.
  destruct (get_default message (U "html") (PStr [])) as [e|html];
    [discriminate|].
  destruct (get_default message (U "text") (PStr [])) as [e|text];
    [discriminate|].
  destruct (content_of (or_empty html) (or_empty text)) as [e|content]
    eqn:Ec; [discriminate|].
  intros H.
  assert (H' : first_link patterns content = Some url)
    by (injection H as H; exact H).
  clear H.
  destruct (first_link_some _ _ _ H')
    as (earlier & pattern & later & first & others & Ep & He & Hf & ->).
  assert (Hin : In pattern patterns).
  { rewrite Ep; apply in_or_app; right; left; reflexivity. }
  pose proof (proj1 (Forall_forall _ _) patterns_plain _ Hin) as Hplain.
  pose proof (proj1 (Forall_forall _ _) patterns_within _ Hin) as Hwithin.
  destruct (findall_occurs _ _ _ _ Hplain Hf) as (before & after & -> & M).
  pose proof (matches_within url_char pattern Hwithin first M) as Hchars.
  destruct (patterns_head _ _ Hin M) as (c & rest & -> & Hc).
  assert (Hamp : c <> 38%N).
  { revert Hc; apply lit_ci_not; reflexivity. }
  exists html, text, before, (c :: rest), after, earlier, pattern, later.
  rewrite Hf, (clean_link_unescape _ Hchars).
  repeat match goal with |- _ /\ _ => split end; auto.
  - change (replace (U "&amp;") (U "&") (c :: rest))
      with (unescape (c :: rest)).
    apply replace_from_within; [reflexivity | exact Hchars].
  - exists c, (unescape rest); split; [|exact Hc].
    apply unescape_other, Hamp.
Qed.

Lemma extract_verification_url_clean_witness :
  _extract_verification_url two_links_message
  = inr (Some (U "https://services.sheerid.com/verify/abc?t=1&u=2"))
  /\ exists (html text : pyval) (before first after : pystr)
         (earlier : list regex) (pattern : regex) (later : list regex),
    get_default two_links_message (U "html") (PStr []) = inr html
    /\ get_default two_links_message (U "text") (PStr []) = inr text
    /\ content_of (or_empty html) (or_empty text)
       = inr (before ++ first ++ after)
    /\ patterns = earlier ++ pattern :: later
    /\ Forall (fun p => findall p (before ++ first ++ after) = []) earlier
    /\ hd_error (findall pattern (before ++ first ++ after)) = Some first
    /\ matches pattern first
    /\ U "https://services.sheerid.com/verify/abc?t=1&u=2"
       = replace (U "&amp;") (U "&") first
    /\ forallb url_char (U "https://services.sheerid.com/verify/abc?t=1&u=2")
       = true
    /\ exists c rest,
         U "https://services.sheerid.com/verify/abc?t=1&u=2" = c :: rest
         /\ lit_ci 104 c = true.
Proof.
  split; [vm_compute; reflexivity|].
  apply (extract_verification_url_clean two_links_message
           (U "https://services.sheerid.com/verify/abc?t=1&u=2")).
  vm_compute; reflexivity.
Defined.

Lemma content_of_str (a b : pyval) (content : pystr) :
  content_of a b = inr content ->
  exists h t, a = PStr h /\ b = PStr t /\ content = h ++ t.
Proof.
  destruct a, b; simpl; try discriminate;
    try (destruct (_ && _); discriminate).
  intros H; injection H as <-. eauto.
Qed.

(** X4.  [_extract_verification_url] returns (a link or [None]) exactly
    for the messages that are dictionaries whose [html] and [text]
    entries are each a string or a false value; on every other message
    it raises.  In particular a message whose [html] entry is a
    non-empty list makes it raise a [TypeError]. *)
Theorem extract_verification_url_returns (message : pyval) :
  ((exists r, _extract_verification_url message = inr r)
   <-> exists (html text : pyval) (h t : pystr),
         get_default message (U "html") (PStr []) = inr html
         /\ get_default message (U "text") (PStr []) = inr text
         /\ or_empty html = PStr h /\ or_empty text = PStr t)
  /\ forall (part : pyval) (parts : list pyval),
       get_default message (U "html") (PStr []) = inr (PList (part :: parts))
       -> exists msg, _extract_verification_url message = inl (TypeError msg).
Proof.
  unfold _extract_verification_url, bindE. split; [split|].
  - intros [r H].
    destruct (get_default message (U "html") (PStr [])) as [e|html];
      [discriminate|].
    destruct (get_default message (U "text") (PStr [])) as [e|text];
      [discriminate|].
    destruct (content_of (or_empty html) (or_empty text)) as [e|content]
      eqn:Ec; [discriminate|].
    destruct (content_of_str _ _ _ Ec) as (h & t & Hh & Ht & _).
    exists html, text, h, t; auto.
  - intros (html & text & h & t & -> & -> & -> & ->).
    eexists; reflexivity.
  - intros part parts H. rewrite H.
    destruct message; try discriminate.
    cbn [get_default].
    change (or_empty (PList (part :: parts))) with (PList (part :: parts)).
    destruct (or_empty _); simpl; eexists; reflexivity.
Qed.

Lemma extract_verification_url_returns_witness :
  get_default (PDict [(U "html", PList [PStr (U "<p>x</p>")]);
                      (U "text", PStr (U "x"))]) (U "html") (PStr [])
  = inr (PList [PStr (U "<p>x</p>")])
  /\ exists msg,
       _extract_verification_url
         (PDict [(U "html", PList [PStr (U "<p>x</p>")]);
                 (U "text", PStr (U "x"))])
       = inl (TypeError msg).
Proof.
  split; [vm_compute; reflexivity|].
  apply (proj2 (extract_verification_url_returns
                  (PDict [(U "html", PList [PStr (U "<p>x</p>")]);
                          (U "text", PStr (U "x"))]))
           (PStr (U "<p>x</p>")) []).
  vm_compute; reflexivity.
Defined.

(* ================================================================== *)
(** * The mailbox client: what its operations never do *)
(* ================================================================== *)

Lemma returns_ret {A} (a : A) : returns (ret a).
Proof. intros w; exists a, w; reflexivity. Qed.

Lemma returns_try {A} (m : M A) (h : exn -> M A) :
  steady m -> (forall e, returns (h e)) -> returns (try_except m h).
Proof.
  intros Hm Hh w; unfold try_except; specialize (Hm w).
  destruct (m w) as [[a|e|] w1]; [eauto | apply Hh | contradiction].
Qed.

Lemma returns_with_mailbox {A} (f : TempEmailService -> M A) :
  (forall self, returns (f self)) -> returns (bind self_mailbox f).
Proof. intros H w; exact (H (mailbox w) w). Qed.

(** X5.  The operations of the mailbox client that send a request never
    raise, whatever the network answers (an error status, a body that is
    no JSON document, a document of another shape, a transport error):
    each of them ends with a value. *)
Theorem mailbox_operations_never_raise :
  returns get_available_domain
  /\ returns _login
  /\ (forall first_name last_name, returns (create_account first_name last_name))
  /\ returns get_messages
  /\ (forall message_id, returns (get_message_content message_id))
  /\ (forall url, returns (click_verification_link url)).
Proof.
  repeat match goal with |- _ /\ _ => split end.
  - apply returns_try; [steady_auto | intros; apply returns_ret].
  - apply returns_try; [steady_auto | intros; apply returns_ret].
  - intros f l. apply returns_try; [steady_auto | intros; apply returns_ret].
  - apply returns_with_mailbox; intros self.
    destruct (negb (truthy (token self))); [apply returns_ret|].
    apply returns_try; [steady_auto | intros; apply returns_ret].
  - intros id. apply returns_with_mailbox; intros self.
    destruct (negb (truthy (token self))); [apply returns_ret|].
    apply returns_try; [steady_auto | intros; apply returns_ret].
  - intros url. apply returns_try; [| intros; apply returns_ret].
    repeat (steady_step || cbv zeta).
Qed.

(* ================================================================== *)
(** * Polling the mailbox *)
(* ================================================================== *)

Lemma poll_timeout_elapsed (start_time max_wait poll_interval : Z)
    (fuel : nat) :
  forall w w', poll fuel start_time max_wait poll_interval w = (Ok None, w') ->
               (max_wait * 1000 <= now w' - start_time)%Z.
Proof.
  induction fuel as [|fuel IH]; intros w w'; [discriminate|].
  rewrite poll_round_eq.
  destruct (Z.ltb_spec (now w - start_time) (max_wait * 1000)) as [Hlt|Hge].
  - destruct (poll_round w) as [[[url|]|e|] w1]; try discriminate.
    destruct (poll_interval <? 0)%Z; [discriminate|]. apply IH.
  - intros H; injection H as <-. exact Hge.
Qed.

(** X6.  [wait_for_sheerid_email] never gives up early: when it returns
    [None], at least [max_wait] seconds have passed on the clock since
    the call. *)
Theorem wait_for_sheerid_email_waits (max_wait poll_interval : Z)
    (w w' : world) :
  wait_for_sheerid_email max_wait poll_interval w = (Ok None, w') ->
  (max_wait * 1000 <= now w' - now w)%Z.
Proof.
  unfold wait_for_sheerid_email, bind, time_time.
  apply poll_timeout_elapsed.
Qed.

Lemma wait_for_sheerid_email_waits_witness :
  wait_for_sheerid_email 60 5 (world_of plain_verifier fresh_service [])
  = (Ok None, advance 60000 (world_of plain_verifier fresh_service []))
  /\ (60 * 1000
      <= now (advance 60000 (world_of plain_verifier fresh_service []))
         - now (world_of plain_verifier fresh_service []))%Z.
Proof.
  split; [vm_compute; reflexivity|].
  apply (wait_for_sheerid_email_waits 60 5
           (world_of plain_verifier fresh_service [])).
  vm_compute; reflexivity.
Defined.

Lemma poll_round_logged_out (w : world) :
  truthy (token (mailbox w)) = false -> poll_round w = (Ok None, w).
Proof.
  intros H; unfold poll_round, get_messages, bind, self_mailbox.
  rewrite H; reflexivity.
Qed.

Lemma poll_logged_out (start_time max_wait poll_interval : Z) (fuel : nat) :
  (0 <= poll_interval)%Z ->
  forall w, truthy (token (mailbox w)) = false ->
    match poll fuel start_time max_wait poll_interval w with
    | (Ok None, w') =>
        sent w' = sent w /\ net w' = net w /\ mailbox w' = mailbox w
    | (Diverge, _) => True
    | _ => False
    end.
Proof.
  intros Hpos; induction fuel as [|fuel IH]; intros w Hw; [exact I|].
  rewrite poll_round_eq, (poll_round_logged_out w Hw).
  destruct (now w - start_time <? max_wait * 1000)%Z; [|auto].
  destruct (Z.ltb_spec poll_interval 0) as [Hneg|_]; [lia|].
  apply (IH (advance (poll_interval * 1000) w) Hw).
Qed.

(** X7.  On a mailbox that holds no token (no account was created, or
    the login failed) [wait_for_sheerid_email] sends no request at all:
    it sleeps until the ceiling and returns [None], the requests sent,
    the answers to come and the mailbox being as before. *)
Theorem wait_for_sheerid_email_logged_out (max_wait poll_interval : Z)
    (w : world) :
  (0 <= max_wait)%Z -> (0 < poll_interval)%Z ->
  truthy (token (mailbox w)) = false ->
  exists w',
    wait_for_sheerid_email max_wait poll_interval w = (Ok None, w')
    /\ sent w' = sent w /\ net w' = net w /\ mailbox w' = mailbox w
    /\ (max_wait * 1000 <= now w' - now w)%Z.
Proof.
  intros Hmax Hpos Hw.
  pose proof (steady_wait_for_sheerid_email max_wait poll_interval Hmax Hpos w)
    as Hs.
  pose proof (poll_timeout_elapsed (now w) max_wait poll_interval
                (poll_fuel max_wait poll_interval) w) as Ht.
  revert Hs. unfold wait_for_sheerid_email, bind, time_time.
  pose proof (poll_logged_out (now w) max_wait poll_interval
                (poll_fuel max_wait poll_interval) (Z.lt_le_incl _ _ Hpos)
                w Hw) as Hp.
  destruct (poll (poll_fuel max_wait poll_interval) (now w) max_wait
              poll_interval w) as [[[url|]|e|] w']; try contradiction.
  intros _. exists w'. destruct Hp as (H1 & H2 & H3).
  repeat match goal with |- _ /\ _ => split end; auto.
Qed.

Lemma wait_for_sheerid_email_logged_out_witness :
  exists w',
    wait_for_sheerid_email 90 5 (world_of plain_verifier fresh_service
                                   [empty_inbox])
    = (Ok None, w')
    /\ sent w' = []
    /\ net w' = [empty_inbox]
    /\ mailbox w' = fresh_service
    /\ (90 * 1000 <= now w' - 1700000000000)%Z.
Proof.
  apply (wait_for_sheerid_email_logged_out 90 5
           (world_of plain_verifier fresh_service [empty_inbox]));
    [lia | lia | reflexivity].
Defined.

Lemma bind_ext {A B} (m : M A) (f g : A -> M B) (w : world) :
  (forall a w', f a w' = g a w') -> bind m f w = bind m g w.
Proof.
  intros H; unfold bind. destruct (m w) as [[a|e|] w1]; auto.
Qed.

(** X8.  The loop over the listed messages passes over every message
    whose sender and subject name neither [sheerid] nor [verify],
    without a request: when the test raises on no message of the list,
    the loop does on the whole list what it does on the messages that
    pass the test, taken in their order. *)
Theorem scan_messages_related (messages : list pyval) (w : world) :
  Forall (fun msg => exists hit, from_sheerid msg = inr hit) messages ->
  scan_messages messages w = scan_messages (filter related messages) w.
Proof.
  intros H; revert w; induction H as [|msg rest [hit Hmsg] _ IH]; intros w;
    [reflexivity|].
  cbn [filter]. unfold related. rewrite Hmsg.
  destruct hit; cbn [scan_messages]; rewrite Hmsg; [|exact (IH w)].
  apply bind_ext; intros [|] w1; [|exact (IH w1)].
  apply bind_ext; intros id w2. apply bind_ext; intros content w3.
  destruct (truthy content); [|exact (IH w3)].
  apply bind_ext; intros [[|c u]|] w4; try reflexivity; apply IH.
Qed.

Lemma scan_messages_related_witness :
  scan_messages
    [PDict [(U "id", PStr (U "m1"));
            (U "from", PDict [(U "address", PStr (U "news@example.com"))]);
            (U "subject", PStr (U "Welcome"))]]
    (world_of plain_verifier fresh_service [])
  = scan_messages
      (filter related
         [PDict [(U "id", PStr (U "m1"));
                 (U "from",
                  PDict [(U "address", PStr (U "news@example.com"))]);
                 (U "subject", PStr (U "Welcome"))]])
      (world_of plain_verifier fresh_service []).
Proof.
  apply (scan_messages_related
           [PDict [(U "id", PStr (U "m1"));
                   (U "from",
                    PDict [(U "address", PStr (U "news@example.com"))]);
                   (U "subject", PStr (U "Welcome"))]]
           (world_of plain_verifier fresh_service [])).
  constructor; [exists false; vm_compute; reflexivity | constructor].
Defined.

(* ================================================================== *)
(** * Creating the mailbox *)
(* ================================================================== *)

Lemma draws_ret {A} (a : A) : draws (ret a).
Proof. intros w; exists a, w; repeat split. Qed.

Lemma draws_bind {A B} (m : M A) (f : A -> M B) :
  draws m -> (forall a, draws (f a)) -> draws (bind m f).
Proof.
  intros Hm Hf w. destruct (Hm w) as (a & w1 & E & N1 & S1 & T1 & V1 & M1).
  destruct (Hf a w1) as (b & w2 & E2 & N2 & S2 & T2 & V2 & M2).
  exists b, w2. unfold bind; rewrite E, E2.
  repeat split; congruence.
Qed.

Lemma draws_randbelow (n : N) : draws (randbelow n).
Proof.
  intros w; unfold randbelow. destruct (rnd w) as [|x r];
    do 2 eexists; repeat split.
Qed.

Lemma draws_randint (a b : Z) : draws (randint a b).
Proof.
  apply draws_bind; [apply draws_randbelow | intros; apply draws_ret].
Qed.






Lemma randint_range (a b : Z) (w w' : world) (n : Z) :
  (a <= b)%Z -> randint a b w = (Ok n, w') -> (a <= n <= b)%Z.
Proof.
  intros Hab; unfold randint, bind, randbelow, ret.
  destruct (rnd w) as [|x r]; intros H; injection H as <- _; [lia|].
  assert (Hm : Z.of_N (Z.to_N (b - a + 1)) = (b - a + 1)%Z)
    by (apply Z2N.id; lia).
  assert (Hlt : (x mod Z.to_N (b - a + 1) < Z.to_N (b - a + 1))%N)
    by (apply N.mod_lt; intros E0; rewrite E0 in Hm; simpl in Hm; lia).
  apply N2Z.inj_lt in Hlt. rewrite Hm in Hlt.
  pose proof (N2Z.is_nonneg (x mod Z.to_N (b - a + 1))) as H0.
  generalize dependent (Z.of_N (x mod Z.to_N (b - a + 1))). intros; lia.
Qed.




(* ================================================================== *)
(** * [verify]: the other branches *)
(* ================================================================== *)















Lemma check_step_world (n : string) (data : pyval) (status : Z) (w : world) :
  snd (check_step n data status w) = w.
Proof.
  unfold check_step. destruct (negb (status =? 200)%Z); [reflexivity|].
  unfold bind, lift.
  destruct (get data (U "currentStep")) as [e|current]; [reflexivity|].
  cbn [ret]. unfold ret at 1.
  destruct (eq_str current (U "error")); [|reflexivity].
  destruct (get_default data (U "errorIds") (PList [PStr (U "Unknown error")]))
    as [e|ids]; [reflexivity|].
  unfold ret at 1. destruct (join_value (U ", ") ids); reflexivity.
Qed.

(** X13.  Step 2 is posted to the URL that the answer of step 1 hands
    out as [submissionUrl] when that is a non-empty string, and to the
    URL built from the id of the verification when the answer holds no
    such entry or a false one; a [submissionUrl] that is true and no
    string makes the step raise a [TypeError] without a request.  In the
    first two cases the request carries the personal data, and nothing
    else is sent. *)
Theorem step2_request (p : subject) (step1_data submission_url : pyval)
    (w : world) :
  get step1_data (U "submissionUrl") = inr submission_url ->
  (forall u, submission_url = PStr u -> u <> [] ->
     sent (snd (step2 p step1_data w))
     = sent w ++ [POST u (step2_body (verifier w) p)])
  /\ (truthy submission_url = false ->
      sent (snd (step2 p step1_data w))
      = sent w
        ++ [POST (step_url (verifier w) "collectInactiveMilitaryPersonalInfo")
              (step2_body (verifier w) p)])
  /\ (truthy submission_url = true ->
      (forall u, submission_url <> PStr u) ->
      exists msg, step2 p step1_data w = (Raise (TypeError msg), w)).
Proof.
  intros Hsub.
  assert (Hrun : forall u, step2_url (verifier w) submission_url = PStr u ->
            sent (snd (step2 p step1_data w))
            = sent w ++ [POST u (step2_body (verifier w) p)]).
  { intros u Hu. unfold step2, bind, self_verifier, lift.
    rewrite Hsub. unfold ret at 1. rewrite Hu.
    unfold _sheerid_request, bind, http.
    destruct (net w) as [|[x t|e t] rest]; try reflexivity.
    unfold ret at 1. cbn [fst snd]. rewrite check_step_world. reflexivity. }
  repeat match goal with |- _ /\ _ => split end.
  - intros u -> Hu. apply Hrun. unfold step2_url.
    destruct u; [contradiction Hu; reflexivity | reflexivity].
  - intros Hf. apply Hrun. unfold step2_url. rewrite Hf. reflexivity.
  - intros Ht Hn. unfold step2, bind, self_verifier, lift.
    rewrite Hsub. unfold ret at 1. unfold step2_url. rewrite Ht.
    destruct submission_url; try (eexists; reflexivity).
    contradiction (Hn s); reflexivity.
Qed.

Lemma step2_request_witness :
  sent (snd (step2
               {| first_name := U "John"; last_name := U "Doe";
                  subject_email := PStr (U "john.doe@example.com");
                  birth_date := U "1980-02-03";
                  discharge_date := U "2024-05-06";
                  organization := PNone; military_status := U "VETERAN" |}
               (PDict [(U "submissionUrl", PStr (U "https://s/next"))])
               world_A))
  = sent world_A
    ++ [POST (U "https://s/next")
          (step2_body (verifier world_A)
             {| first_name := U "John"; last_name := U "Doe";
                subject_email := PStr (U "john.doe@example.com");
                birth_date := U "1980-02-03";
                discharge_date := U "2024-05-06";
                organization := PNone; military_status := U "VETERAN" |})].
Proof.
  apply (proj1 (step2_request
                  {| first_name := U "John"; last_name := U "Doe";
                     subject_email := PStr (U "john.doe@example.com");
                     birth_date := U "1980-02-03";
                     discharge_date := U "2024-05-06";
                     organization := PNone; military_status := U "VETERAN" |}
                  (PDict [(U "submissionUrl", PStr (U "https://s/next"))])
                  (PStr (U "https://s/next")) world_A eq_refl)
           (U "https://s/next") eq_refl).
  discriminate.
Defined.

(* ================================================================== *)
(** * The generators and [main] *)
(* ================================================================== *)

Lemma range_forallb (P : Z -> bool) (lo : Z) (n : nat) :
  forallb P (map (fun k => (lo + Z.of_nat k)%Z) (seq 0 n)) = true ->
  forall z, (lo <= z < lo + Z.of_nat n)%Z -> P z = true.
Proof.
  intros H z Hz. rewrite forallb_forall in H. apply H.
  apply in_map_iff. exists (Z.to_nat (z - lo)).
  split; [rewrite Z2Nat.id by lia; lia|].
  apply in_seq. split; [lia|].
  apply Nat2Z.inj_lt. rewrite Z2Nat.id by lia. simpl. lia.
Qed.

Lemma year_digits (y : Z) :
  (1960 <= y <= 1995)%Z ->
  exists a b c d, str_of_Z y = [a; b; c; d]
                  /\ forallb is_digit [a; b; c; d] = true.
Proof.
  intros Hy.
  pose proof (range_forallb
                (fun z => match str_of_Z z with
                          | [a; b; c; d] => forallb is_digit [a; b; c; d]
                          | _ => false
                          end) 1960 36 eq_refl y) as H.
  cbv beta in H. destruct (str_of_Z y) as [|a [|b [|c [|d [|e l]]]]];
    try (specialize (H ltac:(lia)); discriminate).
  exists a, b, c, d. split; [reflexivity | apply H; lia].
Qed.

Lemma pad2_digits (n : Z) :
  (1 <= n <= 28)%Z ->
  exists a b, pad2 n = [a; b] /\ forallb is_digit [a; b] = true.
Proof.
  intros Hn.
  pose proof (range_forallb
                (fun z => match pad2 z with
                          | [a; b] => forallb is_digit [a; b]
                          | _ => false
                          end) 1 28 eq_refl n) as H.
  cbv beta in H. destruct (pad2 n) as [|a [|b [|c l]]];
    try (specialize (H ltac:(lia)); discriminate).
  exists a, b. split; [reflexivity | apply H; lia].
Qed.

(** X14.  [generate_birth_date] always returns a date of the shape
    [YYYY-MM-DD] (four digits, two digits, two digits): the year from
    1960 to 1995, the month from 1 to 12 and the day from 1 to 28, each
    printed in decimal, month and day with two digits. *)
Theorem generate_birth_date_shape (w : world) :
  exists (year month day : Z) (w' : world),
    generate_birth_date w
    = (Ok (str_of_Z year ++ U "-" ++ pad2 month ++ U "-" ++ pad2 day), w')
    /\ (1960 <= year <= 1995)%Z /\ (1 <= month <= 12)%Z
    /\ (1 <= day <= 28)%Z
    /\ date_shape (str_of_Z year ++ U "-" ++ pad2 month ++ U "-" ++ pad2 day)
       = true.
Proof.
  unfold generate_birth_date.
  destruct (draws_randint 1960 1995 w) as (y & w1 & E1 & _).
  destruct (draws_randint 1 12 w1) as (m & w2 & E2 & _).
  destruct (draws_randint 1 28 w2) as (d & w3 & E3 & _).
  rewrite (run_bind _ E1), (run_bind _ E2), (run_bind _ E3).
  assert (Hy := randint_range 1960 1995 w w1 y ltac:(lia) E1).
  assert (Hm := randint_range 1 12 w1 w2 m ltac:(lia) E2).
  assert (Hd := randint_range 1 28 w2 w3 d ltac:(lia) E3).
  exists y, m, d, w3.
  repeat match goal with |- _ /\ _ => split end; try reflexivity; try lia.
  destruct (year_digits y Hy) as (y1 & y2 & y3 & y4 & -> & Hyd).
  destruct (pad2_digits m ltac:(lia)) as (m1 & m2 & -> & Hmd).
  destruct (pad2_digits d Hd) as (d1 & d2 & -> & Hdd).
  change (date_shape [y1; y2; y3; y4; 45%N; m1; m2; 45%N; d1; d2] = true).
  unfold date_shape. cbn [forallb] in *.
  repeat match goal with
         | H : _ && _ = true |- _ => apply andb_true_iff in H as [? ?]
         end.
  repeat match goal with
         | H : is_digit _ = true |- _ => rewrite H; clear H
         end.
  reflexivity.
Qed.

Lemma parse_none (url : pystr) :
  has_verification_id url = false -> parse_verification_id url = None.
Proof.
  intros H; unfold parse_verification_id.
  rewrite search_none; [reflexivity|].
  intros n; apply match_id_none, has_verification_id_skipn, H.
Qed.

Lemma is_outcome_items (outcome : pyval) :
  is_outcome outcome ->
  exists (b : bool) (m : pystr),
    item outcome (U "success") = inr (PBool b)
    /\ item outcome (U "message") = inr (PStr m)
    /\ outcome_field outcome "success" = PBool b.
Proof.
  intros ([items ->] & [b Hb] & [m Hm]).
  exists b, m. split; [|split; [|exact Hb]].
  - unfold outcome_field, field in Hb. unfold item.
    destruct (lookup (U "success") items) as [x|]; [|discriminate].
    rewrite Hb; reflexivity.
  - unfold outcome_field, field in Hm. unfold item.
    destruct (lookup (U "message") items) as [y|]; [|discriminate].
    rewrite Hm; reflexivity.
Qed.

Lemma optional_item (outcome : pyval) (k : pystr) (w : world) :
  (exists items, outcome = PDict items) ->
  exists v x,
    lift (get outcome k) w = (Ok v, w)
    /\ (if truthy v then lift (item outcome k) else ret PNone) w = (Ok x, w).
Proof.
  intros [items ->]. unfold get, get_default, item.
  destruct (lookup k items) as [v|] eqn:L.
  - exists v. destruct (truthy v); eexists; split; reflexivity.
  - exists PNone. eexists; split; reflexivity.
Qed.

Lemma verify_run_outcome (a : verify_args) (w : world) :
  exists (outcome : pyval) (w' : world),
    verify a w = (Ok outcome, w') /\ is_outcome outcome.
Proof.
  pose proof (sat_verify a w) as H.
  destruct (verify a w) as [[outcome|e|] w1] eqn:E.
  - exists outcome, w1. split; [reflexivity | apply H].
  - exfalso. revert E. unfold verify, try_except.
    destruct (verify_body a w) as [[o|e'|] w2]; discriminate.
  - contradiction.
Qed.

(** X15.  [main] never raises and contacts nobody for a URL without an
    id: on a URL that nowhere holds the key [verificationId=] followed
    by a hexadecimal digit it ends with the exit status 1, the world
    being as before.  On every other URL it runs [verify] once, without
    arguments, on a new verifier for the id parsed from the URL, and
    ends with the exit status 0 when the outcome has [success] true and
    with 1 when it has [success] false. *)
Theorem main_exit_status (url : pystr) (w : world) :
  (has_verification_id url = false -> main url w = (Ok 1%Z, w))
  /\ (forall id, parse_verification_id url = Some id ->
      exists (outcome : pyval) (success : bool) (w' : world),
        verify no_args (snd (set_verifier (fun _ => new_verifier id) w))
        = (Ok outcome, w')
        /\ outcome_field outcome "success" = PBool success
        /\ main url w = (Ok (if success then 0%Z else 1%Z), w')).
Proof.
  split.
  - intros H. unfold main. rewrite (parse_none url H).
    destruct url; reflexivity.
  - intros id Hid.
    destruct (parse_verification_id_nonempty url id Hid) as (c & rest & ->).
    destruct (verify_run_outcome no_args
                (snd (set_verifier (fun _ => new_verifier (c :: rest)) w)))
      as (outcome & w' & E & Hout).
    destruct (is_outcome_items outcome Hout) as (b & m & Hs & Hm & Hf).
    destruct (optional_item outcome (U "redirect_url") w' (proj1 Hout))
      as (r1 & x1 & G1 & I1).
    destruct (optional_item outcome (U "reward_code") w' (proj1 Hout))
      as (r2 & x2 & G2 & I2).
    exists outcome, b, w'. split; [exact E|]. split; [exact Hf|].
    unfold main. rewrite Hid.
    assert (Hurl : url <> []).
    { intros ->. vm_compute in Hid. discriminate. }
    destruct url as [|u0 url']; [contradiction Hurl; reflexivity|].
    erewrite run_bind by reflexivity.
    rewrite (run_bind _ E).
    assert (L1 : lift (item outcome (U "success")) w' = (Ok (PBool b), w'))
      by (rewrite Hs; reflexivity).
    assert (L2 : lift (item outcome (U "message")) w' = (Ok (PStr m), w'))
      by (rewrite Hm; reflexivity).
    rewrite (run_bind _ L1), (run_bind _ L2), (run_bind _ G1),
      (run_bind _ I1), (run_bind _ G2), (run_bind _ I2), (run_bind _ L1).
    destruct b; reflexivity.
Qed.

Lemma main_exit_status_witness :
  main (U "https://services.sheerid.com/verify/x/?lang=en") world_A
  = (Ok 1%Z, world_A).
Proof.
  apply (proj1 (main_exit_status
                  (U "https://services.sheerid.com/verify/x/?lang=en")
                  world_A)).
  vm_compute; reflexivity.
Defined.

(* ================================================================== *)
(** * The registration flow: the browser, the account and the file *)
(* ================================================================== *)

Module RegisterMore.
Import Register RegisterNotions.

Lemma tame_weaken {A} (m : B A) (P Q : A -> Prop) :
  tame m P -> (forall a, P a -> Q a) -> tame m Q.
Proof.
  intros H HPQ s. destruct (H s) as (Hc & Ho & Hr).
  repeat split; auto. destruct (fst (m s)); auto.
Qed.

Lemma tame_ret {A} (a : A) (P : A -> Prop) : P a -> tame (ret a) P.
Proof.
  intros H s; simpl. repeat split; auto.
  exists []; rewrite app_nil_r; auto.
Qed.

Lemma tame_bind {A C} (m : B A) (f : A -> B C) (P : A -> Prop)
    (Q : C -> Prop) :
  tame m P -> (forall a, P a -> tame (f a) Q) -> tame (bind m f) Q.
Proof.
  intros Hm Hf s; unfold bind. destruct (Hm s) as ([mid1 [Hc1 Hi1]] & Ho1 & Hr1).
  destruct (m s) as [[a|e|] s1]; simpl in *.
  - destruct (Hf a Hr1 s1) as ([mid2 [Hc2 Hi2]] & Ho2 & Hr2).
    repeat split; [|congruence|exact Hr2].
    exists (mid1 ++ mid2). rewrite Hc2, Hc1, app_assoc, forallb_app, Hi1, Hi2.
    auto.
  - repeat split; eauto.
  - repeat split; eauto.
Qed.

Lemma tame_try {A} (m : B A) (h : exn -> B A) (Q : A -> Prop) :
  tame m Q -> (forall e, tame (h e) Q) -> tame (try_except m h) Q.
Proof.
  intros Hm Hh s; unfold try_except.
  destruct (Hm s) as ([mid1 [Hc1 Hi1]] & Ho1 & Hr1).
  destruct (m s) as [[a|e|] s1]; simpl in *.
  - repeat split; eauto.
  - destruct (Hh e s1) as ([mid2 [Hc2 Hi2]] & Ho2 & Hr2).
    repeat split; [|congruence|exact Hr2].
    exists (mid1 ++ mid2). rewrite Hc2, Hc1, app_assoc, forallb_app, Hi1, Hi2.
    auto.
  - repeat split; eauto.
Qed.

Lemma calm_bind {A C} (m : B A) (f : A -> B C) :
  calm m -> (forall a, calm (f a)) -> calm (bind m f).
Proof. intros Hm Hf; eapply tame_bind; [exact Hm | intros a _; apply Hf]. Qed.

Lemma calm_ret {A} (a : A) : calm (ret a).
Proof. apply tame_ret; exact I. Qed.

Lemma calm_ask c : inside c = true -> calm (ask c).
Proof.
  intros Hc s; unfold ask.
  destruct (fails (outside s (List.length (calls s)) c)); simpl;
    repeat split; auto; exists [c]; simpl; rewrite Hc; auto.
Qed.

Lemma calm_draw c : inside c = true -> calm (draw c).
Proof.
  intros Hc s; simpl. repeat split; auto.
  exists [c]; simpl; rewrite Hc; auto.
Qed.

Lemma calm_same {A} (m : B A) :
  (forall s, calls (snd (m s)) = calls s /\ outside (snd (m s)) = outside s) ->
  calm m.
Proof.
  intros H s. destruct (H s) as [Hc Ho]. repeat split; auto.
  - exists []. rewrite app_nil_r; auto.
  - destruct (fst (m s)); exact I.
Qed.

Lemma calm_monotonic : calm monotonic.
Proof. apply calm_same; intros s; simpl; auto. Qed.

Lemma calm_pass ms : calm (pass ms).
Proof. apply calm_same; intros s; simpl; auto. Qed.

Lemma calm_diverge {A} : calm (fun s : state => (@Diverge A, s)).
Proof. apply calm_same; intros s; simpl; auto. Qed.

Lemma calm_enter_save : calm enter_save.
Proof. apply calm_same; intros s; simpl; auto. Qed.

Lemma calm_file_rows : calm file_rows.
Proof. apply calm_same; intros s; simpl; auto. Qed.

Lemma calm_write_rows rows : calm (write_rows rows).
Proof. apply calm_same; intros s; simpl; auto. Qed.

Create HintDb calm.
#[local] Hint Resolve calm_ret calm_monotonic calm_pass calm_diverge
  calm_enter_save calm_file_rows calm_write_rows : calm.
#[local] Hint Extern 1 (calm (ask _)) => (apply calm_ask; reflexivity) : calm.
#[local] Hint Extern 1 (calm (draw _)) => (apply calm_draw; reflexivity)
  : calm.

Ltac calm_step :=
  match goal with
  | |- calm (bind _ _) => apply calm_bind; [| intros ?]
  | |- calm (try_except _ _) => apply tame_try; [| intros ?]
  | |- tame (try_except _ _) (fun _ => True) => apply tame_try; [| intros ?]
  | |- tame ?m (fun _ => True) => change (calm m)
  | |- calm (if ?b then _ else _) => destruct b
  | |- calm (match ?x with _ => _ end) => destruct x
  | |- calm _ => solve [auto with calm]
  end.

Ltac calm_auto := repeat calm_step.

Lemma calm_ask_ c : inside c = true -> calm (ask_ c).
Proof. intros H; unfold ask_; apply calm_bind; [apply calm_ask, H|]. intros; apply calm_ret. Qed.

#[local] Hint Extern 1 (calm (ask_ _)) => (apply calm_ask_; reflexivity)
  : calm.

Lemma calm_sleep ms : calm (sleep ms).
Proof. apply calm_pass. Qed.

Lemma calm_randint a b : calm (randint a b).
Proof. unfold randint; calm_auto. Qed.

#[local] Hint Resolve calm_sleep calm_randint : calm.

Lemma calm_sleep_uniform a b : calm (sleep_uniform a b).
Proof. unfold sleep_uniform; calm_auto. Qed.

Lemma calm_wait_for_timeout ms : calm (wait_for_timeout ms).
Proof. unfold wait_for_timeout; calm_auto. Qed.

Lemma calm_count t : calm (count t).
Proof. unfold count; calm_auto. Qed.

Lemma calm_is_visible t : calm (is_visible t).
Proof. unfold is_visible; calm_auto. Qed.

#[local] Hint Resolve calm_sleep_uniform calm_wait_for_timeout calm_count
  calm_is_visible : calm.

Lemma calm_type_chars text : calm (type_chars text).
Proof. induction text as [|c text IH]; simpl; calm_auto. Qed.

#[local] Hint Resolve calm_type_chars : calm.

Lemma calm_human_type t text : calm (human_type t text).
Proof. unfold human_type; calm_auto. Qed.

Lemma calm_human_click t : calm (human_click t).
Proof. unfold human_click; calm_auto. Qed.

#[local] Hint Resolve calm_human_type calm_human_click : calm.

Lemma calm_click_next : calm click_next.
Proof. unfold click_next; calm_auto. Qed.

Lemma calm_random_mouse_noise : calm random_mouse_noise.
Proof. unfold random_mouse_noise; calm_auto. Qed.

Lemma calm_close_open_listbox : calm close_open_listbox.
Proof. unfold close_open_listbox; calm_auto. Qed.

Lemma calm_combobox_has_value t : calm (combobox_has_value t).
Proof. unfold combobox_has_value; calm_auto. Qed.

#[local] Hint Resolve calm_click_next calm_random_mouse_noise
  calm_close_open_listbox calm_combobox_has_value : calm.

Lemma calm_human_loop fuel start timeout_ms :
  calm (human_loop fuel start timeout_ms).
Proof. induction fuel as [|fuel IH]; simpl; calm_auto. Qed.

#[local] Hint Resolve calm_human_loop : calm.

Lemma calm_wait_for_human_verification timeout_ms :
  calm (wait_for_human_verification timeout_ms).
Proof. unfold wait_for_human_verification; calm_auto. Qed.

#[local] Hint Resolve calm_wait_for_human_verification : calm.

Lemma calm_accept_consent_if_present timeout_ms :
  calm (accept_consent_if_present timeout_ms).
Proof. unfold accept_consent_if_present; calm_auto. Qed.

#[local] Hint Resolve calm_accept_consent_if_present : calm.

Lemma calm_consent_loop fuel deadline : calm (consent_loop fuel deadline).
Proof. induction fuel as [|fuel IH]; simpl; calm_auto. Qed.

#[local] Hint Resolve calm_consent_loop : calm.

Lemma calm_accept_consent_with_retry t : calm (accept_consent_with_retry t).
Proof. unfold accept_consent_with_retry; calm_auto. Qed.

Lemma calm_wait_for_and_accept_consent t :
  calm (wait_for_and_accept_consent t).
Proof. unfold wait_for_and_accept_consent; calm_auto. Qed.

Lemma calm_save_debug_info name : calm (save_debug_info name).
Proof. unfold save_debug_info; calm_auto. Qed.

Lemma calm_settle_interstitials : calm settle_interstitials.
Proof. unfold settle_interstitials; calm_auto. Qed.

#[local] Hint Resolve calm_accept_consent_with_retry
  calm_wait_for_and_accept_consent calm_save_debug_info
  calm_settle_interstitials : calm.

Lemma calm_open_dropdown t : calm (open_dropdown t).
Proof. unfold open_dropdown; calm_auto. Qed.

Lemma calm_pick_option b texts : calm (pick_option b texts).
Proof. induction texts as [|t texts IH]; simpl; calm_auto. Qed.

Lemma calm_press_down n : calm (press_down n).
Proof. induction n as [|n IH]; simpl; calm_auto. Qed.

#[local] Hint Resolve calm_open_dropdown calm_pick_option calm_press_down
  : calm.

Lemma calm_dropdown_attempts n t texts i :
  calm (dropdown_attempts n t texts i).
Proof. induction n as [|n IH]; simpl; calm_auto. Qed.

#[local] Hint Resolve calm_dropdown_attempts : calm.

Lemma calm_select_dropdown_option t texts i :
  calm (select_dropdown_option t texts i).
Proof. unfold select_dropdown_option; calm_auto. Qed.

Lemma calm_generate_credentials : calm generate_credentials.
Proof. unfold generate_credentials; calm_auto. Qed.

Lemma calm_save_to_excel a : calm (save_to_excel a).
Proof. unfold save_to_excel; calm_auto. Qed.

#[local] Hint Resolve calm_select_dropdown_option
  calm_generate_credentials calm_save_to_excel : calm.


(** ** The stages of the flow *)

Lemma tame_go_on a : tame go_on (carries_or_on a).
Proof. apply tame_ret; exact I. Qed.

Lemma tame_after {A} (m : B A) (f : A -> B (option result)) a :
  calm m -> (forall x, tame (f x) (carries_or_on a)) ->
  tame (bind m f) (carries_or_on a).
Proof. intros Hm Hf; eapply tame_bind; [exact Hm | intros x _; apply Hf]. Qed.

Lemma tame_check (m k : B (option result)) a :
  tame m (carries_or_on a) -> tame k (carries_or_on a) ->
  tame (unless_returned m k) (carries_or_on a).
Proof.
  intros Hm Hk; unfold unless_returned.
  eapply tame_bind; [exact Hm|].
  intros [out|] H; [apply tame_ret; exact H | exact Hk].
Qed.

Lemma tame_out (b : bool) (message : pystr) a :
  tame (ret (Some (b, message, a))) (carries_or_on a).
Proof. apply tame_ret; reflexivity. Qed.

Ltac tame_step :=
  match goal with
  | |- tame go_on _ => apply tame_go_on
  | |- tame (ret (Some (failure _ _))) _ => apply tame_out
  | |- tame (ret (Some (_, _, _))) _ => apply tame_out
  | |- tame (unless_returned _ _) _ => apply tame_check
  | |- tame (bind _ _) (carries_or_on _) =>
      apply tame_after; [solve [calm_auto] | intros ?]
  | |- tame (try_except _ _) _ => apply tame_try; [| intros ?]
  | |- tame (if ?b then _ else _) _ => destruct b
  | |- tame (match ?x with _ => _ end) _ => destruct x
  end.

Ltac tame_auto := repeat tame_step.

Lemma tame_settle a : tame (settle a) (carries_or_on a).
Proof. unfold settle; tame_auto. Qed.

Lemma tame_human_check a : tame (human_check a) (carries_or_on a).
Proof. unfold human_check; tame_auto. Qed.

Lemma tame_find_email_input a : tame (find_email_input a) (carries_or_on a).
Proof. unfold find_email_input; tame_auto. Qed.

Lemma tame_fill_email a : tame (fill_email a) (carries_or_on a).
Proof. unfold fill_email; tame_auto. Qed.

Lemma tame_choose_birth native dropdown id value suffix name message a :
  tame (choose_birth native dropdown id value suffix name message a)
    (carries_or_on a).
Proof. unfold choose_birth; tame_auto. Qed.

Lemma tame_before_save a : tame (before_save a) (carries_or_on a).
Proof.
  unfold before_save.
  repeat first
    [ apply tame_settle | apply tame_human_check
    | apply tame_find_email_input | apply tame_fill_email
    | apply tame_choose_birth
    | tame_step ].
Qed.

Lemma tame_flow_body a : tame (flow_body a) (carries a).
Proof.
  unfold flow_body.
  eapply tame_bind; [apply tame_before_save|].
  intros [out|] H; [apply tame_ret; exact H|].
  eapply tame_bind; [apply calm_save_to_excel | intros _ _].
  apply tame_try; [|intros e; apply tame_ret; reflexivity].
  eapply tame_bind; [apply calm_ask_; reflexivity | intros _ _].
  apply tame_ret; reflexivity.
Qed.

(** The [try] of the flow with its [except]. *)
Lemma tame_guarded_flow a :
  tame (try_except (flow_body a)
          (fun e =>
             save_debug_info "error_flow" ;;
             ret (false, U "Flow error: " ++ str_exn e, a)))
    (carries a).
Proof.
  apply tame_try; [apply tame_flow_body | intros e].
  eapply tame_bind; [apply calm_save_debug_info | intros _ _].
  apply tame_ret; reflexivity.
Qed.

End RegisterMore.

Module RegisterRuns.
Import Register RegisterNotions.

Lemma run_from_open_page (s : state) :
  run_registration_flow s =
  match open_page s with
  | (Ok a, s1) => guarded_flow a s1
  | (Raise e, s1) => (Raise e, s1)
  | (Diverge, s1) => (Diverge, s1)
  end.
Proof.
  unfold run_registration_flow, open_page, guarded_flow, bind.
  destruct (generate_credentials s) as [[a|e|] s0]; try reflexivity.
  destruct (ask_ Launch s0) as [[u1|e|] s1]; try reflexivity.
  destruct (ask_ NewContext s1) as [[u2|e|] s2]; try reflexivity.
  destruct (ask_ AddInitScript s2) as [[u3|e|] s3]; try reflexivity.
  destruct (ask_ NewPage s3) as [[u4|e|] s4]; reflexivity.
Qed.

Lemma ask__calls (c : call) (s s' : state) (r : res unit) :
  ask_ c s = (r, s') -> calls s' = calls s ++ [c] /\ r <> Diverge.
Proof.
  unfold ask_, bind, ask.
  destruct (fails (outside s (List.length (calls s)) c));
    intros H; injection H as <- <-; split; try reflexivity; discriminate.
Qed.

Lemma open_page_calls (s s1 : state) (a : account) :
  open_page s = (Ok a, s1) ->
  exists pre,
    calls s1 = calls s ++ pre ++ [Launch; NewContext; AddInitScript; NewPage]
    /\ forallb inside pre = true.
Proof.
  unfold open_page, bind.
  destruct (RegisterMore.calm_generate_credentials s)
    as ([pre [Hc Hi]] & _ & _).
  destruct (generate_credentials s) as [[a0|e|] s0]; try discriminate.
  simpl in Hc.
  destruct (ask_ Launch s0) as [[u1|e|] x1] eqn:E1; try discriminate.
  destruct (ask_ NewContext x1) as [[u2|e|] x2] eqn:E2; try discriminate.
  destruct (ask_ AddInitScript x2) as [[u3|e|] x3] eqn:E3; try discriminate.
  destruct (ask_ NewPage x3) as [[u4|e|] x4] eqn:E4; try discriminate.
  intros H; injection H as _ <-.
  apply ask__calls in E1 as [E1 _], E2 as [E2 _], E3 as [E3 _], E4 as [E4 _].
  exists pre. split; [|exact Hi].
  rewrite E4, E3, E2, E1, Hc, <- !app_assoc. reflexivity.
Qed.

(** X16.  The browser is set up once and closed once, at the very end:
    in every run whose browser and page could be opened, whether the
    flow returns a success or a failure or raises, the log of the calls
    reads: the draws of the credentials, the launch, the context, the
    script and the page, then calls on the page, the file and the
    generators only, then [browser.close()].  When the browser or the
    page cannot be opened the exception leaves the run as it is. *)
Theorem browser_closed_last (s : state) :
  (forall a s1, open_page s = (Ok a, s1) ->
     match run_registration_flow s with
     | (Diverge, _) => True
     | (_, s') =>
         exists pre mid,
           calls s' = calls s ++ pre
                      ++ [Launch; NewContext; AddInitScript; NewPage]
                      ++ mid ++ [Close]
           /\ forallb inside pre = true /\ forallb inside mid = true
     end)
  /\ (forall e s1, open_page s = (Raise e, s1) ->
        run_registration_flow s = (Raise e, s1)).
Proof.
  split.
  - intros a s1 Hopen. rewrite run_from_open_page, Hopen.
    destruct (open_page_calls s s1 a Hopen) as (pre & Hpre & Hi).
    unfold guarded_flow, try_finally.
    destruct (RegisterMore.tame_guarded_flow a s1) as ([mid [Hc Hm]] & _ & _).
    set (guarded := try_except (flow_body a) _) in *.
    destruct (guarded s1) as [[out|e|] s2]; simpl in Hc; [| |exact I].
    + destruct (ask_ Close s2) as [[u|e|] s3] eqn:E;
        apply ask__calls in E as [E Hd]; try (contradiction Hd; reflexivity);
        exists pre, mid; rewrite E, Hc, Hpre, <- !app_assoc; auto.
    + destruct (ask_ Close s2) as [[u|e'|] s3] eqn:E;
        apply ask__calls in E as [E Hd]; try (contradiction Hd; reflexivity);
        exists pre, mid; rewrite E, Hc, Hpre, <- !app_assoc; auto.
  - intros e s1 Hopen. rewrite run_from_open_page, Hopen. reflexivity.
Qed.

Lemma browser_closed_last_witness :
  match run_registration_flow (fresh_state quiet_outside) with
  | (Diverge, _) => True
  | (_, s') =>
      exists pre mid,
        calls s' = calls (fresh_state quiet_outside) ++ pre
                   ++ [Launch; NewContext; AddInitScript; NewPage]
                   ++ mid ++ [Close]
        /\ forallb inside pre = true /\ forallb inside mid = true
  end.
Proof.
  refine (proj1 (browser_closed_last (fresh_state quiet_outside)) _ _ _).
  vm_compute; reflexivity.
Defined.

Lemma randint_between (a b : Z) (s s' : state) (n : Z) :
  (a <= b)%Z -> randint a b s = (Ok n, s') -> (a <= n <= b)%Z.
Proof.
  intros Hab; unfold randint, bind, draw, ret.
  intros H; injection H as <- _.
  pose proof (Z.mod_pos_bound
                (number (outside s (List.length (calls s)) Random))
                (b - a + 1) ltac:(lia)).
  lia.
Qed.

(** The credentials: the address is the user name at [outlook.com], and
    the birth date lies in the ranges drawn from. *)
Lemma generate_credentials_account (s : state) :
  exists a s0,
    generate_credentials s = (Ok a, s0)
    /\ acc_email a = username_only a ++ U "@outlook.com"
    /\ (1 <= birth_day a <= 28)%Z /\ (1 <= birth_month a <= 12)%Z
    /\ (1980 <= birth_year a <= 2005)%Z.
Proof.
  unfold generate_credentials.
  unfold bind at 1. unfold draw at 1. unfold bind at 1. unfold draw at 1.
  unfold bind at 1.
  match goal with
  | |- context [randint 1000 99999 ?x] =>
      destruct (randint 1000 99999 x) as [[n|e|] s3] eqn:E3;
      [|discriminate E3|discriminate E3]
  end.
  unfold bind at 1. unfold draw at 1. unfold bind at 1.
  destruct (randint 1 28 _) as [[day|e|] s5] eqn:E5;
    [|discriminate E5|discriminate E5].
  unfold bind at 1.
  destruct (randint 1 12 s5) as [[month|e|] s6] eqn:E6;
    [|discriminate E6|discriminate E6].
  unfold bind at 1.
  destruct (randint 1980 2005 s6) as [[year|e|] s7] eqn:E7;
    [|discriminate E7|discriminate E7].
  do 2 eexists. split; [reflexivity|]. cbn [acc_email username_only
    birth_day birth_month birth_year].
  split; [reflexivity|].
  split; [exact (randint_between 1 28 _ _ _ ltac:(lia) E5)|].
  split; [exact (randint_between 1 12 _ _ _ ltac:(lia) E6)|].
  exact (randint_between 1980 2005 _ _ _ ltac:(lia) E7).
Qed.

Lemma saved_once_same (a : account) (s s1 s' : state) :
  saves s1 = saves s -> excel s1 = excel s ->
  saved_once a s1 s' -> saved_once a s s'.
Proof. unfold saved_once, file_after, rows_of; intros -> ->; auto. Qed.

Lemma saved_once_then (a : account) (s s1 s' : state) :
  saves s' = saves s1 -> excel s' = excel s1 ->
  saved_once a s s1 -> saved_once a s s'.
Proof. unfold saved_once, file_after; intros -> ->; auto. Qed.

Lemma saved_once_file (a : account) (s s' : state) :
  saved_once a s s' -> file_after a s s'.
Proof. intros [[_ H]|[_ H]]; [left; exact H | exact H]. Qed.

Lemma flow_body_saved_once (a : account) (s : state) :
  saved_once a s (snd (flow_body a s)).
Proof.
  unfold flow_body, bind.
  destruct (RegisterFacts.flows_before_save a s) as (Hs & He & _).
  destruct (before_save a s) as [[[out|]|e|] s1]; simpl in Hs, He |- *;
    try (left; split; assumption).
  apply (saved_once_same a s s1 _ Hs He).
  destruct (RegisterFacts.save_to_excel_spec a s1)
    as (b & s2 & E & Hs2 & He2).
  rewrite E. unfold try_except, ask_, bind, ask.
  destruct (fails (outside s2 (List.length (calls s2)) WaitForUrl));
    simpl; right; split; assumption.
Qed.

Lemma guarded_flow_saved_once (a : account) (s : state) :
  saved_once a s (snd (guarded_flow a s))
  /\ match fst (guarded_flow a s) with
     | Ok out => carries a out
     | _ => True
     end.
Proof.
  unfold guarded_flow, try_finally.
  pose proof (flow_body_saved_once a s) as Hfile.
  destruct (RegisterMore.tame_guarded_flow a s) as (_ & _ & Hout).
  assert (Hguard : saved_once a s
            (snd (try_except (flow_body a)
                    (fun e =>
                       save_debug_info "error_flow" ;;
                       ret (false, U "Flow error: " ++ str_exn e, a)) s))).
  { unfold try_except.
    destruct (flow_body a s) as [[out|e|] s1]; simpl in Hfile |- *;
      try exact Hfile.
    unfold bind.
    destruct (RegisterFacts.quiet_save_debug_info "error_flow" s1)
      as (Hs & He & _).
    destruct (save_debug_info "error_flow" s1) as [[u|e'|] s2];
      simpl in Hs, He |- *; exact (saved_once_then a s s1 _ Hs He Hfile). }
  set (guarded := try_except (flow_body a) _) in *.
  destruct (guarded s) as [[out|e|] s1]; simpl in Hguard, Hout |- *.
  - destruct (RegisterFacts.quiet_ask_ Close s1) as (Hs & He & _).
    destruct (ask_ Close s1) as [[u|e|] s2]; simpl in Hs, He |- *;
      (split; [apply (saved_once_then a s s1 _ Hs He Hguard)|]); auto.
  - destruct (RegisterFacts.quiet_ask_ Close s1) as (Hs & He & _).
    destruct (ask_ Close s1) as [[u|e'|] s2]; simpl in Hs, He |- *;
      (split; [apply (saved_once_then a s s1 _ Hs He Hguard)|]); auto.
  - split; [exact Hguard | exact I].
Qed.

Lemma open_page_quiet (s : state) :
  saves (snd (open_page s)) = saves s /\ excel (snd (open_page s)) = excel s.
Proof.
  assert (Hq : quiet open_page).
  { unfold open_page.
    apply RegisterFacts.quiet_bind;
      [apply RegisterFacts.quiet_generate_credentials | intros a].
    repeat (apply RegisterFacts.quiet_bind;
            [apply RegisterFacts.quiet_ask_ | intros ?]).
    apply RegisterFacts.quiet_ret. }
  destruct (Hq s) as (Hs & He & _). auto.
Qed.

Lemma open_page_account (s s0 s1 : state) (a a' : account) :
  generate_credentials s = (Ok a, s0) -> open_page s = (Ok a', s1) -> a' = a.
Proof.
  intros Ea. unfold open_page, bind at 1. rewrite Ea. unfold bind.
  destruct (ask_ Launch s0) as [[u1|e|] x1]; try discriminate.
  destruct (ask_ NewContext x1) as [[u2|e|] x2]; try discriminate.
  destruct (ask_ AddInitScript x2) as [[u3|e|] x3]; try discriminate.
  destruct (ask_ NewPage x3) as [[u4|e|] x4]; try discriminate.
  intros H; injection H as <- _. reflexivity.
Qed.

(** What a run does to the file and to the count of the saves, whatever
    its result. *)
Lemma run_saved_once (s s0 : state) (a : account) :
  generate_credentials s = (Ok a, s0) ->
  saved_once a s (snd (run_registration_flow s)).
Proof.
  intros Ea. rewrite run_from_open_page.
  destruct (open_page_quiet s) as [Hs He].
  destruct (open_page s) as [[a'|e|] s1] eqn:E; simpl in Hs, He;
    try (left; split; assumption).
  rewrite (open_page_account s s0 s1 a a' Ea E).
  apply (saved_once_same a s s1 _ Hs He).
  apply guarded_flow_saved_once.
Qed.

(** X17.  Every run draws its credentials first: an address that is the
    user name at [outlook.com] and a birth date with the day from 1 to
    28, the month from 1 to 12 and the year from 1980 to 2005.  Every
    result that the run returns, success or failure, carries exactly
    this account; and whatever the run does (return, raise), the Excel
    file is afterwards as it was before or holds the rows it had,
    followed by this account as one new last row: no earlier row is
    lost or changed. *)
Theorem run_account_and_file (s : state) :
  exists (a : account) (s0 : state),
    generate_credentials s = (Ok a, s0)
    /\ acc_email a = username_only a ++ U "@outlook.com"
    /\ (1 <= birth_day a <= 28)%Z /\ (1 <= birth_month a <= 12)%Z
    /\ (1980 <= birth_year a <= 2005)%Z
    /\ (forall out s', run_registration_flow s = (Ok out, s') ->
          snd out = a)
    /\ file_after a s (snd (run_registration_flow s)).
Proof.
  destruct (generate_credentials_account s)
    as (a & s0 & Ea & Hmail & Hd & Hm & Hy).
  exists a, s0.
  split; [exact Ea|]. split; [exact Hmail|]. split; [exact Hd|].
  split; [exact Hm|]. split; [exact Hy|]. split.
  - intros out s'. rewrite run_from_open_page.
    destruct (open_page s) as [[a'|e|] s1] eqn:E; try discriminate.
    rewrite (open_page_account s s0 s1 a a' Ea E).
    intros H. destruct (guarded_flow_saved_once a s1) as [_ Hout].
    rewrite H in Hout. exact Hout.
  - exact (saved_once_file a s _ (run_saved_once s s0 a Ea)).
Qed.

Lemma human_loop_false (fuel : nat) (start timeout_ms : Z) :
  forall s s', human_loop fuel start timeout_ms s = (Ok false, s') ->
               (timeout_ms <= clock s' - start)%Z.
Proof.
  induction fuel as [|fuel IH]; intros s s'; [discriminate|].
  simpl. unfold bind at 1, monotonic.
  destruct (Z.ltb_spec (clock s - start) timeout_ms) as [Hlt|Hge].
  - unfold bind at 1.
    destruct (try_except _ _ s) as [[[|]|e|] s1]; try discriminate.
    unfold bind at 1.
    destruct (wait_for_timeout 2000 s1) as [[u|e|] s2]; try discriminate.
    apply IH.
  - intros H; injection H as <-. exact Hge.
Qed.

(** X18.  [wait_for_human_verification] reports that the check is still
    there only after the whole time allowed: whenever it returns false,
    at least [timeout_ms] milliseconds have passed on the clock since
    the call. *)
Theorem wait_for_human_verification_waits (timeout_ms : Z) (s s' : state) :
  wait_for_human_verification timeout_ms s = (Ok false, s') ->
  (timeout_ms <= clock s' - clock s)%Z.
Proof.
  unfold wait_for_human_verification, count. unfold bind at 1 2, ask.
  destruct (fails (outside s (List.length (calls s)) (Count HUMAN_IFRAME_SEL)));
    [discriminate|].
  unfold ret at 1.
  destruct (number _ =? 0)%Z; [discriminate|].
  unfold bind at 1, monotonic. intros H.
  apply human_loop_false in H. cbn [clock answered] in H. lia.
Qed.

Lemma wait_for_human_verification_waits_witness :
  exists s',
    wait_for_human_verification 5000 (fresh_state frame_outside)
    = (Ok false, s')
    /\ (5000 <= clock s' - clock (fresh_state frame_outside))%Z.
Proof.
  eexists.
  refine ((fun H => conj H (wait_for_human_verification_waits 5000
                              (fresh_state frame_outside) _ H)) _).
  vm_compute; reflexivity.
Defined.

Lemma type_chars_typed (text : pystr) :
  forall s s', type_chars text s = (Ok tt, s') ->
    exists mid, calls s' = calls s ++ mid
                /\ typed mid = text /\ forallb keystroke mid = true.
Proof.
  induction text as [|c text IH]; intros s s'.
  - intros H; injection H as <-. exists []. rewrite app_nil_r. auto.
  - cbn [type_chars]. unfold bind at 1, randint, bind at 1, draw at 1.
    unfold ret at 1. unfold bind at 1, ask_, bind at 1, ask.
    match goal with
    | |- context [fails ?r] => destruct (fails r); [discriminate|]
    end.
    unfold ret at 1. unfold bind at 1, draw at 1. unfold bind at 1.
    match goal with
    | |- context [if ?b then sleep_uniform 200 500 else ret tt] =>
        destruct b
    end.
    + unfold sleep_uniform, randint, bind at 1, bind at 1, draw at 1.
      unfold ret at 1. unfold sleep, pass at 1.
      intros H. destruct (IH _ _ H) as (mid & Hc & Ht & Hk).
      exists (Random :: TypeText [c] :: Random :: Random :: mid).
      cbn [calls answered] in Hc. rewrite Hc, <- !app_assoc.
      cbn [typed forallb keystroke app andb]. rewrite Ht, Hk. auto.
    + unfold ret at 1. intros H.
      destruct (IH _ _ H) as (mid & Hc & Ht & Hk).
      exists (Random :: TypeText [c] :: Random :: mid).
      cbn [calls answered] in Hc. rewrite Hc, <- !app_assoc.
      cbn [typed forallb keystroke app andb]. rewrite Ht, Hk. auto.
Qed.

(** X19.  [human_type] clicks the field and then types the text, one
    character for each key and in the order of the text: when it
    returns, the calls it has added to the log are the click, then only
    keys and draws of pauses, and the keys put together are the text. *)
Theorem human_type_types (selector : target) (text : pystr) (s s' : state) :
  human_type selector text s = (Ok tt, s') ->
  exists mid,
    calls s' = calls s ++ Click selector :: mid
    /\ typed mid = text /\ forallb keystroke mid = true.
Proof.
  unfold human_type, bind at 1. intros H.
  destruct (ask_ (Click selector) s) as [[u|e|] s1] eqn:E; try discriminate.
  apply ask__calls in E as [E _].
  destruct (type_chars_typed text s1 s' H) as (mid & Hc & Ht & Hk).
  exists mid. rewrite Hc, E, <- app_assoc. auto.
Qed.

Lemma human_type_types_witness :
  exists s' mid,
    human_type PASSWORD_INPUT (U "s3cret") (fresh_state quiet_outside)
    = (Ok tt, s')
    /\ calls s' = calls (fresh_state quiet_outside)
                  ++ Click PASSWORD_INPUT :: mid
    /\ typed mid = U "s3cret" /\ forallb keystroke mid = true.
Proof.
  eexists.
  refine ((fun H => match human_type_types PASSWORD_INPUT (U "s3cret")
                            (fresh_state quiet_outside) _ H with
                    | ex_intro _ mid Hm => ex_intro _ mid (conj H Hm)
                    end) _).
  vm_compute; reflexivity.
Defined.

End RegisterRuns.

(* ================================================================== *)
(** * The lock: the order of the runs and the wake-ups *)
(* ================================================================== *)

Module SerializerMore.
Import Serializer SerializerNotions.

Lemma remove_first_head (t : nat) (l : list nat) :
  remove_first t (t :: l) = l.
Proof. simpl. rewrite Nat.eqb_refl. reflexivity. Qed.

Lemma hd_error_cons (t : nat) (l : list nat) :
  hd_error l = Some t -> exists l', l = t :: l'.
Proof. destruct l as [|u l]; [discriminate|]. intros H; injection H as ->; eauto. Qed.

(** X20.  The lock is handed over in the order of the queue: in every
    state that the process can reach, the task that leaves [acquire]
    with the lock is the one at the head of the queue, and the queue
    goes on with the tasks behind it; a task that starts takes the lock
    at once only when the lock is free and nobody waits, and otherwise
    joins the queue at its end; a command that arrives and a run that
    ends leave the queue as it is. *)
Theorem lock_first_in_first_out :
  forall (answers : nat -> nat -> Register.call -> Register.reply)
         (events : list event) (s : system),
    run events (initial answers) = Some s ->
    (forall t s', exec (Resume t) s = Some s' ->
                  waiters s = t :: waiters s' /\ active s' t)
    /\ (forall t s', exec (Start t) s = Some s' ->
                     (locked s = false /\ waiters s = []
                      /\ waiters s' = [] /\ active s' t)
                     \/ ((locked s = true \/ waiters s <> [])
                         /\ waiters s' = waiters s ++ [t]
                         /\ phase_of s' t = Waiting))
    /\ (forall t s', exec (Arrive t) s = Some s' -> waiters s' = waiters s)
    /\ (forall t s', exec (Finish t) s = Some s' -> waiters s' = waiters s).
Proof.
  intros answers events s Hrun.
  pose proof (SerializerFacts.run_consistent events _ s
                (SerializerFacts.initial_consistent answers) Hrun) as Hs.
  repeat match goal with |- _ /\ _ => split end.
  - intros t s'. simpl.
    destruct (phase_of s t) eqn:P; try discriminate.
    intros H; injection H as <-.
    destruct (woken_first Hs t P) as [_ Hhd].
    destruct (hd_error_cons t _ Hhd) as [l' El].
    unfold active; cbn [waiters phase_of]. rewrite El, remove_first_head.
    split; [reflexivity | apply SerializerFacts.set_phase_same].
  - intros t s'. simpl.
    destruct (phase_of s t) eqn:P; try discriminate.
    destruct (locked s) eqn:L; cbn [negb andb].
    + intros H; injection H as <-. right. cbn [waiters phase_of].
      rewrite SerializerFacts.set_phase_same. auto.
    + destruct (waiters s) as [|w l] eqn:W.
      * intros H; injection H as <-. left. unfold active.
        cbn [waiters phase_of]. rewrite SerializerFacts.set_phase_same.
        auto.
      * intros H; injection H as <-. right. cbn [waiters phase_of].
        rewrite SerializerFacts.set_phase_same.
        repeat split; auto. right; discriminate.
  - intros t s'. simpl. destruct (phase_of s t); try discriminate.
    intros H; injection H as <-. reflexivity.
  - intros t s'. simpl. destruct (phase_of s t); try discriminate.
    destruct (run_of s t) as [[out|e|] st]; try discriminate;
      intros H; injection H as <-; reflexivity.
Qed.

Lemma lock_first_in_first_out_witness :
  exists s s',
    run [Arrive 0; Start 0; Arrive 1; Start 1; Arrive 2; Start 2; Finish 0]
      (initial (fun _ => quiet_outside)) = Some s
    /\ exec (Resume 1) s = Some s'
    /\ waiters s = 1 :: waiters s' /\ active s' 1.
Proof.
  assert (H : exists s,
            run [Arrive 0; Start 0; Arrive 1; Start 1; Arrive 2; Start 2;
                 Finish 0] (initial (fun _ => quiet_outside)) = Some s
            /\ phase_of s 1 = Woken).
  { eexists. split; vm_compute; reflexivity. }
  destruct H as (s & Hrun & Hw).
  assert (He : exists s', exec (Resume 1) s = Some s').
  { simpl. rewrite Hw. eexists; reflexivity. }
  destruct He as [s' He].
  exists s, s'. split; [exact Hrun|]. split; [exact He|].
  exact (proj1 (lock_first_in_first_out (fun _ => quiet_outside) _ s Hrun)
           1 s' He).
Defined.


Lemma initial_served answers : served (initial answers).
Proof. split; simpl; [discriminate | intros _ t H; discriminate]. Qed.

Lemma exec_served e s s' :
  consistent s -> served s -> exec e s = Some s' -> served s'.
Proof.
  intros Hs [HL HF]. pose proof Hs as [A B C D E].
  destruct e as [t|t|t|t]; simpl.
  - destruct (phase_of s t) eqn:Pt; try discriminate.
    intros H; injection H as <-. split; cbn [locked waiters phase_of].
    + intros L. destruct (HL L) as [u Hu]. exists u.
      rewrite SerializerFacts.set_phase_other by congruence. exact Hu.
    + intros L h Hh. rewrite SerializerFacts.set_phase_other;
        [exact (HF L h Hh)|].
      intros ->. rewrite (HF L t Hh) in Pt. discriminate.
  - destruct (phase_of s t) eqn:Pt; try discriminate.
    destruct (locked s) eqn:L; cbn [negb andb].
    + intros H; injection H as <-. split; cbn [locked waiters phase_of].
      * intros _. destruct (HL eq_refl) as [u Hu]. exists u.
        rewrite SerializerFacts.set_phase_other by congruence. exact Hu.
      * congruence.
    + destruct (waiters s) as [|w ws] eqn:W.
      * intros H; injection H as <-. split; cbn [locked waiters phase_of].
        -- intros _. exists t. apply SerializerFacts.set_phase_same.
        -- discriminate.
      * intros H; injection H as <-. split; cbn [locked waiters phase_of].
        -- congruence.
        -- intros _ h Hh. simpl in Hh. injection Hh as <-.
           rewrite SerializerFacts.set_phase_other;
             [exact (HF eq_refl w eq_refl)|].
           intros ->. rewrite (HF eq_refl t eq_refl) in Pt. discriminate.
  - destruct (phase_of s t) eqn:Pt; try discriminate.
    intros H; injection H as <-. split; cbn [locked waiters phase_of].
    + intros _. exists t. apply SerializerFacts.set_phase_same.
    + discriminate.
  - destruct (phase_of s t) eqn:Pt; try discriminate.
    assert (Hfree : forall r h,
              hd_error (waiters s) = Some h ->
              wake_up_first (waiters s)
                (set_phase t (Finished r) (phase_of s)) h = Woken).
    { intros r h Hh.
      destruct (SerializerFacts.finish_phases s t r h Hs Pt)
        as [[-> _]|[(_ & _ & _ & X)|(_ & N & _)]].
      - exfalso. destruct (hd_error_cons t _ Hh) as [l El].
        destruct (D t) as [X|X]; [rewrite El; left; reflexivity| |];
          congruence.
      - exact X.
      - contradiction. }
    destruct (run_of s t) as [[out|e|] st]; try discriminate;
      intros H; injection H as <-; split; cbn [locked waiters phase_of];
      try discriminate; intros _ h Hh; apply Hfree, Hh.
Qed.

Lemma run_served events :
  forall s s', consistent s -> served s -> run events s = Some s' ->
               served s'.
Proof.
  induction events as [|e events IH]; simpl; intros s s' Hs Hv H.
  - injection H as <-; exact Hv.
  - destruct (exec e s) as [s1|] eqn:E; [|discriminate].
    exact (IH s1 s' (SerializerFacts.exec_consistent e s s1 Hs E)
             (exec_served e s s1 Hs Hv E) H).
Qed.

(** X21.  No wake-up is lost: in every state that the process can
    reach, the lock is held exactly when a run is going on; and when
    tasks wait in the queue, either a run is going on (and will release
    the lock when it ends), or the lock is free and the task at the head
    of the queue has been woken and can take the lock at once. *)
Theorem no_lost_wake_up :
  forall (answers : nat -> nat -> Register.call -> Register.reply)
         (events : list event) (s : system),
    run events (initial answers) = Some s ->
    (locked s = true <-> exists t, active s t)
    /\ (forall h rest, waiters s = h :: rest ->
          (exists t, active s t)
          \/ (locked s = false
              /\ exists s', exec (Resume h) s = Some s' /\ active s' h
                            /\ waiters s' = rest)).
Proof.
  intros answers events s Hrun.
  pose proof (SerializerFacts.run_consistent events _ s
                (SerializerFacts.initial_consistent answers) Hrun) as Hs.
  pose proof (run_served events _ s
                (SerializerFacts.initial_consistent answers)
                (initial_served answers) Hrun) as [HL HF].
  split.
  - split; [exact HL | intros [t Ht]; exact (running_locked Hs t Ht)].
  - intros h rest W. destruct (locked s) eqn:L.
    + left; exact (HL eq_refl).
    + right. split; [reflexivity|].
      assert (Ph : phase_of s h = Woken)
        by (apply (HF eq_refl); rewrite W; reflexivity).
      simpl. rewrite Ph. eexists. split; [reflexivity|].
      unfold active; cbn [phase_of waiters].
      rewrite SerializerFacts.set_phase_same, W, remove_first_head. auto.
Qed.

Lemma no_lost_wake_up_witness :
  exists s s',
    run [Arrive 0; Start 0; Arrive 1; Start 1; Finish 0]
      (initial (fun _ => quiet_outside)) = Some s
    /\ waiters s = [1]
    /\ locked s = false
    /\ exec (Resume 1) s = Some s' /\ active s' 1 /\ waiters s' = [].
Proof.
  assert (H : exists s,
            run [Arrive 0; Start 0; Arrive 1; Start 1; Finish 0]
              (initial (fun _ => quiet_outside)) = Some s
            /\ waiters s = [1] /\ locked s = false).
  { eexists. repeat match goal with |- _ /\ _ => split end;
      vm_compute; reflexivity. }
  destruct H as (s & Hrun & Hw & Hl).
  destruct (proj2 (no_lost_wake_up (fun _ => quiet_outside) _ s Hrun)
              1 [] Hw) as [[t Ht]|(_ & s' & He & Ha & Hr)].
  - exfalso.
    pose proof (proj2 (proj1 (no_lost_wake_up (fun _ => quiet_outside) _ s
                                Hrun)) (ex_intro _ t Ht)).
    congruence.
  - exists s, s'.
    repeat match goal with |- _ /\ _ => split end; assumption.
Defined.







End SerializerMore.

(* ================================================================== *)
(** * The handler: the escape of the text sent back *)
(* ================================================================== *)

Lemma replace_char (o : N) (new s : pystr) :
  replace [o] new s = flat_map (fun c => if (o =? c)%N then new else [c]) s.
Proof.
  unfold replace. induction s as [|c s IH]; [reflexivity|].
  cbn [replace_from flat_map startswith List.length Nat.sub].
  unfold cp_eqb. rewrite andb_true_r, IH.
  destruct (o =? c)%N; reflexivity.
Qed.

Lemma flat_map_flat_map {A B C} (f : A -> list B) (g : B -> list C)
    (l : list A) :
  flat_map g (flat_map f l) = flat_map (fun a => flat_map g (f a)) l.
Proof.
  induction l as [|a l IH]; [reflexivity|].
  simpl. rewrite flat_map_app, IH. reflexivity.
Qed.

Lemma escape_markdown_chars (s : pystr) :
  escape_markdown s = flat_map escaped_char s.
Proof.
  unfold escape_markdown.
  change (U "`") with [96%N]. change (U "*") with [42%N].
  change (U "_") with [95%N]. change (U "\`") with [92%N; 96%N].
  change (U "\*") with [92%N; 42%N]. change (U "\_") with [92%N; 95%N].
  rewrite !replace_char, !flat_map_flat_map.
  apply flat_map_ext. intros c.
  unfold escaped_char, markdown_special.
  destruct (N.eqb_spec 95 c) as [<-|N1]; [reflexivity|].
  destruct (N.eqb_spec 42 c) as [<-|N2]; [reflexivity|].
  destruct (N.eqb_spec 96 c) as [<-|N3]; [reflexivity|].
  cbn [flat_map app].
  destruct (N.eqb_spec 42 c) as [E|_]; [contradiction|].
  cbn [flat_map app].
  destruct (N.eqb_spec 96 c) as [E|_]; [contradiction|].
  destruct (N.eqb_spec c 95) as [E|_]; [symmetry in E; contradiction|].
  destruct (N.eqb_spec c 42) as [E|_]; [symmetry in E; contradiction|].
  destruct (N.eqb_spec c 96) as [E|_]; [symmetry in E; contradiction|].
  reflexivity.
Qed.

Lemma escaped_before (s pre post : pystr) (c : N) :
  flat_map escaped_char s = pre ++ c :: post ->
  markdown_special c = true ->
  exists pre', pre = pre' ++ [92%N].
Proof.
  revert pre; induction s as [|x s IH]; intros pre H Hc.
  - destruct pre; discriminate.
  - cbn [flat_map] in H. unfold escaped_char at 1 in H.
    destruct (markdown_special x) eqn:Hx.
    + destruct pre as [|p1 [|p2 pre]]; simpl in H.
      * injection H as <- _. discriminate.
      * injection H as <- <- _. exists []; reflexivity.
      * injection H as <- <- H. destruct (IH pre H Hc) as [pre' ->].
        exists (92%N :: x :: pre'); reflexivity.
    + destruct pre as [|p1 pre]; simpl in H.
      * injection H as <- _. congruence.
      * injection H as <- H. destruct (IH pre H Hc) as [pre' ->].
        exists (x :: pre'); reflexivity.
Qed.

(** X23.  The escape of the handler works character by character: every
    underscore, asterisk and backquote of the text gets one backslash
    before it and every other character stays as it is, the three
    passes not disturbing one another.  So the escape of two texts put
    together is the two escapes put together, a text without these
    characters is unchanged, and in the escaped text each of these
    characters stands right after a backslash. *)
Theorem escape_markdown_spec (s : pystr) :
  escape_markdown s = flat_map escaped_char s
  /\ (forall t, escape_markdown (s ++ t)
                = escape_markdown s ++ escape_markdown t)
  /\ (forallb (fun c => negb (markdown_special c)) s = true ->
      escape_markdown s = s)
  /\ (forall pre c post,
        escape_markdown s = pre ++ c :: post ->
        markdown_special c = true ->
        exists pre', pre = pre' ++ [92%N]).
Proof.
  split; [apply escape_markdown_chars|].
  split; [intros t; rewrite !escape_markdown_chars; apply flat_map_app|].
  split.
  - rewrite escape_markdown_chars.
    induction s as [|c s IH]; [reflexivity|]. simpl.
    intros H; apply andb_true_iff in H as [Hc Hs].
    unfold escaped_char at 1. apply negb_true_iff in Hc. rewrite Hc.
    simpl. rewrite (IH Hs). reflexivity.
  - intros pre c post. rewrite escape_markdown_chars. apply escaped_before.
Qed.

Lemma escape_markdown_spec_witness :
  escape_markdown (U "a_b*c`d")
  = [97; 92; 95; 98; 92; 42; 99; 92; 96; 100]%N
  /\ exists pre', [97; 92; 95; 98; 92; 42; 99; 92]%N = pre' ++ [92%N].
Proof.
  split; [vm_compute; reflexivity|].
  apply (proj2 (proj2 (proj2 (escape_markdown_spec (U "a_b*c`d"))))
           [97; 92; 95; 98; 92; 42; 99; 92]%N 96%N [100%N]);
    vm_compute; reflexivity.
Defined.
